(** * mtgpricer: the narrowing-and-pricing core of [MTGPricer.js]

    A shallow embedding of the card-pricing component: the pricing grid
    ([calculatePricingGrid]), the suggestion cache and its debounce timer
    ([fetchAutocomplete], [debouncedAutocomplete],
    [handleAutocompleteChange]), the grouping of search results
    ([processSearchResults]) and the selection handlers ([handleSetSelect],
    [handleCollectorNumberSelect], [getCurrentCardVariant],
    [handleLanguageOrFinishChange]).

    JavaScript numbers are IEEE 754 binary64 values and are modelled by
    Rocq's primitive floats; strings are sequences of UTF-16 code units;
    a [Map] is an association list in insertion order; React state is a
    record threaded through the handlers. *)

From Stdlib Require Import Floats.PrimFloat.
From Stdlib Require Import ZArith NArith Ascii String.
From Stdlib Require DecimalString.
From stdpp Require Import base option list sorting gmap.

#[local] Set Warnings "-inexact-float".
#[local] Open Scope Z_scope.
#[local] Open Scope nat_scope.

(** ** JavaScript values *)

Module JS.

(** A string is its sequence of UTF-16 code units, so that [length] is
    the [.length] of the source and the glyphs U+2605, U+2606 and U+2726
    are one unit each. *)
Abbreviation jsstring := (list N).

Definition js (s : string) : jsstring :=
  map N_of_ascii (list_ascii_of_string s).
Arguments js s%_string.

(** [s || d] for a string that may be [undefined]: the empty string is
    falsy. *)
Definition orElse (o : option jsstring) (d : jsstring) : jsstring :=
  match o with
  | Some (c :: s) => c :: s
  | _ => d
  end.

(** Truthiness of a string, and [.length > 0] of an array. *)
Definition nonEmpty {A} (s : list A) : bool :=
  match s with [] => false | _ => true end.

(** The values a price variable holds: [null], [undefined] or a number. *)
Inductive jsnum :=
| JNull
| JUndefined
| JNum (x : float).

(** [!v] on such a value: [null], [undefined], [0], [-0] and [NaN] are
    falsy. *)
Definition falsy (v : jsnum) : bool :=
  match v with
  | JNull | JUndefined => true
  | JNum x => (PrimFloat.eqb x 0%float || negb (PrimFloat.eqb x x))%bool
  end.

(** [ToNumber]; only reached for numbers in [calculatePricingGrid]. *)
Definition toNumber (v : jsnum) : float :=
  match v with
  | JNull => 0%float
  | JUndefined => nan
  | JNum x => x
  end.

(** [obj[key]] used as a factor: an absent property is [undefined], which
    arithmetic turns into [NaN]. *)
Definition prop (obj : gmap jsstring float) (key : jsstring) : float :=
  default nan (obj !! key).

(** An object literal with number properties. *)
Definition object (l : list (jsstring * float)) : gmap jsstring float :=
  list_to_map l.

(** *** [Map]

    A JavaScript [Map] iterates in insertion order; [set] on a present
    key replaces the value where it stands, [set] on an absent key
    appends. *)
Section JsMap.
Context {V : Type}.

Definition map_has (k : jsstring) (m : list (jsstring * V)) : bool :=
  bool_decide (k ∈ m.*1).

Definition map_get (k : jsstring) (m : list (jsstring * V)) : option V :=
  snd <$> List.find (fun kv => bool_decide (kv.1 = k)) m.

Definition map_delete (k : jsstring) (m : list (jsstring * V)) : list (jsstring * V) :=
  filter (fun kv => kv.1 <> k) m.

Definition map_set (k : jsstring) (v : V) (m : list (jsstring * V)) : list (jsstring * V) :=
  if map_has k m
  then map (fun kv => if bool_decide (kv.1 = k) then (k, v) else kv) m
  else m ++ [(k, v)].

(** [m.keys().next().value]; [None] is [undefined]. *)
Definition map_firstKey (m : list (jsstring * V)) : option jsstring :=
  head (m.*1).

End JsMap.

End JS.
Import JS.

(** ** Pricing engine *)

Module Pricing.

(** A tier as the settings editor stores it. *)
Record PricingTier := mkTier {
  tierName : jsstring;
  lowerBound : float;
  multiplier : float
}.

(** The settings object held in the [settings] state of the component.
    The parent's default carries the two tables and the credit
    multiplier; what the editor saves adds the base-price modifier, the
    thresholds and the tiers (absent: [None], the empty list). *)
Record Settings := mkSettings {
  basePriceModifier : option float;
  conditionMultipliers : gmap jsstring float;
  buyCashMultipliers : gmap jsstring float;
  creditMultiplier : float;
  bulkThreshold : option float;
  highEndThreshold : option float;
  pricingTiers : list PricingTier;
  darkMode : bool
}.

(** One element of the grid. *)
Record Row := mkRow {
  condition : jsstring;
  price : float;
  buyCash : float;
  buyCredit : float
}.

Definition conditions : list jsstring :=
  [js "NM"; js "EX"; js "VG"; js "G"].

(** [calculatePricingGrid]: [None] is the [null] result. *)
Definition calculatePricingGrid (settings : Settings) (tcgplayerBasePrice : jsnum)
  : option (list Row) :=
  if falsy tcgplayerBasePrice then None
  else
    Some (map (fun condition =>
      let conditionPrice :=
        (toNumber tcgplayerBasePrice * prop (conditionMultipliers settings) condition)%float in
      let buyCash :=
        (conditionPrice * prop (buyCashMultipliers settings) condition)%float in
      let buyCredit := (buyCash * creditMultiplier settings)%float in
      mkRow condition conditionPrice buyCash buyCredit) conditions).

(** [pricingGrid?.find(row => row.condition === condition)] of the view. *)
Definition rowFor (grid : list Row) (c : jsstring) : option Row :=
  List.find (fun row => bool_decide (condition row = c)) grid.

(** The initial [settings] state of the component. *)
Definition defaultSettings : Settings :=
  {| basePriceModifier := None;
     conditionMultipliers :=
       object [(js "NM", 1.0); (js "EX", 0.9); (js "VG", 0.75); (js "G", 0.5)]%float;
     buyCashMultipliers :=
       object [(js "NM", 0.85); (js "EX", 0.77); (js "VG", 0.60); (js "G", 0.30)]%float;
     creditMultiplier := 1.3%float;
     bulkThreshold := None;
     highEndThreshold := None;
     pricingTiers := [];
     darkMode := false |}.

(** The object the settings editor starts from and resets to, which
    [onSave] hands to the component. *)
Definition editorSettings : Settings :=
  {| basePriceModifier := Some 1.15%float;
     conditionMultipliers :=
       object [(js "NM", 1.0); (js "EX", 0.9); (js "VG", 0.75); (js "G", 0.5)]%float;
     buyCashMultipliers :=
       object [(js "NM", 0.85); (js "EX", 0.77); (js "VG", 0.60); (js "G", 0.30)]%float;
     creditMultiplier := 1.3%float;
     bulkThreshold := Some 3.0%float;
     highEndThreshold := Some 200.0%float;
     pricingTiers :=
       [ mkTier (js "Very Low") 3.0 0.08;
         mkTier (js "Low") 4.0 0.25;
         mkTier (js "Mid") 12.0 0.40;
         mkTier (js "Mid-High") 25.0 0.45;
         mkTier (js "High") 50.0 0.50 ]%float;
     darkMode := false |}.

(** The tier rule in the words of the specification: the tier chosen for
    a condition price is the last one, in the ordered sequence, whose
    lower bound does not exceed the price; it applies from the lowest
    tier's bound up to, and excluding, the high-end threshold. *)
Definition spec_tierFor (tiers : list PricingTier) (p : float) : option PricingTier :=
  last (List.filter (fun t => PrimFloat.leb (lowerBound t) p) tiers).

Definition spec_inTierRange (settings : Settings) (p : float) : bool :=
  match pricingTiers settings, highEndThreshold settings with
  | t :: _, Some hi => (PrimFloat.leb (lowerBound t) p && PrimFloat.ltb p hi)%bool
  | _, _ => false
  end.

(** The claim about tiers, in the words of the specification: inside the
    tier range the buy-cash amount is the condition price times the
    multiplier of the selected tier. *)
Definition spec_tierOverride (settings : Settings) (row : Row) : Prop :=
  spec_inTierRange settings (price row) = true ->
  forall tier, spec_tierFor (pricingTiers settings) (price row) = Some tier ->
  buyCash row = (price row * multiplier tier)%float.

(** The fields the Buying tab of the editor writes
    ([handleBasePriceModifierChange], [handleBulkThresholdChange],
    [handleHighEndThresholdChange], [handlePricingTierChange]). *)
Definition withBuying (settings : Settings) (modifier bulk hi : option float)
    (tiers : list PricingTier) : Settings :=
  {| basePriceModifier := modifier;
     conditionMultipliers := conditionMultipliers settings;
     buyCashMultipliers := buyCashMultipliers settings;
     creditMultiplier := creditMultiplier settings;
     bulkThreshold := bulk;
     highEndThreshold := hi;
     pricingTiers := tiers;
     darkMode := darkMode settings |}.

End Pricing.

(** ** Suggestion cache and scheduler *)

Module Suggest.

Definition maxCacheSize : nat := 50.
Definition debounceDelay : nat := 750.

(** A pending [setTimeout] callback of the host: its id, the time at
    which it is due and the query its closure captured. *)
Record Timer := mkTimer {
  timerId : nat;
  due : nat;
  timerQuery : jsstring
}.

(** The state the suggestion path reads and writes: the React state
    [searchTerm], [suggestions], [autocompleteLoading]; the refs
    [cacheRef] and [debounceTimeoutRef]; the host's clock, timer queue
    and the requests awaiting a response; and two history variables,
    which the program does not have: the queries [fetchAutocomplete] was
    called with, and the cache keys in the order they were accessed: read
    on a hit ([cache.get]) or written by a response ([cache.set]). *)
Record State := mkState {
  searchTerm : jsstring;
  suggestions : list jsstring;
  autocompleteLoading : bool;
  cacheRef : list (jsstring * list jsstring);
  debounceTimeoutRef : option nat;
  clock : nat;
  nextTimer : nat;
  timers : list Timer;
  inflight : list jsstring;
  fetchCalls : list jsstring;
  accesses : list jsstring
}.

Definition setSearchTerm (v : jsstring) (st : State) : State :=
  {| searchTerm := v; suggestions := suggestions st;
     autocompleteLoading := autocompleteLoading st; cacheRef := cacheRef st;
     debounceTimeoutRef := debounceTimeoutRef st; clock := clock st;
     nextTimer := nextTimer st; timers := timers st;
     inflight := inflight st; fetchCalls := fetchCalls st;
     accesses := accesses st |}.

Definition setSuggestions (v : list jsstring) (st : State) : State :=
  {| searchTerm := searchTerm st; suggestions := v;
     autocompleteLoading := autocompleteLoading st; cacheRef := cacheRef st;
     debounceTimeoutRef := debounceTimeoutRef st; clock := clock st;
     nextTimer := nextTimer st; timers := timers st;
     inflight := inflight st; fetchCalls := fetchCalls st;
     accesses := accesses st |}.

Definition setAutocompleteLoading (v : bool) (st : State) : State :=
  {| searchTerm := searchTerm st; suggestions := suggestions st;
     autocompleteLoading := v; cacheRef := cacheRef st;
     debounceTimeoutRef := debounceTimeoutRef st; clock := clock st;
     nextTimer := nextTimer st; timers := timers st;
     inflight := inflight st; fetchCalls := fetchCalls st;
     accesses := accesses st |}.

Definition setCache (v : list (jsstring * list jsstring)) (st : State) : State :=
  {| searchTerm := searchTerm st; suggestions := suggestions st;
     autocompleteLoading := autocompleteLoading st; cacheRef := v;
     debounceTimeoutRef := debounceTimeoutRef st; clock := clock st;
     nextTimer := nextTimer st; timers := timers st;
     inflight := inflight st; fetchCalls := fetchCalls st;
     accesses := accesses st |}.

Definition setDebounceTimeoutRef (v : option nat) (st : State) : State :=
  {| searchTerm := searchTerm st; suggestions := suggestions st;
     autocompleteLoading := autocompleteLoading st; cacheRef := cacheRef st;
     debounceTimeoutRef := v; clock := clock st; nextTimer := nextTimer st;
     timers := timers st; inflight := inflight st;
     fetchCalls := fetchCalls st; accesses := accesses st |}.

Definition setClock (v : nat) (st : State) : State :=
  {| searchTerm := searchTerm st; suggestions := suggestions st;
     autocompleteLoading := autocompleteLoading st; cacheRef := cacheRef st;
     debounceTimeoutRef := debounceTimeoutRef st; clock := v;
     nextTimer := nextTimer st; timers := timers st;
     inflight := inflight st; fetchCalls := fetchCalls st;
     accesses := accesses st |}.

Definition setNextTimer (v : nat) (st : State) : State :=
  {| searchTerm := searchTerm st; suggestions := suggestions st;
     autocompleteLoading := autocompleteLoading st; cacheRef := cacheRef st;
     debounceTimeoutRef := debounceTimeoutRef st; clock := clock st;
     nextTimer := v; timers := timers st; inflight := inflight st;
     fetchCalls := fetchCalls st; accesses := accesses st |}.

Definition setTimers (v : list Timer) (st : State) : State :=
  {| searchTerm := searchTerm st; suggestions := suggestions st;
     autocompleteLoading := autocompleteLoading st; cacheRef := cacheRef st;
     debounceTimeoutRef := debounceTimeoutRef st; clock := clock st;
     nextTimer := nextTimer st; timers := v; inflight := inflight st;
     fetchCalls := fetchCalls st; accesses := accesses st |}.

Definition setInflight (v : list jsstring) (st : State) : State :=
  {| searchTerm := searchTerm st; suggestions := suggestions st;
     autocompleteLoading := autocompleteLoading st; cacheRef := cacheRef st;
     debounceTimeoutRef := debounceTimeoutRef st; clock := clock st;
     nextTimer := nextTimer st; timers := timers st; inflight := v;
     fetchCalls := fetchCalls st; accesses := accesses st |}.

Definition setFetchCalls (v : list jsstring) (st : State) : State :=
  {| searchTerm := searchTerm st; suggestions := suggestions st;
     autocompleteLoading := autocompleteLoading st; cacheRef := cacheRef st;
     debounceTimeoutRef := debounceTimeoutRef st; clock := clock st;
     nextTimer := nextTimer st; timers := timers st;
     inflight := inflight st; fetchCalls := v; accesses := accesses st |}.

Definition setAccesses (v : list jsstring) (st : State) : State :=
  {| searchTerm := searchTerm st; suggestions := suggestions st;
     autocompleteLoading := autocompleteLoading st; cacheRef := cacheRef st;
     debounceTimeoutRef := debounceTimeoutRef st; clock := clock st;
     nextTimer := nextTimer st; timers := timers st;
     inflight := inflight st; fetchCalls := fetchCalls st; accesses := v |}.

Definition init : State :=
  {| searchTerm := [];
     suggestions := [];
     autocompleteLoading := false;
     cacheRef := [];
     debounceTimeoutRef := None;
     clock := 0;
     nextTimer := 1;
     timers := [];
     inflight := [];
     fetchCalls := [];
     accesses := [] |}.

(** [clearTimeout(id)]: a no-op for an id that is not pending. *)
Definition clearTimeout (id : nat) (st : State) : State :=
  setTimers (filter (fun t => timerId t <> id) (timers st)) st.

(** [setTimeout(cb, delay)]: ids are positive and fresh. *)
Definition setTimeout (q : jsstring) (delay : nat) (st : State) : nat * State :=
  let id := nextTimer st in
  (id, setNextTimer (S id)
         (setTimers (timers st ++ [mkTimer id (clock st + delay) q]) st)).

(** [if (debounceTimeoutRef.current) clearTimeout(debounceTimeoutRef.current)]:
    [null] and [0] are falsy. *)
Definition clearPending (st : State) : State :=
  match debounceTimeoutRef st with
  | Some (S id) => clearTimeout (S id) st
  | _ => st
  end.

(** [fetchAutocomplete] up to its [await]: the length guard, the cache
    hit, or the request sent. [cache.get] of a key that [cache.has]
    always yields its value ([map_get_has]). *)
Definition fetchAutocomplete_start (query : jsstring) (st0 : State) : State :=
  let st := setFetchCalls (fetchCalls st0 ++ [query]) st0 in
  if length query <? 3 then setSuggestions [] st
  else
    let cache := cacheRef st in
    if map_has query cache then
      let cached := default [] (map_get query cache) in
      setSuggestions cached
        (setAccesses (accesses st ++ [query])
           (setCache (map_set query cached (map_delete query cache)) st))
    else
      setInflight (inflight st ++ [query]) (setAutocompleteLoading true st).

(** [fetchAutocomplete] after its [await]: [Some results] is a response
    that was ok, with [data.suggestions || []]; [None] is a failed
    request. The eviction looks at the size only, so it also runs when
    the key of the response is already cached; [cache.set] then replaces
    the value where the key stands. Every [cache.set] is an access in
    the history. *)
Definition fetchAutocomplete_resume (query : jsstring)
    (outcome : option (list jsstring)) (st : State) : State :=
  match outcome with
  | Some results =>
      let cache := cacheRef st in
      let cache1 :=
        if maxCacheSize <=? length cache then
          match map_firstKey cache with
          | Some firstKey => map_delete firstKey cache
          | None => cache
          end
        else cache in
      setAutocompleteLoading false
        (setSuggestions results
           (setCache (map_set query results cache1)
              (setAccesses (accesses st ++ [query]) st)))
  | None =>
      setAutocompleteLoading false (setSuggestions [] st)
  end.

(** [debouncedAutocomplete]. *)
Definition debouncedAutocomplete (query : jsstring) (st : State) : State :=
  let st1 := clearPending st in
  let '(id, st2) := setTimeout query debounceDelay st1 in
  setDebounceTimeoutRef (Some id) st2.

(** [handleAutocompleteChange], the part on this state (the part on the
    selection is [Selector.clearOnTyping]). *)
Definition handleAutocompleteChange (newValue : jsstring) (st : State) : State :=
  let st1 := setSearchTerm newValue st in
  if nonEmpty newValue then debouncedAutocomplete newValue st1
  else setSuggestions [] st1.

(** [handleClear], the part on this state. *)
Definition handleClear (st : State) : State :=
  clearPending (setSuggestions [] (setSearchTerm [] st)).

(** The host lets time pass: the callbacks that are due run, in the
    order they were scheduled (all have the same delay). *)
Definition fire (now : nat) (st : State) : State :=
  let ready := filter (fun t => due t <= now) (timers st) in
  let st1 := setTimers (filter (fun t => ~ (due t <= now)) (timers st)) st in
  foldl (fun s t => fetchAutocomplete_start (timerQuery t) s) st1 ready.

Definition advance (d : nat) (st : State) : State :=
  let now := clock st + d in
  fire now (setClock now st).

(** A response arrives for a request in flight; for a query with no
    request in flight there is nothing to deliver. *)
Fixpoint remove_first (q : jsstring) (l : list jsstring) : list jsstring :=
  match l with
  | [] => []
  | x :: l' => if bool_decide (x = q) then l' else x :: remove_first q l'
  end.

Definition respond (q : jsstring) (outcome : option (list jsstring)) (st : State) : State :=
  if bool_decide (q ∈ inflight st)
  then fetchAutocomplete_resume q outcome (setInflight (remove_first q (inflight st)) st)
  else st.

(** What can happen, in any order. *)
Inductive Event :=
| EvInput (newValue : jsstring)
| EvClear
| EvWait (d : nat)
| EvResponse (q : jsstring) (outcome : option (list jsstring)).

Definition step (st : State) (e : Event) : State :=
  match e with
  | EvInput v => handleAutocompleteChange v st
  | EvClear => handleClear st
  | EvWait d => advance d st
  | EvResponse q outcome => respond q outcome st
  end.

Definition run (evs : list Event) (st : State) : State := foldl step st evs.

(** The recency order of a history of accesses: every key once, ordered
    by its last access, the least recently accessed first. *)
Definition touch (rec : list jsstring) (q : jsstring) : list jsstring :=
  filter (fun k => k <> q) rec ++ [q].

Definition recency (log : list jsstring) : list jsstring := foldl touch [] log.

(** A burst of [debouncedAutocomplete] calls: the first call, then each
    further call after the given wait. *)
Definition burst (q0 : jsstring) (calls : list (nat * jsstring)) (st : State) : State :=
  foldl (fun s c => debouncedAutocomplete c.2 (advance c.1 s))
        (debouncedAutocomplete q0 st) calls.

(** The same burst typed into the input: [handleAutocompleteChange]
    calls. *)
Definition inputBurst (q0 : jsstring) (calls : list (nat * jsstring)) (st : State) : State :=
  foldl (fun s c => handleAutocompleteChange c.2 (advance c.1 s))
        (handleAutocompleteChange q0 st) calls.

Definition lastQuery (q0 : jsstring) (calls : list (nat * jsstring)) : jsstring :=
  default q0 (last (calls.*2)).

(** A run that fills the cache: one completed fetch for each of [n]
    distinct queries. *)
Definition sampleQuery (i : nat) : jsstring := js "card " ++ [N.of_nat (48 + i)].

Definition fetchCycle (q : jsstring) (results : list jsstring) : list Event :=
  [EvInput q; EvWait debounceDelay; EvResponse q (Some results)].

Definition fillEvents (n : nat) : list Event :=
  flat_map (fun i => fetchCycle (sampleQuery i) [sampleQuery i]) (seq 0 n).

(** Ten calls for the ascending prefixes of one query, ten time units
    apart. *)
Definition typedQuery : jsstring := js "lightning bolt".

Definition typingBurst : list (nat * jsstring) :=
  map (fun n => (10, take n typedQuery)) (seq 2 9).

(** The claim about overlapping fetches, in the words of the
    specification: a response for a query that is no longer the current
    input is discarded. *)
Definition spec_staleDiscarded : Prop :=
  forall evs q outcome,
    let st := run evs init in
    q ∈ inflight st -> q <> searchTerm st ->
    suggestions (step st (EvResponse q outcome)) = suggestions st.

(** The claim about short queries, in the words of the specification:
    the call yields the empty sequence at once and leaves no fetch
    scheduled. *)
Definition spec_shortQueryBypass : Prop :=
  forall evs q,
    length q < 3 ->
    let st' := step (run evs init) (EvInput q) in
    suggestions st' = [] /\ timers st' = [].

(** The cache as a least-recently-used cache: it holds at most
    [maxCacheSize] entries and its keys, in [Map] order, are the most
    recently accessed ones in recency order. Of the scheduler: at most
    one timer is pending, and it is the one [debounceTimeoutRef]
    names. *)
Definition cache_inv (st : State) : Prop :=
  length (cacheRef st) <= maxCacheSize /\
  exists older, recency (accesses st) = older ++ (cacheRef st).*1.

(** What every reachable state has: at most [maxCacheSize] entries,
    under distinct keys. *)
Definition cache_bound (st : State) : Prop :=
  length (cacheRef st) <= maxCacheSize /\ NoDup (cacheRef st).*1.

(** No response that is ok arrives for a query that is cached by then:
    the run never has the same query fetched again while its request is
    still in flight. *)
Fixpoint noOverwriteb (st : State) (evs : list Event) : bool :=
  match evs with
  | [] => true
  | e :: evs' =>
      match e with
      | EvResponse q (Some _) =>
          implb (bool_decide (q ∈ inflight st)) (negb (map_has q (cacheRef st)))
      | _ => true
      end && noOverwriteb (step st e) evs'
  end.

Definition noOverwrite (evs : list Event) : Prop := noOverwriteb init evs = true.

(** A run in which one query is fetched twice before its first response
    arrives, and the second response arrives late: when the cache is
    full again. The query is typed, extended and restored, so that its
    timer fires twice. *)
Definition lateQuery : jsstring := js "abc".

Definition duplicateRun : list Event :=
  fetchCycle (js "first") [js "first"] ++
  [EvInput lateQuery; EvWait debounceDelay;
   EvInput (js "abcd"); EvInput lateQuery; EvWait debounceDelay;
   EvResponse lateQuery (Some [js "early"])] ++
  fillEvents 48.

(** What follows the late response: one more query is cached, and the
    request of a further one is sent. *)
Definition afterDuplicate : list Event :=
  fetchCycle (js "xyz") [js "xyz"] ++ [EvInput (js "new"); EvWait debounceDelay].

Definition sched_inv (st : State) : Prop :=
  0 < nextTimer st /\
  (timers st = [] \/
   exists t, timers st = [t] /\ debounceTimeoutRef st = Some (timerId t) /\
             0 < timerId t).

(** Exactly one fetch is scheduled, for [q], a full quiet period from
    now. *)
Definition pending_one (st : State) (q : jsstring) : Prop :=
  exists id, 0 < id /\ 0 < nextTimer st /\
    timers st = [mkTimer id (clock st + debounceDelay) q] /\
    debounceTimeoutRef st = Some id.

End Suggest.

(** ** Printing index and variant selector *)

Module Selector.

(** A printing record, with the fields the selection reads; a field
    that may be missing is an [option]. *)
Record Card := mkCard {
  name : option jsstring;
  set_code : option jsstring;
  set_name : option jsstring;
  collector_number : option jsstring;
  lang : option jsstring;
  finishes : option (list jsstring)
}.

(** An entry of [setMap]: [collectorNumbers] is a [Set], kept in
    insertion order. *)
Record SetInfo := mkSetInfo {
  code : jsstring;
  setName : jsstring;
  cards : list Card;
  collectorNumbers : list jsstring
}.

(** [set.add(x)]. *)
Definition setAdd (s : list jsstring) (x : jsstring) : list jsstring :=
  if bool_decide (x ∈ s) then s else s ++ [x].

(** [.replace(/[★☆✦]/g, '')]: the code units U+2605, U+2606, U+2726. *)
Definition isGlyph (c : N) : bool :=
  ((c =? 0x2605) || (c =? 0x2606) || (c =? 0x2726))%N.

Definition stripGlyphs (s : jsstring) : jsstring :=
  List.filter (fun c => negb (isGlyph c)) s.

(** [(card.collector_number || '').replace(...)]. *)
Definition cleanCollectorNumber (card : Card) : jsstring :=
  stripGlyphs (orElse (collector_number card) []).

(** *** [parseInt(s, 10)]

    Leading white space is skipped, one sign is read, then the longest
    run of decimal digits; [None] is [NaN]. The value is the exact
    integer, which is what the source computes below 2^53; see
    [exactInteger]. *)
Definition isStrWhiteSpace (c : N) : bool :=
  bool_decide (c ∈ [0x9; 0xA; 0xB; 0xC; 0xD; 0x20; 0xA0; 0x1680; 0x2000; 0x2001;
                     0x2002; 0x2003; 0x2004; 0x2005; 0x2006; 0x2007; 0x2008;
                     0x2009; 0x200A; 0x2028; 0x2029; 0x202F; 0x205F; 0x3000;
                     0xFEFF]%N).

Fixpoint trimStart (s : jsstring) : jsstring :=
  match s with
  | c :: s' => if isStrWhiteSpace c then trimStart s' else s
  | [] => []
  end.

Definition digitValue (c : N) : option Z :=
  if ((48 <=? c) && (c <=? 57))%N then Some (Z.of_N c - 48)%Z else None.

Fixpoint digits (acc : option Z) (s : jsstring) : option Z :=
  match s with
  | c :: s' =>
      match digitValue c with
      | Some d => digits (Some (10 * default 0 acc + d))%Z s'
      | None => acc
      end
  | [] => acc
  end.

Definition parseInt (s : jsstring) : option Z :=
  match trimStart s with
  | 45%N :: r => Z.opp <$> digits None r
  | 43%N :: r => digits None r
  | r => digits None r
  end.

(** The number the source gets from [parseInt] is a binary64. Up to 2^52
    in magnitude it is the integer read, and the difference of two such
    numbers is the difference of the integers. Beyond, the source rounds
    and this model does not; what is stated about the numeric order is
    stated within the bound. *)
Definition exactInteger (s : jsstring) : Prop :=
  forall z, parseInt s = Some z -> (Z.abs z <= 2 ^ 52)%Z.

(** *** [Array.prototype.sort]

    The sort is stable. For a comparator that orders the array
    consistently the result is fixed by the language, and it is the one
    this insertion sort computes. *)
Section Sort.
Context {A : Type} (cmp : A -> A -> Z).

Fixpoint insertBy (x : A) (l : list A) : list A :=
  match l with
  | [] => [x]
  | y :: l' => if (cmp x y <=? 0)%Z then x :: y :: l' else y :: insertBy x l'
  end.

Definition sortBy (l : list A) : list A := foldr insertBy [] l.

End Sort.

(** The comparison by code unit, which is what the specification calls
    the lexicographic comparison on the raw string. *)
Fixpoint lexCompare (a b : jsstring) : Z :=
  match a, b with
  | [], [] => 0
  | [], _ :: _ => -1
  | _ :: _, [] => 1
  | x :: a', y :: b' =>
      match N.compare x y with
      | Lt => -1
      | Gt => 1
      | Eq => lexCompare a' b'
      end
  end.

(** The ordering of a group in the words of the specification: decided
    once for the group, numeric when every value parses and
    lexicographic otherwise. *)
Definition spec_groupCompare (group : list jsstring) (a b : jsstring) : Z :=
  if forallb (fun x => bool_decide (is_Some (parseInt x))) group
  then (default 0 (parseInt a) - default 0 (parseInt b))%Z
  else lexCompare a b.

Definition spec_sortGroup (group : list jsstring) : list jsstring :=
  sortBy (spec_groupCompare group) group.

(** The selection state of the component. [None] for [selectedSet] and
    [selectedCardVersion] is [null] or [undefined]; for
    [selectedLanguage] and [selectedFinish] it is [undefined]. *)
Record Selection := mkSelection {
  searchResults : list Card;
  uniqueSets : list SetInfo;
  selectedSet : option SetInfo;
  availableCollectorNumbers : list jsstring;
  selectedCollectorNumber : jsstring;
  selectedCardVersion : option Card;
  selectedLanguage : option jsstring;
  selectedFinish : option jsstring;
  availableLanguages : list jsstring;
  availableFinishes : list jsstring
}.

Definition setSearchResults (v : list Card) (st : Selection) : Selection :=
  {| searchResults := v; uniqueSets := uniqueSets st;
     selectedSet := selectedSet st;
     availableCollectorNumbers := availableCollectorNumbers st;
     selectedCollectorNumber := selectedCollectorNumber st;
     selectedCardVersion := selectedCardVersion st;
     selectedLanguage := selectedLanguage st;
     selectedFinish := selectedFinish st;
     availableLanguages := availableLanguages st;
     availableFinishes := availableFinishes st |}.

Definition setUniqueSets (v : list SetInfo) (st : Selection) : Selection :=
  {| searchResults := searchResults st; uniqueSets := v;
     selectedSet := selectedSet st;
     availableCollectorNumbers := availableCollectorNumbers st;
     selectedCollectorNumber := selectedCollectorNumber st;
     selectedCardVersion := selectedCardVersion st;
     selectedLanguage := selectedLanguage st;
     selectedFinish := selectedFinish st;
     availableLanguages := availableLanguages st;
     availableFinishes := availableFinishes st |}.

Definition setSelectedSet (v : option SetInfo) (st : Selection) : Selection :=
  {| searchResults := searchResults st; uniqueSets := uniqueSets st;
     selectedSet := v;
     availableCollectorNumbers := availableCollectorNumbers st;
     selectedCollectorNumber := selectedCollectorNumber st;
     selectedCardVersion := selectedCardVersion st;
     selectedLanguage := selectedLanguage st;
     selectedFinish := selectedFinish st;
     availableLanguages := availableLanguages st;
     availableFinishes := availableFinishes st |}.

Definition setAvailableCollectorNumbers (v : list jsstring) (st : Selection) : Selection :=
  {| searchResults := searchResults st; uniqueSets := uniqueSets st;
     selectedSet := selectedSet st; availableCollectorNumbers := v;
     selectedCollectorNumber := selectedCollectorNumber st;
     selectedCardVersion := selectedCardVersion st;
     selectedLanguage := selectedLanguage st;
     selectedFinish := selectedFinish st;
     availableLanguages := availableLanguages st;
     availableFinishes := availableFinishes st |}.

Definition setSelectedCollectorNumber (v : jsstring) (st : Selection) : Selection :=
  {| searchResults := searchResults st; uniqueSets := uniqueSets st;
     selectedSet := selectedSet st;
     availableCollectorNumbers := availableCollectorNumbers st;
     selectedCollectorNumber := v;
     selectedCardVersion := selectedCardVersion st;
     selectedLanguage := selectedLanguage st;
     selectedFinish := selectedFinish st;
     availableLanguages := availableLanguages st;
     availableFinishes := availableFinishes st |}.

Definition setSelectedCardVersion (v : option Card) (st : Selection) : Selection :=
  {| searchResults := searchResults st; uniqueSets := uniqueSets st;
     selectedSet := selectedSet st;
     availableCollectorNumbers := availableCollectorNumbers st;
     selectedCollectorNumber := selectedCollectorNumber st;
     selectedCardVersion := v; selectedLanguage := selectedLanguage st;
     selectedFinish := selectedFinish st;
     availableLanguages := availableLanguages st;
     availableFinishes := availableFinishes st |}.

Definition setSelectedLanguage (v : option jsstring) (st : Selection) : Selection :=
  {| searchResults := searchResults st; uniqueSets := uniqueSets st;
     selectedSet := selectedSet st;
     availableCollectorNumbers := availableCollectorNumbers st;
     selectedCollectorNumber := selectedCollectorNumber st;
     selectedCardVersion := selectedCardVersion st; selectedLanguage := v;
     selectedFinish := selectedFinish st;
     availableLanguages := availableLanguages st;
     availableFinishes := availableFinishes st |}.

Definition setSelectedFinish (v : option jsstring) (st : Selection) : Selection :=
  {| searchResults := searchResults st; uniqueSets := uniqueSets st;
     selectedSet := selectedSet st;
     availableCollectorNumbers := availableCollectorNumbers st;
     selectedCollectorNumber := selectedCollectorNumber st;
     selectedCardVersion := selectedCardVersion st;
     selectedLanguage := selectedLanguage st; selectedFinish := v;
     availableLanguages := availableLanguages st;
     availableFinishes := availableFinishes st |}.

Definition setAvailableLanguages (v : list jsstring) (st : Selection) : Selection :=
  {| searchResults := searchResults st; uniqueSets := uniqueSets st;
     selectedSet := selectedSet st;
     availableCollectorNumbers := availableCollectorNumbers st;
     selectedCollectorNumber := selectedCollectorNumber st;
     selectedCardVersion := selectedCardVersion st;
     selectedLanguage := selectedLanguage st;
     selectedFinish := selectedFinish st; availableLanguages := v;
     availableFinishes := availableFinishes st |}.

Definition setAvailableFinishes (v : list jsstring) (st : Selection) : Selection :=
  {| searchResults := searchResults st; uniqueSets := uniqueSets st;
     selectedSet := selectedSet st;
     availableCollectorNumbers := availableCollectorNumbers st;
     selectedCollectorNumber := selectedCollectorNumber st;
     selectedCardVersion := selectedCardVersion st;
     selectedLanguage := selectedLanguage st;
     selectedFinish := selectedFinish st;
     availableLanguages := availableLanguages st; availableFinishes := v |}.

Definition sel_init : Selection :=
  {| searchResults := [];
     uniqueSets := [];
     selectedSet := None;
     availableCollectorNumbers := [];
     selectedCollectorNumber := [];
     selectedCardVersion := None;
     selectedLanguage := Some (js "en");
     selectedFinish := Some (js "nonfoil");
     availableLanguages := [];
     availableFinishes := [] |}.

(** The resets of [performSearch], [handleClear] and
    [handleAutocompleteChange]. *)
Definition resetSelections (st : Selection) : Selection :=
  setAvailableFinishes []
    (setAvailableLanguages []
       (setAvailableCollectorNumbers []
          (setSelectedFinish (Some (js "nonfoil"))
             (setSelectedLanguage (Some (js "en"))
                (setSelectedCardVersion None
                   (setSelectedCollectorNumber []
                      (setSelectedSet None st))))))).

(** The cards of a set with a given cleaned collector number. *)
Definition matchingCardsOf (st : Selection) (setCode collectorNumber : jsstring)
  : list Card :=
  List.filter (fun card =>
      bool_decide (orElse (set_code card) [] = setCode) &&
      bool_decide (cleanCollectorNumber card = collectorNumber))
    (searchResults st).

(** [card.lang === defaultLang && card.finishes &&
    card.finishes.includes(defaultFinish)]. *)
Definition langMatch (defaultLang : option jsstring) (card : Card) : bool :=
  bool_decide (lang card = defaultLang).

Definition finishMatch (defaultFinish : option jsstring) (card : Card) : bool :=
  match finishes card, defaultFinish with
  | Some fs, Some f => bool_decide (f ∈ fs)
  | _, _ => false
  end.

Definition matchesDefaults (defaultLang defaultFinish : option jsstring)
    (card : Card) : bool :=
  langMatch defaultLang card && finishMatch defaultFinish card.

Definition languagesOf (matchingCards : list Card) : list jsstring :=
  foldl (fun languages card => setAdd languages (orElse (lang card) (js "en")))
        [] matchingCards.

Definition finishesOf (matchingCards : list Card) : list jsstring :=
  foldl (fun fins card => foldl setAdd fins (default [] (finishes card)))
        [] matchingCards.

Definition defaultOf (preferred : jsstring) (available : list jsstring)
  : option jsstring :=
  if bool_decide (preferred ∈ available) then Some preferred else head available.

(** The block both [handleSetSelect] and [handleCollectorNumberSelect]
    run on a non-empty group: the available languages and finishes, the
    defaults, and the resolved card. *)
Definition autoResolve (matchingCards : list Card) (st : Selection) : Selection :=
  let langArray := languagesOf matchingCards in
  let finishArray := finishesOf matchingCards in
  let defaultLang := defaultOf (js "en") langArray in
  let defaultFinish := defaultOf (js "nonfoil") finishArray in
  let defaultCard := List.find (matchesDefaults defaultLang defaultFinish) matchingCards in
  setSelectedCardVersion
    (match defaultCard with Some card => Some card | None => head matchingCards end)
    (setSelectedFinish defaultFinish
       (setSelectedLanguage defaultLang
          (setAvailableFinishes finishArray
             (setAvailableLanguages langArray st)))).

(** The resolution in the words of the specification: both defaults,
    else the language alone, else the finish alone, else the first
    record. *)
Definition spec_resolve (defaultLang defaultFinish : option jsstring)
    (group : list Card) : option Card :=
  match List.find (matchesDefaults defaultLang defaultFinish) group with
  | Some card => Some card
  | None =>
      match List.find (langMatch defaultLang) group with
      | Some card => Some card
      | None =>
          match List.find (finishMatch defaultFinish) group with
          | Some card => Some card
          | None => head group
          end
      end
  end.

Section Host.
(** The collation and the case mapping of the host. *)
Variable localeCompare : jsstring -> jsstring -> Z.
Variable toLowerCase : jsstring -> jsstring.

(** The comparator of the collector numbers. *)
Definition collectorCompare (a b : jsstring) : Z :=
  match parseInt a, parseInt b with
  | Some numA, Some numB => (numA - numB)%Z
  | _, _ => localeCompare a b
  end.

Definition sortCollectorNumbers (numbers : list jsstring) : list jsstring :=
  sortBy collectorCompare numbers.

(** [processSearchResults]: one step of its [forEach], then the sorted
    values of the map. *)
Definition addCard (setMap : list (jsstring * SetInfo)) (card : Card)
  : list (jsstring * SetInfo) :=
  let setCode := orElse (set_code card) [] in
  let setName := orElse (set_name card) [] in
  let setMap1 :=
    if map_has setCode setMap then setMap
    else map_set setCode (mkSetInfo setCode setName [] []) setMap in
  match map_get setCode setMap1 with
  | Some setInfo =>
      let collectorNum := cleanCollectorNumber card in
      map_set setCode
        (mkSetInfo (code setInfo) (Selector.setName setInfo)
           (cards setInfo ++ [card])
           (if nonEmpty collectorNum
            then setAdd (collectorNumbers setInfo) collectorNum
            else collectorNumbers setInfo))
        setMap1
  | None => setMap1
  end.

Definition processSearchResults (cards : list Card) : list SetInfo :=
  let setMap := foldl addCard [] cards in
  sortBy (fun a b => localeCompare (toLowerCase (code a)) (toLowerCase (code b)))
         (setMap.*2).

(** [performSearch] once the response is there: [Some cards] is a
    response that was ok, [None] a failure. An empty list of cards is
    thrown as an error like a failure. *)
Definition performSearch (response : option (list Card)) (st : Selection) : Selection :=
  match response with
  | Some (card :: cards') =>
      resetSelections
        (setUniqueSets (processSearchResults (card :: cards'))
           (setSearchResults (card :: cards') st))
  | _ => setSelectedCardVersion None (setSearchResults [] st)
  end.

(** [handleClear], the part on this state. *)
Definition handleClear (st : Selection) : Selection :=
  resetSelections (setUniqueSets [] (setSearchResults [] st)).

(** [handleAutocompleteChange], the part on this state. *)
Definition clearOnTyping (newValue : jsstring) (st : Selection) : Selection :=
  let shown :=
    match searchResults st with
    | card :: _ => orElse (name card) []
    | [] => []
    end in
  if bool_decide (newValue <> shown) then
    match searchResults st with
    | _ :: _ => resetSelections (setUniqueSets [] (setSearchResults [] st))
    | [] => st
    end
  else st.

(** [handleSetSelect]. *)
Definition handleSetSelect (setCode : jsstring) (st : Selection) : Selection :=
  let selectedSetInfo :=
    List.find (fun set => bool_decide (code set = setCode)) (uniqueSets st) in
  let st1 := setSelectedSet selectedSetInfo st in
  match selectedSetInfo with
  | Some info =>
      let numbers := sortCollectorNumbers (collectorNumbers info) in
      let st2 := setAvailableCollectorNumbers numbers st1 in
      match head numbers with
      | Some (c :: lowest) =>
          let lowestCollectorNumber := c :: lowest in
          let st3 := setSelectedCollectorNumber lowestCollectorNumber st2 in
          match matchingCardsOf st (code info) lowestCollectorNumber with
          | [] => st3
          | matchingCards => autoResolve matchingCards st3
          end
      | _ =>
          setAvailableFinishes []
            (setAvailableLanguages []
               (setSelectedFinish (Some (js "nonfoil"))
                  (setSelectedLanguage (Some (js "en"))
                     (setSelectedCardVersion None
                        (setSelectedCollectorNumber [] st2)))))
      end
  | None => st1
  end.

End Host.

(** [handleCollectorNumberSelect]. *)
Definition handleCollectorNumberSelect (collectorNumber : jsstring)
    (st : Selection) : Selection :=
  let st1 := setSelectedCollectorNumber collectorNumber st in
  match selectedSet st, collectorNumber with
  | Some set, _ :: _ =>
      match matchingCardsOf st (code set) collectorNumber with
      | [] => st1
      | matchingCards => autoResolve matchingCards st1
      end
  | _, _ => st1
  end.

(** Truthiness of an optional string. *)
Definition truthy (o : option jsstring) : bool :=
  match o with Some (_ :: _) => true | _ => false end.

(** [getCurrentCardVariant]. *)
Definition getCurrentCardVariant (st : Selection) : option Card :=
  match selectedSet st with
  | Some set =>
      if nonEmpty (selectedCollectorNumber st) && truthy (selectedLanguage st)
         && truthy (selectedFinish st)
      then
        match List.find (fun card =>
                bool_decide (orElse (set_code card) [] = code set) &&
                bool_decide (cleanCollectorNumber card = selectedCollectorNumber st) &&
                langMatch (selectedLanguage st) card &&
                finishMatch (selectedFinish st) card) (searchResults st) with
        | Some matchingVariant => Some matchingVariant
        | None => selectedCardVersion st
        end
      else selectedCardVersion st
  | None => selectedCardVersion st
  end.

(** [handleLanguageOrFinishChange]. The callback closes over the state
    of the render in which it was created, [rendered]; its update goes
    to the state being built, [st]. *)
Definition handleLanguageOrFinishChange (rendered st : Selection) : Selection :=
  match selectedSet rendered, selectedCollectorNumber rendered with
  | Some _, _ :: _ =>
      match getCurrentCardVariant rendered with
      | Some currentVariant => setSelectedCardVersion (Some currentVariant) st
      | None => st
      end
  | _, _ => st
  end.

(** The [onChange] of the language and of the finish selector. *)
Definition changeLanguage (v : jsstring) (st : Selection) : Selection :=
  handleLanguageOrFinishChange st (setSelectedLanguage (Some v) st).

Definition changeFinish (v : jsstring) (st : Selection) : Selection :=
  handleLanguageOrFinishChange st (setSelectedFinish (Some v) st).

(** The operations on the selection. *)
Inductive Op :=
| OpSearch (response : option (list Card))
| OpClear
| OpType (newValue : jsstring)
| OpSet (setCode : jsstring)
| OpNumber (collectorNumber : jsstring)
| OpLanguage (v : jsstring)
| OpFinish (v : jsstring).

Section Ops.
Variable localeCompare : jsstring -> jsstring -> Z.
Variable toLowerCase : jsstring -> jsstring.

(** The handler an operation runs. *)
Definition handle (st : Selection) (op : Op) : Selection :=
  match op with
  | OpSearch response => performSearch localeCompare toLowerCase response st
  | OpClear => handleClear st
  | OpType newValue => clearOnTyping newValue st
  | OpSet setCode => handleSetSelect localeCompare setCode st
  | OpNumber collectorNumber => handleCollectorNumberSelect collectorNumber st
  | OpLanguage v => changeLanguage v st
  | OpFinish v => changeFinish v st
  end.

(** What the view offers: the selectors are rendered when there are
    search results, the collector-number selector when a set is
    selected, the language and finish selectors when a collector number
    is selected; each offers the available values only (the empty
    placeholder items are disabled). *)
Definition offered (st : Selection) (op : Op) : bool :=
  match op with
  | OpSearch _ | OpClear | OpType _ => true
  | OpSet setCode =>
      nonEmpty (searchResults st) &&
      bool_decide (setCode ∈ code <$> uniqueSets st)
  | OpNumber collectorNumber =>
      nonEmpty (searchResults st) &&
      bool_decide (is_Some (selectedSet st)) &&
      bool_decide (collectorNumber ∈ availableCollectorNumbers st)
  | OpLanguage v =>
      nonEmpty (searchResults st) &&
      nonEmpty (selectedCollectorNumber st) &&
      bool_decide (v ∈ availableLanguages st)
  | OpFinish v =>
      nonEmpty (searchResults st) &&
      nonEmpty (selectedCollectorNumber st) &&
      bool_decide (v ∈ availableFinishes st)
  end.

(** The operations as the view lets them happen. *)
Definition ui_step (st : Selection) (op : Op) : Selection :=
  if offered st op then handle st op else st.

Definition ui_run (ops : list Op) (st : Selection) : Selection :=
  foldl ui_step st ops.

(** The handlers called in any order with any argument. *)
Definition handlers_run (ops : list Op) (st : Selection) : Selection :=
  foldl handle st ops.

End Ops.

(** Sample data: a group of two printings, neither of which matches
    both defaults, and a search result around it. *)
Definition cardJaNonfoil : Card :=
  mkCard (Some (js "Lightning Bolt")) (Some (js "m11")) (Some (js "Magic 2011"))
         (Some (js "149")) (Some (js "ja")) (Some [js "nonfoil"]).

Definition cardEnFoil : Card :=
  mkCard (Some (js "Lightning Bolt")) (Some (js "m11")) (Some (js "Magic 2011"))
         (Some (js "149" ++ [0x2605%N])) (Some (js "en")) (Some [js "foil"]).

Definition cardEnBoth : Card :=
  mkCard (Some (js "Lightning Bolt")) (Some (js "m11")) (Some (js "Magic 2011"))
         (Some (js "150")) (Some (js "en")) (Some [js "nonfoil"; js "foil"]).

Definition sampleCards : list Card := [cardJaNonfoil; cardEnFoil; cardEnBoth].

(** The prerequisite order of the selection path: no collector number
    without a set; language, finish and resolved card at their reset
    values unless a collector number is selected. *)
Definition wellFormedPath (st : Selection) : Prop :=
  (selectedCollectorNumber st <> [] -> is_Some (selectedSet st)) /\
  (selectedLanguage st <> Some (js "en") -> selectedCollectorNumber st <> []) /\
  (selectedFinish st <> Some (js "nonfoil") -> selectedCollectorNumber st <> []) /\
  (is_Some (selectedCardVersion st) -> selectedCollectorNumber st <> []).

(** What the reachable states satisfy besides: no offered collector
    number is the empty string. *)
Definition sel_inv (st : Selection) : Prop :=
  wellFormedPath st /\
  ([] ∉ availableCollectorNumbers st) /\
  Forall (fun info => [] ∉ collectorNumbers info) (uniqueSets st).

(** Every later field at its reset value. *)
Definition laterFieldsReset (st : Selection) : Prop :=
  selectedCollectorNumber st = [] /\
  selectedLanguage st = Some (js "en") /\
  selectedFinish st = Some (js "nonfoil") /\
  selectedCardVersion st = None /\
  availableLanguages st = [] /\
  availableFinishes st = [].

(** A printing without a collector number. *)
Definition cardNoNumber : Card :=
  mkCard (Some (js "Lightning Bolt")) (Some (js "plist")) (Some (js "The List"))
         None (Some (js "en")) (Some [js "nonfoil"]).

(** The claim about the selection path, in the words of the
    specification: the four operations in any combination keep the path
    well formed. *)
Definition isSelectorOp (op : Op) : bool :=
  match op with
  | OpSet _ | OpNumber _ | OpLanguage _ | OpFinish _ => true
  | _ => false
  end.

Definition spec_pathInvariant : Prop :=
  forall localeCompare ops,
    forallb isSelectorOp ops = true ->
    wellFormedPath (handlers_run localeCompare (fun s => s) ops sel_init).

End Selector.

(** ** Grouping of the search results, described *)

Module Index.
Import Selector.

(** A string without the three glyphs. *)
Definition glyphFree (s : jsstring) : Prop := Forall (fun c => isGlyph c = false) s.

(** A search result of three sets, for the examples. *)
Definition cardOther (setCode number : string) : Card :=
  mkCard (Some (js "Lightning Bolt")) (Some (js setCode)) (Some (js "Some Set"))
         (Some (js number)) (Some (js "en")) (Some [js "nonfoil"]).

(** [card.set_code || '']: the key a card is grouped under. *)
Definition setKey (card : Card) : jsstring := orElse (set_code card) [].

(** The collector numbers a sequence of cards adds to its group's
    [Set], in the order [processSearchResults] adds them. *)
Definition numbersOf (cs : list Card) : list jsstring :=
  foldl (fun numbers card =>
           if nonEmpty (cleanCollectorNumber card)
           then setAdd numbers (cleanCollectorNumber card)
           else numbers) [] cs.

(** What [setMap] holds once the cards [done] have been processed. *)
Definition grouped (setMap : list (jsstring * SetInfo)) (done : list Card) : Prop :=
  NoDup (setMap.*1) /\
  (forall k, k ∈ setMap.*1 <-> exists card, card ∈ done /\ setKey card = k) /\
  (forall k info, map_get k setMap = Some info ->
     code info = k /\
     cards info = filter (fun card => setKey card = k) done /\
     collectorNumbers info = numbersOf (cards info) /\
     setName info = orElse (head (cards info) ≫= set_name) []).

(** The group of [Selector.sampleCards], and runs of the view on them. *)
Definition sampleGroup : SetInfo :=
  mkSetInfo (js "m11") (js "Magic 2011") sampleCards [js "149"; js "150"].

Definition searchedOps : list Op := [OpSearch (Some sampleCards)].

Definition chosenOps : list Op := [OpSearch (Some sampleCards); OpSet (js "m11")].

(** A card of the selected set and collector number, among the search
    results. *)
Definition belongs (st : Selection) (card : Card) : Prop :=
  card ∈ searchResults st /\
  exists info, selectedSet st = Some info /\ setKey card = code info /\
               cleanCollectorNumber card = selectedCollectorNumber st.

(** The test of [getCurrentCardVariant]: set, collector number, language
    and finish all match. *)
Definition exactMatch (st : Selection) (info : SetInfo) (card : Card) : bool :=
  bool_decide (setKey card = code info) &&
  bool_decide (cleanCollectorNumber card = selectedCollectorNumber st) &&
  langMatch (selectedLanguage st) card &&
  finishMatch (selectedFinish st) card.

(** What the selection keeps while the view drives it: the groups are
    those of the results shown; the selected set is one of them; the
    offered collector numbers are numbers of the selected set; the
    resolved card belongs to the selection; and the selected collector
    number, language and finish are among the offered ones. *)
Definition consistent (localeCompare : jsstring -> jsstring -> Z)
    (toLowerCase : jsstring -> jsstring) (st : Selection) : Prop :=
  (searchResults st <> [] ->
   uniqueSets st = processSearchResults localeCompare toLowerCase (searchResults st)) /\
  (forall info, selectedSet st = Some info -> searchResults st <> [] ->
     info ∈ uniqueSets st) /\
  (forall info, selectedSet st = Some info ->
     forall n, n ∈ availableCollectorNumbers st -> n ∈ collectorNumbers info) /\
  (forall card, selectedCardVersion st = Some card -> belongs st card) /\
  (selectedCollectorNumber st <> [] ->
     selectedCollectorNumber st ∈ availableCollectorNumbers st /\
     (exists l, selectedLanguage st = Some l /\ l ∈ availableLanguages st) /\
     (forall f, selectedFinish st = Some f -> f ∈ availableFinishes st)).

End Index.

(** ** The traffic of the suggestion path, described *)

Module Traffic.
Import Suggest.

(** The non-empty values typed into the input, in order. *)
Definition typed (evs : list Event) : list jsstring :=
  flat_map (fun e => match e with
                     | EvInput (c :: v) => [c :: v]
                     | _ => []
                     end) evs.

(** The queries [fetchAutocomplete] was called with, followed by those
    still waiting in the timer queue. *)
Definition scheduled (st : State) : list jsstring :=
  fetchCalls st ++ (timerQuery <$> timers st).

(** Every request in flight and every cache key has three code units
    or more. *)
Definition longQueries (st : State) : Prop :=
  Forall (fun q => 3 <= length q) (inflight st) /\
  Forall (fun q => 3 <= length q) ((cacheRef st).*1).

(** One query typed and its request sent. *)
Definition requested : list Event := [EvInput (js "abc"); EvWait 750].

End Traffic.

(** ** Market price lookup

    [extractTCGPlayerProductId], [getTCGPlayerCondition],
    [fetchTCGPlayerPricing], the effect that calls it and the part of
    the view that reads the [pricing] state. *)

Module Tcg.
Import Pricing Selector.

(** [\d] of a regular expression without the [u] flag. *)
Definition isDigit (c : N) : bool := ((48 <=? c) && (c <=? 57))%N.

Fixpoint leadingDigits (s : jsstring) : jsstring :=
  match s with
  | c :: s' => if isDigit c then c :: leadingDigits s' else []
  | [] => []
  end.

Fixpoint stripPrefix (p s : jsstring) : option jsstring :=
  match p, s with
  | [], _ => Some s
  | a :: p', b :: s' => if bool_decide (a = b) then stripPrefix p' s' else None
  | _ :: _, [] => None
  end.

(** [s.match(/product\/(\d+)/)], the capture group of the match: the
    leftmost position where [product/] is followed by a digit, and all
    the digits that follow (the quantifier is greedy). [None] is no
    match. *)
Fixpoint matchProduct (s : jsstring) : option jsstring :=
  match s with
  | [] => None
  | _ :: s' =>
      match stripPrefix (js "product/") s with
      | Some rest =>
          match leadingDigits rest with
          | [] => matchProduct s'
          | ds => Some ds
          end
      | None => matchProduct s'
      end
  end.

(** No match starts at the head of [s]. *)
Definition noMatchHere (s : jsstring) : Prop :=
  match stripPrefix (js "product/") s with
  | Some rest => leadingDigits rest = []
  | None => True
  end.

(** How a call ends: with a value, or with an exception thrown. *)
Inductive completion (A : Type) :=
| Normal (a : A)
| Throw.
Arguments Normal {A} a.
Arguments Throw {A}.

(** One element of [data.pricing.results]; a market price is a number,
    [null] or absent. *)
Record PriceResult := mkResult {
  subTypeName : jsstring;
  marketPrice : jsnum
}.

(** What the [try] block of [fetchTCGPlayerPricing] meets: an exception
    with its message (the request failed, the status was not ok, the
    body was not JSON), or the value of [data.pricing?.results]. *)
Inductive Outcome :=
| Failed (message : jsstring)
| Data (results : option (list PriceResult)).

(** The [pricing] state. *)
Record PricingState := mkPricing {
  lpMarketPrice : jsnum;
  loading : bool;
  error : option jsstring;
  productId : option jsstring
}.

(** The [pricing] state and the requests that are in flight, each with
    the product id and the finish its call was made with. *)
Record PState := mkPState {
  pricing : PricingState;
  requests : list (jsstring * option jsstring)
}.

Definition setPricing (v : PricingState) (st : PState) : PState :=
  mkPState v (requests st).

Definition setRequests (v : list (jsstring * option jsstring)) (st : PState) : PState :=
  mkPState (pricing st) v.

Definition noPricing : PricingState := mkPricing JNull false None None.

Definition pinit : PState := mkPState noPricing [].

(** [getTCGPlayerCondition]. *)
Definition getTCGPlayerCondition (selectedFinish : option jsstring) : jsstring :=
  if bool_decide (selectedFinish = Some (js "foil")) then js "Foil" else js "Normal".

(** [v !== null]. *)
Definition notNull (v : jsnum) : bool :=
  match v with JNull => false | _ => true end.

(** [v || null]. *)
Definition orNull (v : jsnum) : jsnum := if falsy v then JNull else v.

Section Host.
(** [decodeURIComponent]; [None] is the [URIError] it throws on a
    malformed escape sequence. *)
Variable decodeURIComponent : jsstring -> option jsstring.

(** [extractTCGPlayerProductId]. *)
Definition extractTCGPlayerProductId (tcgplayerUri : option jsstring)
  : completion (option jsstring) :=
  match tcgplayerUri with
  | Some (c :: uri) =>
      match decodeURIComponent (c :: uri) with
      | Some decodedUri => Normal (matchProduct decodedUri)
      | None => Throw
      end
  | _ => Normal None
  end.

(** [fetchTCGPlayerPricing] up to its [await]. [link] is
    [cardVersion?.purchase_uris?.tcgplayer]. An exception before the
    [try] block rejects the promise and leaves the state as it is. *)
Definition fetchTCGPlayerPricing_start (link finish : option jsstring) (st : PState)
  : PState :=
  if negb (truthy link) then
    setPricing (mkPricing JNull false (Some (js "No TCGPlayer link available")) None) st
  else
    match extractTCGPlayerProductId link with
    | Throw => st
    | Normal id =>
        if negb (truthy id) then
          setPricing (mkPricing JNull false (Some (js "Could not extract product ID")) None) st
        else
          setRequests (requests st ++ [(default [] id, finish)])
            (setPricing (mkPricing (lpMarketPrice (pricing st)) true None
                                   (productId (pricing st))) st)
    end.

(** [fetchTCGPlayerPricing] after its [await]. *)
Definition fetchTCGPlayerPricing_resume (id : jsstring) (finish : option jsstring)
    (outcome : Outcome) (st : PState) : PState :=
  match outcome with
  | Data results =>
      let targetCondition := getTCGPlayerCondition finish in
      let condition :=
        results ≫= List.find (fun r => bool_decide (subTypeName r = targetCondition)) in
      let lpPrice :=
        match condition with
        | Some r => orNull (marketPrice r)
        | None => JNull
        end in
      setPricing (mkPricing lpPrice false
                    (if notNull lpPrice then None
                     else Some (js "Market pricing not available"))
                    (Some id)) st
  | Failed message =>
      setPricing (mkPricing JNull false (Some message) (Some id)) st
  end.

(** The condition of the effect: set, collector number, finish and
    resolved card are all there. *)
Definition complete (sel : Selection) : bool :=
  bool_decide (is_Some (selectedSet sel)) && nonEmpty (selectedCollectorNumber sel) &&
  truthy (selectedFinish sel) && bool_decide (is_Some (selectedCardVersion sel)).

(** The effect on the selection. [link] is the purchase link of the
    resolved card. *)
Definition pricingEffect (sel : Selection) (link : option jsstring) (st : PState)
  : PState :=
  if complete sel then fetchTCGPlayerPricing_start link (selectedFinish sel) st
  else setPricing noPricing st.

Fixpoint remove_request (r : jsstring * option jsstring)
    (l : list (jsstring * option jsstring)) : list (jsstring * option jsstring) :=
  match l with
  | [] => []
  | x :: l' => if bool_decide (x = r) then l' else x :: remove_request r l'
  end.

(** What happens to the pricing state: the effect runs on a selection,
    or a request in flight is answered. *)
Inductive PEvent :=
| EvEffect (sel : Selection) (link : option jsstring)
| EvAnswer (id : jsstring) (finish : option jsstring) (outcome : Outcome).

Definition pstep (st : PState) (e : PEvent) : PState :=
  match e with
  | EvEffect sel link => pricingEffect sel link st
  | EvAnswer id finish outcome =>
      if bool_decide ((id, finish) ∈ requests st) then
        fetchTCGPlayerPricing_resume id finish outcome
          (setRequests (remove_request (id, finish) (requests st)) st)
      else st
  end.

Definition prun (evs : list PEvent) (st : PState) : PState := foldl pstep st evs.

End Host.

(** The pricing table of the view. *)
Definition hasData (p : PricingState) : bool :=
  notNull (lpMarketPrice p) && negb (loading p) && negb (truthy (error p)).

Definition pricingGrid (settings : Settings) (p : PricingState) : option (list Row) :=
  if hasData p then calculatePricingGrid settings (lpMarketPrice p) else None.

Definition rowData (settings : Settings) (p : PricingState) (c : jsstring) : option Row :=
  pricingGrid settings p ≫= fun grid => rowFor grid c.

(** What the reachable pricing states have in common: the price is
    [null] or a truthy number, and while loading there is no error and a
    request is in flight. *)
Definition pricing_inv (st : PState) : Prop :=
  (lpMarketPrice (pricing st) = JNull \/ falsy (lpMarketPrice (pricing st)) = false) /\
  (loading (pricing st) = true -> error (pricing st) = None /\ requests st <> []).

(** A selection with everything chosen, and a partner link. *)
Definition completeSelection : Selection :=
  mkSelection sampleCards [] (Some (mkSetInfo (js "m11") (js "Magic 2011") sampleCards []))
    [js "149"] (js "149") (Some cardEnFoil) (Some (js "en")) (Some (js "foil")) [] [].

Definition sampleLink : jsstring :=
  js "https://partner.tcgplayer.com/c/1/2/3?u=https://www.tcgplayer.com/product/36165?page=1".

(** Decoding a link that holds no escape sequence. *)
Definition plainDecode (uri : jsstring) : option jsstring := Some uri.

Definition sampleResults : list PriceResult :=
  [mkResult (js "Normal") (JNum 1.5); mkResult (js "Foil") (JNum 4.25)].

Definition requestedPricing : list PEvent :=
  [EvEffect completeSelection (Some sampleLink)].

Definition answeredPricing : list PEvent :=
  [EvEffect completeSelection (Some sampleLink);
   EvAnswer (js "36165") (Some (js "foil")) (Data (Some sampleResults))].

End Tcg.

(** ** The settings editor

    The [Settings] component: its [settings] and [errors] states, the
    change handlers of its fields, [handleSave] and [handleReset]. *)

Module Editor.
Import Pricing.

(** The [errors] object: a key holds [null] ([None]) or a message. Own
    keys are kept in insertion order, as [Object.values] reads them. *)
Record EState := mkEState {
  settings : Settings;
  errors : list (jsstring * option jsstring)
}.

Definition setSettings (v : Settings) (st : EState) : EState := mkEState v (errors st).

Definition setErrors (v : list (jsstring * option jsstring)) (st : EState) : EState :=
  mkEState (settings st) v.

(** [{...prev, field: v}] for each field of the settings object. *)
Definition withConditionMultipliers (v : gmap jsstring float) (s : Settings) : Settings :=
  mkSettings (basePriceModifier s) v (buyCashMultipliers s) (creditMultiplier s)
             (bulkThreshold s) (highEndThreshold s) (pricingTiers s) (darkMode s).

Definition withBuyCashMultipliers (v : gmap jsstring float) (s : Settings) : Settings :=
  mkSettings (basePriceModifier s) (conditionMultipliers s) v (creditMultiplier s)
             (bulkThreshold s) (highEndThreshold s) (pricingTiers s) (darkMode s).

Definition withCreditMultiplier (v : float) (s : Settings) : Settings :=
  mkSettings (basePriceModifier s) (conditionMultipliers s) (buyCashMultipliers s) v
             (bulkThreshold s) (highEndThreshold s) (pricingTiers s) (darkMode s).

Definition withBasePriceModifier (v : float) (s : Settings) : Settings :=
  mkSettings (Some v) (conditionMultipliers s) (buyCashMultipliers s) (creditMultiplier s)
             (bulkThreshold s) (highEndThreshold s) (pricingTiers s) (darkMode s).

Definition withBulkThreshold (v : float) (s : Settings) : Settings :=
  mkSettings (basePriceModifier s) (conditionMultipliers s) (buyCashMultipliers s)
             (creditMultiplier s) (Some v) (highEndThreshold s) (pricingTiers s) (darkMode s).

Definition withHighEndThreshold (v : float) (s : Settings) : Settings :=
  mkSettings (basePriceModifier s) (conditionMultipliers s) (buyCashMultipliers s)
             (creditMultiplier s) (bulkThreshold s) (Some v) (pricingTiers s) (darkMode s).

Definition withPricingTiers (v : list PricingTier) (s : Settings) : Settings :=
  mkSettings (basePriceModifier s) (conditionMultipliers s) (buyCashMultipliers s)
             (creditMultiplier s) (bulkThreshold s) (highEndThreshold s) v (darkMode s).

Definition withDarkMode (v : bool) (s : Settings) : Settings :=
  mkSettings (basePriceModifier s) (conditionMultipliers s) (buyCashMultipliers s)
             (creditMultiplier s) (bulkThreshold s) (highEndThreshold s) (pricingTiers s) v.

(** An array index in a template literal. *)
Definition decimal (n : nat) : jsstring :=
  js (DecimalString.NilEmpty.string_of_uint (Nat.to_uint n)).

Definition isNaN (x : float) : bool := negb (PrimFloat.eqb x x).

(** The state the component starts in: [currentSettings || { ... }]. *)
Definition einit (currentSettings : option Settings) : EState :=
  mkEState (default editorSettings currentSettings) [].

Section Host.
(** [parseFloat] on the text of an input, or on the text of a number
    handed over instead. *)
Variable parseFloat : jsstring -> float.

(** [validateInput]. *)
Definition validateInput (value : jsstring) (min max : float) : bool :=
  let num := parseFloat value in
  negb (isNaN num) && PrimFloat.leb min num && PrimFloat.leb num max.

(** [handleConditionMultiplierChange]. *)
Definition handleConditionMultiplierChange (condition value : jsstring) (st : EState)
  : EState :=
  if validateInput value 0 2 then
    setErrors (map_set (js "condition_" ++ condition) None (errors st))
      (setSettings
         (withConditionMultipliers
            (<[condition := parseFloat value]> (conditionMultipliers (settings st)))
            (settings st)) st)
  else
    setErrors (map_set (js "condition_" ++ condition)
                 (Some (js "Value must be between 0 and 2")) (errors st)) st.

(** [handleBuyCashMultiplierChange]. *)
Definition handleBuyCashMultiplierChange (condition value : jsstring) (st : EState)
  : EState :=
  if validateInput value 0 1 then
    setErrors (map_set (js "buyCash_" ++ condition) None (errors st))
      (setSettings
         (withBuyCashMultipliers
            (<[condition := parseFloat value]> (buyCashMultipliers (settings st)))
            (settings st)) st)
  else
    setErrors (map_set (js "buyCash_" ++ condition)
                 (Some (js "Value must be between 0 and 1")) (errors st)) st.

(** [handleCreditMultiplierChange]. *)
Definition handleCreditMultiplierChange (value : jsstring) (st : EState) : EState :=
  if validateInput value 0.5 3 then
    setErrors (map_set (js "creditMultiplier") None (errors st))
      (setSettings (withCreditMultiplier (parseFloat value) (settings st)) st)
  else
    setErrors (map_set (js "creditMultiplier")
                 (Some (js "Value must be between 0.5 and 3")) (errors st)) st.

(** [handleDarkModeToggle]. *)
Definition handleDarkModeToggle (checked : bool) (st : EState) : EState :=
  setSettings (withDarkMode checked (settings st)) st.

(** [handleBasePriceModifierChange]. *)
Definition handleBasePriceModifierChange (value : jsstring) (st : EState) : EState :=
  if validateInput value 0.5 3 then
    setErrors (map_set (js "basePriceModifier") None (errors st))
      (setSettings (withBasePriceModifier (parseFloat value) (settings st)) st)
  else
    setErrors (map_set (js "basePriceModifier")
                 (Some (js "Value must be between 0.5 and 3")) (errors st)) st.

(** [handleBulkThresholdChange]. *)
Definition handleBulkThresholdChange (value : jsstring) (st : EState) : EState :=
  if validateInput value 0.01 50 then
    setErrors (map_set (js "bulkThreshold") None (errors st))
      (setSettings (withBulkThreshold (parseFloat value) (settings st)) st)
  else
    setErrors (map_set (js "bulkThreshold")
                 (Some (js "Value must be between 0.01 and 50")) (errors st)) st.

(** [handleHighEndThresholdChange]. *)
Definition handleHighEndThresholdChange (value : jsstring) (st : EState) : EState :=
  if validateInput value 50 10000 then
    setErrors (map_set (js "highEndThreshold") None (errors st))
      (setSettings (withHighEndThreshold (parseFloat value) (settings st)) st)
  else
    setErrors (map_set (js "highEndThreshold")
                 (Some (js "Value must be between 50 and 10000")) (errors st)) st.

(** [handlePricingTierChange]. The settings record holds the empty list
    for an absent [pricingTiers], as in the settings the parent starts
    with; spreading the absent key throws a [TypeError] before anything
    is validated or set. Otherwise the tier objects are written in place
    and the array is copied, which leaves this state with the same
    tiers, one field changed. With a valid value and no tier at
    [index], the assignment throws a [TypeError] before any state is
    set. A field other than the two validated ones writes nothing. *)
Definition handlePricingTierChange (index : nat) (field value : jsstring) (st : EState)
  : EState :=
  let tiers := pricingTiers (settings st) in
  let key := js "tier_" ++ decimal index ++ js "_" ++ field in
  match tiers with
  | [] => st
  | _ :: _ =>
      if bool_decide (field = js "lowerBound") then
        if validateInput value 0.01 1000 then
          match tiers !! index with
          | Some tier =>
              setSettings
                (withPricingTiers
                   (<[index := mkTier (tierName tier) (parseFloat value) (multiplier tier)]>
                      tiers)
                   (settings st))
                (setErrors (map_set key None (errors st)) st)
          | None => st
          end
        else
          setErrors (map_set key (Some (js "Value must be between 0.01 and 1000"))
                       (errors st)) st
      else if bool_decide (field = js "multiplier") then
        if validateInput value 0.01 1 then
          match tiers !! index with
          | Some tier =>
              setSettings
                (withPricingTiers
                   (<[index := mkTier (tierName tier) (lowerBound tier) (parseFloat value)]>
                      tiers)
                   (settings st))
                (setErrors (map_set key None (errors st)) st)
          | None => st
          end
        else
          setErrors (map_set key (Some (js "Value must be between 0.01 and 1"))
                       (errors st)) st
      else
        setSettings (withPricingTiers tiers (settings st)) st
  end.

(** [handleSave]: the settings handed to [onSave], or [None] when it
    returns without calling it. [onSave] is called whether or not the
    write to the local storage succeeds. *)
Definition handleSave (st : EState) : option Settings :=
  let hasErrors := existsb (fun kv => bool_decide (kv.2 <> None)) (errors st) in
  if hasErrors then None else Some (settings st).

(** [handleReset]. *)
Definition handleReset (st : EState) : EState := mkEState editorSettings [].

(** What the user does in the editor. *)
Inductive Edit :=
| EdCondition (condition value : jsstring)
| EdBuyCash (condition value : jsstring)
| EdCredit (value : jsstring)
| EdDark (checked : bool)
| EdBase (value : jsstring)
| EdBulk (value : jsstring)
| EdHighEnd (value : jsstring)
| EdTier (index : nat) (field value : jsstring)
| EdReset.

Definition edit (st : EState) (e : Edit) : EState :=
  match e with
  | EdCondition condition value => handleConditionMultiplierChange condition value st
  | EdBuyCash condition value => handleBuyCashMultiplierChange condition value st
  | EdCredit value => handleCreditMultiplierChange value st
  | EdDark checked => handleDarkModeToggle checked st
  | EdBase value => handleBasePriceModifierChange value st
  | EdBulk value => handleBulkThresholdChange value st
  | EdHighEnd value => handleHighEndThresholdChange value st
  | EdTier index field value => handlePricingTierChange index field value st
  | EdReset => handleReset st
  end.

Definition erun (es : list Edit) (st : EState) : EState := foldl edit st es.

(** The form as it is laid out: for an edit of a validated field, the
    key its message is shown under, the text entered, and the bounds
    the form states for the field. *)
Definition fieldOf (e : Edit) : option (jsstring * jsstring * (float * float)) :=
  match e with
  | EdCondition condition value => Some (js "condition_" ++ condition, value, (0, 2))%float
  | EdBuyCash condition value => Some (js "buyCash_" ++ condition, value, (0, 1))%float
  | EdCredit value => Some (js "creditMultiplier", value, (0.5, 3))%float
  | EdBase value => Some (js "basePriceModifier", value, (0.5, 3))%float
  | EdBulk value => Some (js "bulkThreshold", value, (0.01, 50))%float
  | EdHighEnd value => Some (js "highEndThreshold", value, (50, 10000))%float
  | EdTier index field value =>
      if bool_decide (field = js "lowerBound") then
        Some (js "tier_" ++ decimal index ++ js "_" ++ field, value, (0.01, 1000))%float
      else if bool_decide (field = js "multiplier") then
        Some (js "tier_" ++ decimal index ++ js "_" ++ field, value, (0.01, 1))%float
      else None
  | EdDark _ | EdReset => None
  end.



(** The text entered is not a number within the bounds of its field. *)
Definition rejected (e : Edit) : Prop :=
  exists key value min max,
    fieldOf e = Some (key, value, (min, max)) /\ validateInput value min max = false.

End Host.

(** [min <= x <= max], which no [NaN] satisfies. *)
Definition within (min max x : float) : Prop :=
  PrimFloat.leb min x = true /\ PrimFloat.leb x max = true.

(** Every field is within the bounds the form states for it. *)
Definition inRange (s : Settings) : Prop :=
  map_Forall (fun _ v => within 0 2 v) (conditionMultipliers s) /\
  map_Forall (fun _ v => within 0 1 v) (buyCashMultipliers s) /\
  within 0.5 3 (creditMultiplier s) /\
  (forall v, basePriceModifier s = Some v -> within 0.5 3 v) /\
  (forall v, bulkThreshold s = Some v -> within 0.01 50 v) /\
  (forall v, highEndThreshold s = Some v -> within 50 10000 v) /\
  Forall (fun t => within 0.01 1000 (lowerBound t) /\ within 0.01 1 (multiplier t))
         (pricingTiers s).

(** Some message is shown under [key]. *)
Definition flagged (key : jsstring) (st : EState) : Prop :=
  exists message, (key, Some message) ∈ errors st.

(** A stand-in for [parseFloat] that reads two texts. *)
Definition sampleParse (value : jsstring) : float :=
  if bool_decide (value = js "1.5") then 1.5%float
  else if bool_decide (value = js "7") then 7%float
  else nan.


Definition validEdits : list Edit := [EdCredit (js "1.5"); EdBulk (js "7")].

End Editor.

(** * Theorems *)

Import Pricing Suggest Selector.

(** ** Pricing engine *)

Section PricingFacts.

Example grid_default_100 :
  calculatePricingGrid defaultSettings (JNum 100) =
  Some [ mkRow (js "NM") 100 85 110.5; mkRow (js "EX") 90 69.3 90.09;
         mkRow (js "VG") 75 45 58.5; mkRow (js "G") 50 15 19.5 ]%float.
Proof. vm_compute. reflexivity. Qed.

Lemma grid_some settings b grid :
  calculatePricingGrid settings b = Some grid ->
  falsy b = false /\
  grid = map (fun c =>
    let p := (toNumber b * prop (conditionMultipliers settings) c)%float in
    let cash := (p * prop (buyCashMultipliers settings) c)%float in
    mkRow c p cash (cash * creditMultiplier settings)%float) conditions.
Proof.
  unfold calculatePricingGrid. destruct (falsy b); [discriminate|].
  intros [= <-]. split; reflexivity.
Qed.

Lemma in_conditions c :
  c ∈ conditions -> c = js "NM" \/ c = js "EX" \/ c = js "VG" \/ c = js "G".
Proof.
  unfold conditions. rewrite !elem_of_cons, elem_of_nil. tauto.
Qed.

(** C1: every row of a produced grid is computed as
    price = base * conditionMultipliers[c],
    buyCash = price * buyCashMultipliers[c],
    buyCredit = buyCash * creditMultiplier; and with base price 100,
    condition multipliers NM 1.0 and EX 0.9, buy-cash multipliers NM 0.85
    and EX 0.77 and credit multiplier 1.3 the NM row is (100, 85, 110.5)
    and the EX row is (90, 69.3, 90.09), as binary64 numbers. *)
Theorem pricing_row_formula :
  (forall settings b grid c,
     calculatePricingGrid settings b = Some grid ->
     c ∈ conditions ->
     exists row,
       rowFor grid c = Some row /\ condition row = c /\
       price row = (toNumber b * prop (conditionMultipliers settings) c)%float /\
       buyCash row = (price row * prop (buyCashMultipliers settings) c)%float /\
       buyCredit row = (buyCash row * creditMultiplier settings)%float) /\
  (forall settings,
     conditionMultipliers settings !! js "NM" = Some 1.0%float ->
     conditionMultipliers settings !! js "EX" = Some 0.9%float ->
     buyCashMultipliers settings !! js "NM" = Some 0.85%float ->
     buyCashMultipliers settings !! js "EX" = Some 0.77%float ->
     creditMultiplier settings = 1.3%float ->
     exists grid,
       calculatePricingGrid settings (JNum 100) = Some grid /\
       rowFor grid (js "NM") = Some (mkRow (js "NM") 100 85 110.5)%float /\
       rowFor grid (js "EX") = Some (mkRow (js "EX") 90 69.3 90.09)%float).
Proof.
  split.
  - intros settings b grid c Hgrid Hc.
    apply grid_some in Hgrid as [_ ->].
    apply in_conditions in Hc as [-> | [-> | [-> | ->]]];
      (eexists; split; [reflexivity | repeat split]).
  - intros settings Hnm Hex Hcnm Hcex Hcredit.
    eexists; split; [reflexivity|].
    unfold rowFor, conditions; cbn [map List.find].
    unfold prop. rewrite Hnm, Hex, Hcnm, Hcex, Hcredit.
    split; reflexivity.
Qed.

(** C2, as stated, fails: with the editor's settings (tiers Very Low 3,
    Low 4, Mid 12, Mid-High 25, High 50; high-end threshold 200) and base
    price 12, the NM condition price is 12, exactly the lower bound of
    the Mid tier (multiplier 0.40), yet the buy-cash amount is
    12 * 0.85 and not 12 * 0.40. *)
Lemma tier_override_counterexample :
  exists grid row,
    calculatePricingGrid editorSettings (JNum 12) = Some grid /\
    rowFor grid (js "NM") = Some row /\
    price row = 12%float /\
    spec_inTierRange editorSettings (price row) = true /\
    spec_tierFor (pricingTiers editorSettings) (price row) =
      Some (mkTier (js "Mid") 12.0 0.40)%float /\
    buyCash row = (12 * 0.85)%float /\
    buyCash row <> (price row * 0.40)%float /\
    ~ spec_tierOverride editorSettings row.
Proof.
  eexists; eexists.
  split; [vm_compute; reflexivity|].
  split; [vm_compute; reflexivity|].
  split; [reflexivity|].
  split; [vm_compute; reflexivity|].
  split; [vm_compute; reflexivity|].
  split; [vm_compute; reflexivity|].
  split; [vm_compute; discriminate|].
  intros H.
  specialize (H eq_refl (mkTier (js "Mid") 12.0 0.40)%float eq_refl).
  vm_compute in H. discriminate H.
Qed.

(** C2, amended: the buy-cash amount of every row is the condition price
    times the flat per-condition buy-cash multiplier, and the grid does
    not depend on the tiers, the thresholds or the base-price modifier
    of the settings. *)
Theorem buy_cash_flat_multiplier :
  forall settings b grid row,
    calculatePricingGrid settings b = Some grid ->
    row ∈ grid ->
    buyCash row =
      (price row * prop (buyCashMultipliers settings) (condition row))%float /\
    forall modifier bulk hi tiers,
      calculatePricingGrid (withBuying settings modifier bulk hi tiers) b = Some grid.
Proof.
  intros settings b grid row Hgrid Hrow.
  split.
  - apply grid_some in Hgrid as [_ ->].
    apply list_elem_of_fmap in Hrow as (c & -> & _). reflexivity.
  - intros modifier bulk hi tiers. exact Hgrid.
Qed.

(** C10: for a base price that is null, undefined or zero the result is
    null; a grid is produced only for a number that is not zero, and it
    then has the four rows NM, EX, VG, G in this order. *)
Theorem pricing_grid_null_on_falsy :
  (forall settings,
     calculatePricingGrid settings JNull = None /\
     calculatePricingGrid settings JUndefined = None /\
     calculatePricingGrid settings (JNum 0) = None /\
     calculatePricingGrid settings (JNum (-0)) = None) /\
  (forall settings b grid,
     calculatePricingGrid settings b = Some grid ->
     (exists x, b = JNum x /\ PrimFloat.eqb x 0 = false /\ x <> 0%float) /\
     map condition grid = conditions /\ length grid = 4).
Proof.
  split.
  - intros settings. repeat split; reflexivity.
  - intros settings b grid Hgrid.
    apply grid_some in Hgrid as [Hb ->].
    split; [|split; reflexivity].
    destruct b as [| |x]; try discriminate Hb.
    exists x. cbn in Hb. apply orb_false_iff in Hb as [Hz _].
    repeat split; [exact Hz|].
    intros ->. discriminate Hz.
Qed.

End PricingFacts.

Lemma pricing_row_formula_witness :
  let grid := [ mkRow (js "NM") 12.5 10.625 13.8125;
                mkRow (js "EX") 11.25 8.6625 11.26125;
                mkRow (js "VG") 9.375 5.625 7.3125;
                mkRow (js "G") 6.25 1.875 2.4375 ]%float in
  (calculatePricingGrid defaultSettings (JNum 12.5) = Some grid /\
   js "VG" ∈ conditions /\
   conditionMultipliers defaultSettings !! js "NM" = Some 1.0%float /\
   conditionMultipliers defaultSettings !! js "EX" = Some 0.9%float /\
   buyCashMultipliers defaultSettings !! js "NM" = Some 0.85%float /\
   buyCashMultipliers defaultSettings !! js "EX" = Some 0.77%float /\
   creditMultiplier defaultSettings = 1.3%float) /\
  (exists row,
     rowFor grid (js "VG") = Some row /\
     condition row = js "VG" /\
     price row = (12.5 * prop (conditionMultipliers defaultSettings) (js "VG"))%float /\
     buyCash row = (price row * prop (buyCashMultipliers defaultSettings) (js "VG"))%float /\
     buyCredit row = (buyCash row * creditMultiplier defaultSettings)%float) /\
  (exists grid100,
     calculatePricingGrid defaultSettings (JNum 100) = Some grid100 /\
     rowFor grid100 (js "NM") = Some (mkRow (js "NM") 100 85 110.5)%float /\
     rowFor grid100 (js "EX") = Some (mkRow (js "EX") 90 69.3 90.09)%float).
Proof.
  intros grid.
  assert (Hg : calculatePricingGrid defaultSettings (JNum 12.5) = Some grid)
    by (vm_compute; reflexivity).
  assert (Hc : js "VG" ∈ conditions)
    by (unfold conditions; do 2 apply list_elem_of_further; apply list_elem_of_here).
  assert (H1 : conditionMultipliers defaultSettings !! js "NM" = Some 1.0%float)
    by (vm_compute; reflexivity).
  assert (H2 : conditionMultipliers defaultSettings !! js "EX" = Some 0.9%float)
    by (vm_compute; reflexivity).
  assert (H3 : buyCashMultipliers defaultSettings !! js "NM" = Some 0.85%float)
    by (vm_compute; reflexivity).
  assert (H4 : buyCashMultipliers defaultSettings !! js "EX" = Some 0.77%float)
    by (vm_compute; reflexivity).
  assert (H5 : creditMultiplier defaultSettings = 1.3%float) by reflexivity.
  exact (conj (conj Hg (conj Hc (conj H1 (conj H2 (conj H3 (conj H4 H5))))))
           (conj (proj1 pricing_row_formula defaultSettings (JNum 12.5) grid
                    (js "VG") Hg Hc)
                 (proj2 pricing_row_formula defaultSettings H1 H2 H3 H4 H5))).
Defined.

Lemma buy_cash_flat_multiplier_witness :
  let grid := [ mkRow (js "NM") 12 (12 * 0.85) (12 * 0.85 * 1.3);
                mkRow (js "EX") (12 * 0.9) (12 * 0.9 * 0.77) (12 * 0.9 * 0.77 * 1.3);
                mkRow (js "VG") (12 * 0.75) (12 * 0.75 * 0.60) (12 * 0.75 * 0.60 * 1.3);
                mkRow (js "G") (12 * 0.5) (12 * 0.5 * 0.30) (12 * 0.5 * 0.30 * 1.3) ]%float in
  let row := mkRow (js "NM") 12 (12 * 0.85) (12 * 0.85 * 1.3)%float in
  (calculatePricingGrid editorSettings (JNum 12) = Some grid /\ row ∈ grid) /\
  buyCash row =
    (price row * prop (buyCashMultipliers editorSettings) (condition row))%float /\
  forall modifier bulk hi tiers,
    calculatePricingGrid (withBuying editorSettings modifier bulk hi tiers) (JNum 12)
    = Some grid.
Proof.
  intros grid row.
  assert (Hg : calculatePricingGrid editorSettings (JNum 12) = Some grid)
    by (vm_compute; reflexivity).
  assert (Hr : row ∈ grid) by apply list_elem_of_here.
  split; [split; assumption|].
  exact (buy_cash_flat_multiplier editorSettings (JNum 12) grid row Hg Hr).
Defined.

Lemma pricing_grid_null_on_falsy_witness :
  calculatePricingGrid defaultSettings (JNum 100) =
    Some [ mkRow (js "NM") 100 85 110.5; mkRow (js "EX") 90 69.3 90.09;
           mkRow (js "VG") 75 45 58.5; mkRow (js "G") 50 15 19.5 ]%float /\
  (exists x, JNum 100 = JNum x /\ PrimFloat.eqb x 0 = false /\ x <> 0%float) /\
  map condition
    [ mkRow (js "NM") 100 85 110.5; mkRow (js "EX") 90 69.3 90.09;
      mkRow (js "VG") 75 45 58.5; mkRow (js "G") 50 15 19.5 ]%float = conditions /\
  length
    [ mkRow (js "NM") 100 85 110.5; mkRow (js "EX") 90 69.3 90.09;
      mkRow (js "VG") 75 45 58.5; mkRow (js "G") 50 15 19.5 ]%float = 4.
Proof.
  split; [exact grid_default_100|].
  exact (proj2 pricing_grid_null_on_falsy defaultSettings (JNum 100) _ grid_default_100).
Defined.

(** ** Suggestion cache and scheduler *)

Section JsMapFacts.
Context {V : Type}.
Implicit Types (m : list (jsstring * V)) (k q : jsstring) (v : V).

Lemma map_has_true k m : map_has k m = true <-> k ∈ m.*1.
Proof. unfold map_has. apply bool_decide_eq_true. Qed.

Lemma map_has_false k m : map_has k m = false <-> k ∉ m.*1.
Proof. unfold map_has. apply bool_decide_eq_false. Qed.

Lemma map_delete_keys k m : (map_delete k m).*1 = filter (fun x => x <> k) (m.*1).
Proof.
  unfold map_delete. induction m as [|[k' v'] m IH]; [reflexivity|].
  rewrite fmap_cons, !filter_cons. cbn [fst].
  destruct (decide (k' <> k)); cbn; rewrite IH; reflexivity.
Qed.

Lemma map_delete_absent k m : k ∉ m.*1 -> map_delete k m = m.
Proof.
  unfold map_delete. induction m as [|[k' v'] m IH]; [reflexivity|].
  rewrite fmap_cons, not_elem_of_cons. cbn [fst]. intros [Hne Hnot].
  rewrite filter_cons. cbn [fst].
  destruct (decide (k' <> k)) as [_|Hn]; [|exfalso; apply Hn; congruence].
  rewrite IH by assumption. reflexivity.
Qed.

Lemma map_delete_head k v m : k ∉ m.*1 -> map_delete k ((k, v) :: m) = m.
Proof.
  intros Hnot. unfold map_delete. rewrite filter_cons. cbn [fst].
  destruct (decide (k <> k)) as [Hn|_]; [congruence|].
  apply map_delete_absent. assumption.
Qed.

Lemma map_set_absent k v m : k ∉ m.*1 -> map_set k v m = m ++ [(k, v)].
Proof.
  intros Hnot. unfold map_set.
  apply map_has_false in Hnot. rewrite Hnot. reflexivity.
Qed.

Lemma map_set_keys_present k v m : k ∈ m.*1 -> (map_set k v m).*1 = m.*1.
Proof.
  intros Hin. unfold map_set. apply map_has_true in Hin. rewrite Hin.
  clear Hin. induction m as [|[k' v'] m IH]; [reflexivity|].
  cbn [map]. rewrite !fmap_cons. cbn [fst].
  case_bool_decide; cbn [fst]; f_equal; try congruence; exact IH.
Qed.

Lemma map_set_length k v m : length (map_set k v m) <= S (length m).
Proof.
  unfold map_set. destruct (map_has k m).
  - rewrite length_map. lia.
  - rewrite length_app. cbn. lia.
Qed.

Lemma map_get_app_r k v m : k ∉ m.*1 -> map_get k (m ++ [(k, v)]) = Some v.
Proof.
  unfold map_get. induction m as [|[k' v'] m IH]; cbn [app List.find fst].
  - intros _. rewrite bool_decide_eq_true_2 by reflexivity. reflexivity.
  - rewrite fmap_cons, not_elem_of_cons. cbn [fst]. intros [Hne Hnot].
    rewrite bool_decide_eq_false_2 by congruence. apply IH. assumption.
Qed.

Lemma map_get_app_l k m m' :
  k ∈ m.*1 -> map_get k (m ++ m') = map_get k m.
Proof.
  unfold map_get. induction m as [|[k' v'] m IH]; cbn [app List.find fst].
  - intros Hin. apply elem_of_nil in Hin. contradiction.
  - rewrite fmap_cons, elem_of_cons. cbn [fst]. intros Hin.
    case_bool_decide; [reflexivity|].
    apply IH. destruct Hin; [congruence|assumption].
Qed.

Lemma map_get_app_absent k m m' :
  k ∉ m.*1 -> map_get k (m ++ m') = map_get k m'.
Proof.
  unfold map_get. induction m as [|[k' v'] m IH]; cbn [app List.find fst].
  - reflexivity.
  - rewrite fmap_cons, not_elem_of_cons. cbn [fst]. intros [Hne Hnot].
    rewrite bool_decide_eq_false_2 by congruence. apply IH. assumption.
Qed.

Lemma map_get_absent k m : k ∉ m.*1 -> map_get k m = None.
Proof.
  unfold map_get. induction m as [|[k' v'] m IH]; cbn [List.find fst].
  - reflexivity.
  - rewrite fmap_cons, not_elem_of_cons. cbn [fst]. intros [Hne Hnot].
    rewrite bool_decide_eq_false_2 by congruence. apply IH. assumption.
Qed.

Lemma map_get_elem k v m : NoDup (m.*1) -> (k, v) ∈ m -> map_get k m = Some v.
Proof.
  unfold map_get. induction m as [|[k' v'] m IH]; cbn [List.find fst].
  - intros _ Hin. apply elem_of_nil in Hin. contradiction.
  - rewrite fmap_cons, NoDup_cons, elem_of_cons. cbn [fst].
    intros [Hnot Hnd] [Heq | Hin].
    + injection Heq as -> ->. rewrite bool_decide_eq_true_2 by reflexivity.
      reflexivity.
    + case_bool_decide as Hk.
      * exfalso. apply Hnot. subst k'.
        apply list_elem_of_fmap. exists (k, v). split; [reflexivity|assumption].
      * apply IH; assumption.
Qed.

Lemma map_get_has k m : map_has k m = true -> exists v, map_get k m = Some v.
Proof.
  rewrite map_has_true. unfold map_get.
  induction m as [|[k' v'] m IH]; cbn [List.find fst].
  - intros Hin. apply elem_of_nil in Hin. contradiction.
  - rewrite fmap_cons, elem_of_cons. cbn [fst]. intros Hin.
    case_bool_decide as Hk; [eexists; reflexivity|].
    apply IH. destruct Hin; [congruence|assumption].
Qed.

Lemma map_get_some_key k v m : map_get k m = Some v -> k ∈ m.*1.
Proof.
  intros Hget. destruct (decide (k ∈ m.*1)) as [Hin|Hnot]; [assumption|].
  rewrite (map_get_absent k m Hnot) in Hget. discriminate.
Qed.

Lemma map_get_delete_ne k k' m : k' <> k -> map_get k' (map_delete k m) = map_get k' m.
Proof.
  intros Hne. unfold map_get, map_delete.
  induction m as [|[k1 v1] m IH]; [reflexivity|].
  rewrite filter_cons. cbn [fst List.find].
  destruct (decide (k1 <> k)) as [Hk|Hk]; cbn [List.find fst].
  - case_bool_decide; [reflexivity|exact IH].
  - rewrite bool_decide_eq_false_2; [exact IH|].
    intros ->. apply Hk. assumption.
Qed.

End JsMapFacts.

(** Reading a field after the setters. *)
Ltac fields :=
  cbn [Suggest.searchTerm Suggest.suggestions Suggest.autocompleteLoading
       Suggest.cacheRef Suggest.debounceTimeoutRef Suggest.clock
       Suggest.nextTimer Suggest.timers Suggest.inflight Suggest.fetchCalls
       Suggest.accesses Suggest.setSearchTerm Suggest.setSuggestions
       Suggest.setAutocompleteLoading Suggest.setCache
       Suggest.setDebounceTimeoutRef Suggest.setClock Suggest.setNextTimer
       Suggest.setTimers Suggest.setInflight Suggest.setFetchCalls
       Suggest.setAccesses] in *.

Section CacheFacts.
Implicit Types (st : State) (q k : jsstring).

Example cache_after_three_fetches :
  let st := run (fillEvents 3) init in
  (cacheRef st).*1 = [sampleQuery 0; sampleQuery 1; sampleQuery 2] /\
  recency (accesses st) = [sampleQuery 0; sampleQuery 1; sampleQuery 2] /\
  timers st = [] /\ inflight st = [] /\ clock st = 2250.
Proof. cbv zeta. repeat split; vm_compute; reflexivity. Qed.

Example cache_hit_promotes :
  let st := run (fillEvents 3 ++ [EvInput (sampleQuery 0); EvWait 750]) init in
  (cacheRef st).*1 = [sampleQuery 1; sampleQuery 2; sampleQuery 0] /\
  suggestions st = [sampleQuery 0] /\ inflight st = [].
Proof. cbv zeta. repeat split; vm_compute; reflexivity. Qed.

Lemma touch_NoDup rec q : NoDup rec -> NoDup (touch rec q).
Proof.
  intros Hnd. unfold touch. apply NoDup_app. split; [|split].
  - apply NoDup_filter. assumption.
  - intros x Hx Hq. apply list_elem_of_filter in Hx as [Hne _].
    apply list_elem_of_singleton in Hq. contradiction.
  - apply NoDup_singleton.
Qed.

Lemma recency_snoc log q : recency (log ++ [q]) = touch (recency log) q.
Proof. unfold recency. rewrite foldl_app. reflexivity. Qed.

Lemma recency_NoDup log : NoDup (recency log).
Proof.
  induction log as [|q log IH] using rev_ind.
  - apply NoDup_nil_2.
  - rewrite recency_snoc. apply touch_NoDup. assumption.
Qed.

Lemma filter_ne_absent q (l : list jsstring) :
  q ∉ l -> filter (fun x => x <> q) l = l.
Proof.
  induction l as [|x l IH]; [reflexivity|].
  rewrite not_elem_of_cons. intros [Hne Hnot].
  rewrite filter_cons_True by congruence. rewrite IH by assumption. reflexivity.
Qed.

Lemma cache_inv_NoDup st : cache_inv st -> NoDup (cacheRef st).*1.
Proof.
  intros [_ [older Hrec]].
  pose proof (recency_NoDup (accesses st)) as Hnd.
  rewrite Hrec in Hnd. apply NoDup_app in Hnd as (_ & _ & Hnd). exact Hnd.
Qed.

(** A hit moves the entry to the end. *)
Lemma hit_cache q (cache : list (jsstring * list jsstring)) cached :
  map_set q cached (map_delete q cache) = map_delete q cache ++ [(q, cached)].
Proof.
  apply map_set_absent. rewrite map_delete_keys.
  intros Hin. apply list_elem_of_filter in Hin as [Hne _]. congruence.
Qed.

Lemma start_cache_inv q st : cache_inv st -> cache_inv (fetchAutocomplete_start q st).
Proof.
  intros Hinv. pose proof (cache_inv_NoDup st Hinv) as Hnd.
  destruct Hinv as [Hlen [older Hrec]].
  unfold fetchAutocomplete_start. fields.
  destruct (length q <? 3); [split; [exact Hlen|exists older; exact Hrec]|].
  destruct (map_has q (cacheRef st)) eqn:Hhas;
    [|split; [exact Hlen|exists older; exact Hrec]].
  apply map_has_true in Hhas.
  unfold cache_inv. fields. rewrite hit_cache. split.
  - rewrite length_app. cbn [length]. unfold map_delete.
    assert (length (filter (fun kv : jsstring * list jsstring => kv.1 <> q) (cacheRef st))
            < length (cacheRef st)); [|lia].
    apply list_elem_of_fmap in Hhas as ([k' v'] & Hk & Hin). cbn in Hk. subst k'.
    apply (length_filter_lt _ _ (q, v')); [assumption|]. cbn. congruence.
  - rewrite recency_snoc, Hrec. unfold touch.
    rewrite filter_app, fmap_app, map_delete_keys. cbn.
    exists (filter (fun x => x <> q) older). rewrite <- app_assoc. reflexivity.
Qed.

Lemma evict_cache_inv (cache : list (jsstring * list jsstring)) :
  NoDup (cache.*1) ->
  (if maxCacheSize <=? length cache then
     match map_firstKey cache with
     | Some firstKey => map_delete firstKey cache
     | None => cache
     end
   else cache) =
  (if maxCacheSize <=? length cache then tail cache else cache).
Proof.
  intros Hnd. destruct (maxCacheSize <=? length cache); [|reflexivity].
  destruct cache as [|[k v] cache]; [reflexivity|].
  cbn [map_firstKey fmap list_fmap head fst tail].
  rewrite fmap_cons in Hnd. apply NoDup_cons in Hnd as [Hnot _].
  apply map_delete_head. exact Hnot.
Qed.

Lemma evicted_cache (cache : list (jsstring * list jsstring)) :
  length cache <= maxCacheSize -> NoDup (cache.*1) ->
  let cache1 := if maxCacheSize <=? length cache then tail cache else cache in
  length cache1 < maxCacheSize /\ NoDup (cache1.*1) /\
  exists first, cache.*1 = first ++ cache1.*1.
Proof.
  intros Hlen Hnd cache1. subst cache1.
  destruct (Nat.leb_spec maxCacheSize (length cache)) as [Hfull|Hroom].
  - destruct cache as [|[k v] cache]; [cbn in *; unfold maxCacheSize in *; lia|].
    cbn [tail]. rewrite fmap_cons in Hnd. apply NoDup_cons in Hnd as [_ Hnd].
    cbn [length] in Hlen. split; [lia|]. split; [exact Hnd|].
    exists [k]. reflexivity.
  - split; [exact Hroom|]. split; [exact Hnd|]. exists []. reflexivity.
Qed.

Lemma start_cache_bound q st : cache_bound st -> cache_bound (fetchAutocomplete_start q st).
Proof.
  intros [Hlen Hnd]. unfold fetchAutocomplete_start. fields.
  destruct (length q <? 3); [split; assumption|].
  destruct (map_has q (cacheRef st)) eqn:Hhas; [|split; assumption].
  apply map_has_true in Hhas. unfold cache_bound. fields. rewrite hit_cache. split.
  - rewrite length_app. cbn [length]. unfold map_delete.
    assert (length (filter (fun kv : jsstring * list jsstring => kv.1 <> q) (cacheRef st))
            < length (cacheRef st)); [|lia].
    apply list_elem_of_fmap in Hhas as ([k' v'] & Hk & Hin). cbn in Hk. subst k'.
    apply (length_filter_lt _ _ (q, v')); [assumption|]. cbn. congruence.
  - rewrite fmap_app, map_delete_keys. apply NoDup_app. split; [|split].
    + apply NoDup_filter. exact Hnd.
    + intros x Hx Hq. apply list_elem_of_filter in Hx as [Hne _].
      apply list_elem_of_singleton in Hq. contradiction.
    + apply NoDup_singleton.
Qed.

Lemma resume_cache_bound q outcome st :
  cache_bound st -> cache_bound (fetchAutocomplete_resume q outcome st).
Proof.
  intros [Hlen Hnd]. destruct outcome as [results|]; [|split; assumption].
  unfold fetchAutocomplete_resume. rewrite (evict_cache_inv _ Hnd).
  destruct (evicted_cache (cacheRef st) Hlen Hnd) as (Hlen1 & Hnd1 & _).
  set (cache1 := if maxCacheSize <=? length (cacheRef st)
                 then tail (cacheRef st) else cacheRef st) in *.
  unfold cache_bound. fields.
  destruct (map_has q cache1) eqn:Hhas.
  - apply map_has_true in Hhas. split.
    + pose proof (map_set_keys_present q results cache1 Hhas) as Hk.
      apply (f_equal length) in Hk. rewrite !length_fmap in Hk. lia.
    + rewrite (map_set_keys_present q results cache1 Hhas). exact Hnd1.
  - apply map_has_false in Hhas.
    rewrite (map_set_absent q results cache1 Hhas). split.
    + rewrite length_app. cbn [length]. lia.
    + rewrite fmap_app. apply NoDup_app. split; [exact Hnd1|]. split.
      * intros x Hx Hq. apply list_elem_of_singleton in Hq. cbn in Hq. congruence.
      * apply NoDup_singleton.
Qed.

(** A response for a key that is not cached keeps the keys in recency
    order. *)
Lemma resume_cache_inv q outcome st :
  q ∉ (cacheRef st).*1 ->
  cache_inv st -> cache_inv (fetchAutocomplete_resume q outcome st).
Proof.
  intros Hnew Hinv. pose proof (cache_inv_NoDup st Hinv) as Hnd.
  destruct Hinv as [Hlen [older Hrec]].
  destruct outcome as [results|]; [|split; [exact Hlen|exists older; exact Hrec]].
  unfold fetchAutocomplete_resume. rewrite (evict_cache_inv _ Hnd).
  destruct (evicted_cache (cacheRef st) Hlen Hnd) as (Hlen1 & Hnd1 & first & Hfirst).
  set (cache1 := if maxCacheSize <=? length (cacheRef st)
                 then tail (cacheRef st) else cacheRef st) in *.
  assert (Hnew1 : q ∉ cache1.*1).
  { intros Hin. apply Hnew. rewrite Hfirst. apply elem_of_app. right. exact Hin. }
  unfold cache_inv. fields.
  rewrite (map_set_absent q results cache1 Hnew1). split.
  - rewrite length_app. cbn [length]. lia.
  - rewrite recency_snoc, Hrec, Hfirst, app_assoc. unfold touch.
    rewrite filter_app, fmap_app, (filter_ne_absent q (cache1.*1) Hnew1). cbn.
    exists (filter (fun x => x <> q) (older ++ first)). rewrite <- app_assoc. reflexivity.
Qed.

Lemma foldl_start_inv (P : State -> Prop) :
  (forall q st, P st -> P (fetchAutocomplete_start q st)) ->
  forall ready st, P st ->
    P (foldl (fun s t => fetchAutocomplete_start (timerQuery t) s) st ready).
Proof.
  intros Hstep ready. induction ready as [|t ready IH]; intros st Hst; cbn.
  - exact Hst.
  - apply IH, Hstep, Hst.
Qed.

Lemma clearPending_cache st :
  cacheRef (clearPending st) = cacheRef st /\ accesses (clearPending st) = accesses st.
Proof.
  unfold clearPending. destruct (debounceTimeoutRef st) as [[|id]|]; split; reflexivity.
Qed.

Lemma step_cache_bound st e : cache_bound st -> cache_bound (step st e).
Proof.
  intros Hinv. destruct e as [v| |d|q outcome]; cbn [step].
  - unfold handleAutocompleteChange. destruct (nonEmpty v); [|exact Hinv].
    unfold debouncedAutocomplete, setTimeout, cache_bound. fields.
    destruct (clearPending_cache (setSearchTerm v st)) as [-> _]. exact Hinv.
  - unfold Suggest.handleClear, cache_bound.
    destruct (clearPending_cache (setSuggestions [] (setSearchTerm [] st))) as [-> _].
    exact Hinv.
  - unfold advance, fire. apply foldl_start_inv; [apply start_cache_bound|exact Hinv].
  - unfold respond. case_bool_decide; [|exact Hinv].
    apply resume_cache_bound. exact Hinv.
Qed.

Lemma run_cache_bound evs : cache_bound (run evs init).
Proof.
  unfold run. induction evs as [|e evs IH] using rev_ind.
  - split; [cbn; lia|constructor].
  - rewrite foldl_app. cbn. apply step_cache_bound, IH.
Qed.

Lemma step_cache_inv st e :
  noOverwriteb st [e] = true -> cache_inv st -> cache_inv (step st e).
Proof.
  intros Hno Hinv. destruct e as [v| |d|q outcome]; cbn [step].
  - unfold handleAutocompleteChange. destruct (nonEmpty v); [|exact Hinv].
    unfold debouncedAutocomplete, setTimeout, cache_inv. fields.
    destruct (clearPending_cache (setSearchTerm v st)) as [-> ->]. exact Hinv.
  - unfold Suggest.handleClear, cache_inv.
    destruct (clearPending_cache (setSuggestions [] (setSearchTerm [] st))) as [-> ->].
    exact Hinv.
  - unfold advance, fire. apply foldl_start_inv; [apply start_cache_inv|exact Hinv].
  - unfold respond. case_bool_decide as Hin; [|exact Hinv].
    destruct outcome as [results|].
    + cbn [noOverwriteb] in Hno. rewrite (bool_decide_eq_true_2 _ Hin) in Hno.
      cbn [implb] in Hno. rewrite andb_true_r in Hno.
      apply negb_true_iff, map_has_false in Hno.
      apply resume_cache_inv; [exact Hno|exact Hinv].
    + destruct Hinv as [Hlen Hrec]. split; assumption.
Qed.

Lemma init_cache_inv : cache_inv init.
Proof. split; [cbn; lia|]. exists []. reflexivity. Qed.

Lemma noOverwriteb_cons st e evs :
  noOverwriteb st (e :: evs) = true ->
  noOverwriteb st [e] = true /\ noOverwriteb (step st e) evs = true.
Proof.
  cbn [noOverwriteb]. intros H. apply andb_prop in H as [He Hevs].
  rewrite He. split; [reflexivity|exact Hevs].
Qed.

Lemma run_cache_inv_from evs st :
  noOverwriteb st evs = true -> cache_inv st -> cache_inv (run evs st).
Proof.
  unfold run. revert st. induction evs as [|e evs IH]; intros st Hno Hinv; [exact Hinv|].
  apply noOverwriteb_cons in Hno as [He Hevs]. cbn [foldl].
  apply IH; [exact Hevs|]. apply step_cache_inv; assumption.
Qed.

Lemma run_cache_inv evs : noOverwrite evs -> cache_inv (run evs init).
Proof. intros Hno. apply run_cache_inv_from; [exact Hno|exact init_cache_inv]. Qed.

Lemma map_get_snoc_ne {V} k q (v : V) (m : list (jsstring * V)) :
  k <> q -> map_get k (m ++ [(q, v)]) = map_get k m.
Proof.
  intros Hne. unfold map_get.
  induction m as [|[k' v'] m IH]; cbn [app List.find fst].
  - rewrite bool_decide_eq_false_2 by congruence. reflexivity.
  - case_bool_decide; [reflexivity|exact IH].
Qed.

Lemma map_delete_length {V} q (m : list (jsstring * V)) :
  NoDup (m.*1) -> q ∈ m.*1 -> S (length (map_delete q m)) = length m.
Proof.
  induction m as [|[k v] m IH]; intros Hnd Hin.
  - apply elem_of_nil in Hin. contradiction.
  - rewrite fmap_cons in Hnd, Hin. cbn [fst] in *.
    apply NoDup_cons in Hnd as [Hnot Hnd].
    destruct (decide (k = q)) as [->|Hne].
    + rewrite map_delete_head by assumption. reflexivity.
    + apply elem_of_cons in Hin as [Heq|Hin]; [congruence|].
      unfold map_delete in *. rewrite filter_cons_True by exact Hne.
      cbn [length]. rewrite IH by assumption. reflexivity.
Qed.

(** C3 fails on the code. In [duplicateRun] the query [abc] is fetched
    twice before its first response arrives; the first response caches
    it, 48 further queries fill the cache, and then the second response
    arrives. The cache holds 50 entries, so the eviction removes the
    entry [first], although [abc] is cached and nothing is inserted: 49
    entries are left. The write makes [abc] the most recently accessed
    key, but it keeps its place at the head of the [Map]. One query
    later the cache is full again; of the keys it holds, [card 0] is the
    least recently accessed and [abc] the last but one. The next
    response removes [abc] and keeps [card 0]. *)
Theorem duplicate_response_breaks_lru :
  let st := run duplicateRun init in
  let late := step st (EvResponse lateQuery (Some [js "late"])) in
  let full := run afterDuplicate late in
  let st' := step full (EvResponse (js "new") (Some [js "new"])) in
  let cards := map sampleQuery (seq 0 48) in
  ((cacheRef st).*1 = js "first" :: lateQuery :: cards /\
   length (cacheRef st) = 50 /\ lateQuery ∈ inflight st) /\
  ((cacheRef late).*1 = lateQuery :: cards /\
   length (cacheRef late) = 49 /\
   map_get (js "first") (cacheRef late) = None /\
   map_get lateQuery (cacheRef late) = Some [js "late"] /\
   recency (accesses late) = js "first" :: cards ++ [lateQuery]) /\
  ((cacheRef full).*1 = lateQuery :: cards ++ [js "xyz"] /\
   length (cacheRef full) = 50 /\
   inflight full = [js "new"] /\
   recency (accesses full) = js "first" :: cards ++ [lateQuery; js "xyz"]) /\
  ((cacheRef st').*1 = cards ++ [js "xyz"; js "new"] /\
   map_get lateQuery (cacheRef st') = None /\
   map_get (sampleQuery 0) (cacheRef st') = Some [sampleQuery 0]).
Proof.
  cbv zeta.
  split; [|split; [|split]].
  - split; [vm_compute; reflexivity|]. split; [vm_compute; reflexivity|].
    apply (bool_decide_unpack _). vm_compute. exact I.
  - split; [vm_compute; reflexivity|]. split; [vm_compute; reflexivity|].
    split; [vm_compute; reflexivity|]. split; vm_compute; reflexivity.
  - split; [vm_compute; reflexivity|]. split; [vm_compute; reflexivity|].
    split; vm_compute; reflexivity.
  - split; [vm_compute; reflexivity|]. split; vm_compute; reflexivity.
Qed.

(** X21: in every reachable state the cache holds at most 50 entries,
    under distinct keys. A hit moves the entry to the last position with
    its value unchanged, without touching the other entries or sending a
    request. A response that is ok first drops the first entry when 50
    are held, then writes its own. In a run where no such response
    arrives for a query that is already cached, the keys in [Map] order
    are the most recently accessed queries in the order of their last
    access, so the entry dropped from a full cache is the least recently
    accessed one, and the other 49 and the new one can be retrieved. *)
Theorem cache_is_lru_without_overwrite :
  forall evs,
    let st := run evs init in
    length (cacheRef st) <= 50 /\
    NoDup (cacheRef st).*1 /\
    (forall q cached,
       3 <= length q ->
       map_get q (cacheRef st) = Some cached ->
       let st' := fetchAutocomplete_start q st in
       cacheRef st' = map_delete q (cacheRef st) ++ [(q, cached)] /\
       last (cacheRef st').*1 = Some q /\
       map_get q (cacheRef st') = Some cached /\
       suggestions st' = cached /\
       (forall k, k <> q -> map_get k (cacheRef st') = map_get k (cacheRef st)) /\
       length (cacheRef st') = length (cacheRef st) /\
       inflight st' = inflight st) /\
    (forall q results,
       q ∈ inflight st ->
       let st' := step st (EvResponse q (Some results)) in
       cacheRef st' =
         map_set q results
           (if 50 <=? length (cacheRef st) then tail (cacheRef st) else cacheRef st) /\
       suggestions st' = results /\
       accesses st' = accesses st ++ [q]) /\
    (noOverwrite evs ->
       (exists older, recency (accesses st) = older ++ (cacheRef st).*1) /\
       forall q results k0 v0 rest,
         cacheRef st = (k0, v0) :: rest ->
         length (cacheRef st) = 50 ->
         q ∈ inflight st ->
         q ∉ (cacheRef st).*1 ->
         let st' := step st (EvResponse q (Some results)) in
         cacheRef st' = rest ++ [(q, results)] /\
         map_get k0 (cacheRef st') = None /\
         (forall k v, (k, v) ∈ rest -> map_get k (cacheRef st') = Some v) /\
         map_get q (cacheRef st') = Some results /\
         length (cacheRef st') = 50 /\
         exists older, recency (accesses st) = older ++ k0 :: rest.*1).
Proof.
  intros evs st.
  assert (Hb : cache_bound st) by apply run_cache_bound.
  destruct Hb as [Hlen Hnd].
  assert (Hresp : forall q results,
            q ∈ inflight st ->
            cacheRef (step st (EvResponse q (Some results))) =
              map_set q results
                (if 50 <=? length (cacheRef st) then tail (cacheRef st) else cacheRef st)).
  { intros q results Hfl. cbn [step]. unfold respond.
    rewrite bool_decide_eq_true_2 by exact Hfl.
    unfold fetchAutocomplete_resume. fields.
    rewrite (evict_cache_inv _ Hnd). reflexivity. }
  split; [exact Hlen|]. split; [exact Hnd|]. split; [|split].
  - intros q cached Hq Hget st'.
    pose proof (map_get_some_key _ _ _ Hget) as Hin.
    assert (Hst' : fetchAutocomplete_start q st =
              setSuggestions cached
                (setAccesses (accesses st ++ [q])
                   (setCache (map_delete q (cacheRef st) ++ [(q, cached)])
                      (setFetchCalls (fetchCalls st ++ [q]) st)))).
    { unfold fetchAutocomplete_start. fields.
      rewrite (proj2 (Nat.ltb_ge _ _) Hq).
      rewrite (proj2 (map_has_true _ _) Hin), Hget. cbn [default].
      rewrite hit_cache. reflexivity. }
    subst st'. rewrite Hst'. fields.
    assert (Hgone : q ∉ (map_delete q (cacheRef st)).*1).
    { rewrite map_delete_keys. intros H.
      apply list_elem_of_filter in H as [Hne _]. congruence. }
    split; [reflexivity|]. split; [|split; [|split; [|split; [|split]]]].
    + rewrite fmap_app. apply last_snoc.
    + apply map_get_app_r. exact Hgone.
    + reflexivity.
    + intros k Hne. rewrite map_get_snoc_ne by exact Hne.
      apply map_get_delete_ne. exact Hne.
    + rewrite length_app. cbn [length].
      rewrite <- (map_delete_length q (cacheRef st) Hnd Hin). lia.
    + reflexivity.
  - intros q results Hfl st'. split; [apply Hresp; exact Hfl|].
    subst st'. cbn [step]. unfold respond.
    rewrite bool_decide_eq_true_2 by exact Hfl. split; reflexivity.
  - intros Hno.
    assert (Hinv : cache_inv st) by (apply run_cache_inv; exact Hno).
    destruct Hinv as [_ Hrec]. split; [exact Hrec|].
    intros q results k0 v0 rest Hcache Hfull Hfl Hnew st'.
    assert (Hst' : cacheRef st' = rest ++ [(q, results)]).
    { subst st'. rewrite (Hresp q results Hfl), Hfull. cbn [Nat.leb].
      rewrite Hcache. cbn [tail].
      rewrite Hcache, fmap_cons, not_elem_of_cons in Hnew. destruct Hnew as [_ Hnew].
      apply map_set_absent. exact Hnew. }
    rewrite Hcache, fmap_cons in Hnd, Hnew. cbn [fst] in Hnd, Hnew.
    apply NoDup_cons in Hnd as [Hk0 Hnd'].
    apply not_elem_of_cons in Hnew as [Hq0 Hnew].
    rewrite Hst'. split; [reflexivity|]. split; [|split; [|split; [|split]]].
    + apply map_get_absent. rewrite fmap_app, elem_of_app. cbn.
      rewrite list_elem_of_singleton. intros [H|H]; [contradiction|congruence].
    + intros k v Hin.
      rewrite map_get_app_l.
      * apply map_get_elem; assumption.
      * apply list_elem_of_fmap. exists (k, v). split; [reflexivity|assumption].
    + apply map_get_app_r. exact Hnew.
    + rewrite length_app. rewrite Hcache in Hfull. cbn [length] in *. lia.
    + destruct Hrec as [older Hrec]. exists older.
      rewrite Hrec, Hcache. reflexivity.
Qed.

End CacheFacts.

Lemma cache_is_lru_without_overwrite_witness :
  let evs := fillEvents 50 ++ [EvInput (sampleQuery 50); EvWait 750] in
  let st := run evs init in
  let q := sampleQuery 50 in
  let rest := tail (cacheRef st) in
  (noOverwrite evs /\
   cacheRef st = (sampleQuery 0, [sampleQuery 0]) :: rest /\
   length (cacheRef st) = 50 /\
   q ∈ inflight st /\
   (q ∉ (cacheRef st).*1)) /\
  (exists older, recency (accesses st) = older ++ (cacheRef st).*1) /\
  (let st' := step st (EvResponse q (Some [q])) in
   cacheRef st' = rest ++ [(q, [q])] /\
   map_get (sampleQuery 0) (cacheRef st') = None /\
   (forall k v, (k, v) ∈ rest -> map_get k (cacheRef st') = Some v) /\
   map_get q (cacheRef st') = Some [q] /\
   length (cacheRef st') = 50 /\
   exists older, recency (accesses st) = older ++ sampleQuery 0 :: rest.*1).
Proof.
  intros evs st q rest.
  assert (H0 : noOverwrite evs) by (vm_compute; reflexivity).
  assert (H1 : cacheRef st = (sampleQuery 0, [sampleQuery 0]) :: rest)
    by (vm_compute; reflexivity).
  assert (H2 : length (cacheRef st) = 50) by (vm_compute; reflexivity).
  assert (H3 : q ∈ inflight st) by compute_done.
  assert (H4 : q ∉ (cacheRef st).*1) by compute_done.
  pose proof (cache_is_lru_without_overwrite evs) as (_ & _ & _ & _ & Hlru).
  exact (conj (conj H0 (conj H1 (conj H2 (conj H3 H4))))
           (conj (proj1 (Hlru H0))
                 (proj2 (Hlru H0) q [q] (sampleQuery 0) [sampleQuery 0] rest H1 H2 H3 H4))).
Defined.

Section SchedulerFacts.
Implicit Types (st : State) (q : jsstring).

Lemma start_sched q st :
  timers (fetchAutocomplete_start q st) = timers st /\
  debounceTimeoutRef (fetchAutocomplete_start q st) = debounceTimeoutRef st /\
  nextTimer (fetchAutocomplete_start q st) = nextTimer st /\
  clock (fetchAutocomplete_start q st) = clock st /\
  searchTerm (fetchAutocomplete_start q st) = searchTerm st.
Proof.
  unfold fetchAutocomplete_start. fields.
  destruct (length q <? 3); [repeat split|].
  destruct (map_has q (cacheRef st)); repeat split.
Qed.

Lemma start_fetchCalls q st :
  fetchCalls (fetchAutocomplete_start q st) = fetchCalls st ++ [q].
Proof.
  unfold fetchAutocomplete_start. fields.
  destruct (length q <? 3); [reflexivity|].
  destruct (map_has q (cacheRef st)); reflexivity.
Qed.

Lemma clearPending_timers st : sched_inv st -> timers (clearPending st) = [].
Proof.
  intros [_ [Hnil | (t & Ht & Href & Hpos)]]; unfold clearPending.
  - destruct (debounceTimeoutRef st) as [[|id]|]; try assumption.
    unfold clearTimeout. fields. rewrite Hnil. reflexivity.
  - rewrite Href. destruct (timerId t) as [|id] eqn:Hid; [lia|].
    unfold clearTimeout. fields. rewrite Ht.
    rewrite filter_cons_False by (rewrite Hid; intros H; apply H; reflexivity).
    reflexivity.
Qed.

Lemma clearPending_fields st :
  clock (clearPending st) = clock st /\
  nextTimer (clearPending st) = nextTimer st /\
  fetchCalls (clearPending st) = fetchCalls st /\
  inflight (clearPending st) = inflight st /\
  suggestions (clearPending st) = suggestions st /\
  searchTerm (clearPending st) = searchTerm st.
Proof.
  unfold clearPending. destruct (debounceTimeoutRef st) as [[|id]|]; repeat split.
Qed.

Lemma debounced_timers q st :
  sched_inv st ->
  timers (debouncedAutocomplete q st) =
    [mkTimer (nextTimer st) (clock st + debounceDelay) q] /\
  debounceTimeoutRef (debouncedAutocomplete q st) = Some (nextTimer st) /\
  nextTimer (debouncedAutocomplete q st) = S (nextTimer st) /\
  clock (debouncedAutocomplete q st) = clock st.
Proof.
  intros Hinv. unfold debouncedAutocomplete, setTimeout. fields.
  rewrite (clearPending_timers st Hinv).
  destruct (clearPending_fields st) as (-> & -> & _). repeat split.
Qed.

Lemma debounced_fields q st :
  fetchCalls (debouncedAutocomplete q st) = fetchCalls st /\
  inflight (debouncedAutocomplete q st) = inflight st /\
  suggestions (debouncedAutocomplete q st) = suggestions st /\
  cacheRef (debouncedAutocomplete q st) = cacheRef st /\
  searchTerm (debouncedAutocomplete q st) = searchTerm st.
Proof.
  unfold debouncedAutocomplete, setTimeout. fields.
  destruct (clearPending_fields st) as (_ & _ & -> & -> & -> & ->).
  destruct (clearPending_cache st) as [-> _]. repeat split.
Qed.

Lemma debounced_pending q st :
  sched_inv st -> pending_one (debouncedAutocomplete q st) q.
Proof.
  intros Hinv. pose proof Hinv as [Hpos _].
  destruct (debounced_timers q st Hinv) as (Ht & Href & Hnext & Hclock).
  exists (nextTimer st). rewrite Ht, Href, Hnext, Hclock.
  repeat split; [assumption|lia].
Qed.

Lemma pending_sched_inv st q : pending_one st q -> sched_inv st.
Proof.
  intros (id & Hid & Hpos & Ht & Href). split; [assumption|].
  right. eexists. split; [exact Ht|]. split; assumption.
Qed.

Lemma advance_short st q d :
  pending_one st q -> d < debounceDelay ->
  advance d st = setTimers (timers st) (setClock (clock st + d) st).
Proof.
  intros (id & _ & _ & Ht & _) Hd. unfold advance, fire. fields. rewrite Ht.
  rewrite (filter_cons_False (fun t => due t <= clock st + d)) by (cbn [due]; lia).
  rewrite (filter_cons_True (fun t => ~ due t <= clock st + d)) by (cbn [due]; lia).
  reflexivity.
Qed.

Lemma advance_long st q d :
  pending_one st q -> debounceDelay <= d ->
  advance d st = fetchAutocomplete_start q (setTimers [] (setClock (clock st + d) st)).
Proof.
  intros (id & _ & _ & Ht & _) Hd. unfold advance, fire. fields. rewrite Ht.
  rewrite (filter_cons_True (fun t => due t <= clock st + d)) by (cbn [due]; lia).
  rewrite (filter_cons_False (fun t => ~ due t <= clock st + d)) by (cbn [due]; lia).
  reflexivity.
Qed.

Lemma advance_sched_inv d st : sched_inv st -> sched_inv (advance d st).
Proof.
  intros [Hpos Hcase]. unfold advance, fire. fields.
  set (keep := filter (fun t => ~ due t <= clock st + d) (timers st)).
  set (st1 := setTimers keep (setClock (clock st + d) st)).
  assert (H1 : sched_inv st1).
  { split; [exact Hpos|]. subst st1 keep. fields.
    destruct Hcase as [Hnil | (t & Ht & Href & Hid)].
    - left. rewrite Hnil. reflexivity.
    - rewrite Ht. destruct (decide (~ due t <= clock st + d)).
      + right. exists t. rewrite filter_cons_True by assumption.
        repeat split; assumption.
      + left. rewrite filter_cons_False by assumption. reflexivity. }
  apply foldl_start_inv; [|exact H1].
  intros q s Hs. unfold sched_inv.
  destruct (start_sched q s) as (-> & -> & -> & _). exact Hs.
Qed.

Lemma resume_sched q outcome st :
  timers (fetchAutocomplete_resume q outcome st) = timers st /\
  debounceTimeoutRef (fetchAutocomplete_resume q outcome st) = debounceTimeoutRef st /\
  nextTimer (fetchAutocomplete_resume q outcome st) = nextTimer st /\
  searchTerm (fetchAutocomplete_resume q outcome st) = searchTerm st.
Proof.
  unfold fetchAutocomplete_resume. destruct outcome as [results|]; [|repeat split].
  fields. repeat split.
Qed.

Lemma step_sched_inv st e : sched_inv st -> sched_inv (step st e).
Proof.
  intros Hinv. destruct e as [v| |d|q outcome]; cbn [step].
  - unfold handleAutocompleteChange. destruct (nonEmpty v); [|exact Hinv].
    eapply pending_sched_inv, debounced_pending. exact Hinv.
  - unfold Suggest.handleClear.
    assert (H1 : sched_inv (setSuggestions [] (setSearchTerm [] st))) by exact Hinv.
    split.
    + destruct (clearPending_fields (setSuggestions [] (setSearchTerm [] st)))
        as (_ & -> & _). apply H1.
    + left. apply clearPending_timers. exact H1.
  - apply advance_sched_inv. exact Hinv.
  - unfold respond. case_bool_decide; [|exact Hinv].
    unfold sched_inv.
    destruct (resume_sched q outcome (setInflight (remove_first q (inflight st)) st))
      as (-> & -> & -> & _).
    exact Hinv.
Qed.

Lemma run_sched_inv evs : sched_inv (run evs init).
Proof.
  unfold run. induction evs as [|e evs IH] using rev_ind.
  - split; [cbn; lia|left; reflexivity].
  - rewrite foldl_app. cbn. apply step_sched_inv, IH.
Qed.

Lemma lastQuery_snoc q0 calls d q : lastQuery q0 (calls ++ [(d, q)]) = q.
Proof. unfold lastQuery. rewrite fmap_app. cbn. rewrite last_snoc. reflexivity. Qed.

(** A burst of calls of any function that schedules like
    [debouncedAutocomplete] on the queries it accepts. *)
Lemma calls_pending (call : jsstring -> State -> State) (ok : jsstring -> Prop) :
  (forall q s, ok q -> sched_inv s ->
     pending_one (call q s) q /\
     fetchCalls (call q s) = fetchCalls s /\ inflight (call q s) = inflight s) ->
  forall q0 calls st,
    sched_inv st -> ok q0 ->
    Forall (fun c => c.1 < debounceDelay /\ ok c.2) calls ->
    let st' := foldl (fun s c => call c.2 (advance c.1 s)) (call q0 st) calls in
    pending_one st' (lastQuery q0 calls) /\
    fetchCalls st' = fetchCalls st /\ inflight st' = inflight st.
Proof.
  intros Hcall q0 calls st Hinv Hq0.
  induction calls as [|[d q] calls IH] using rev_ind; intros Hgap.
  - change (lastQuery q0 []) with q0. cbn [foldl]. apply Hcall; assumption.
  - apply Forall_app in Hgap as [Hgap Hd].
    rewrite Forall_singleton in Hd. cbn [fst snd] in Hd. destruct Hd as [Hd Hq].
    destruct (IH Hgap) as (Hpend & Hcalls & Hfl).
    cbv zeta. rewrite foldl_app. cbn [foldl fst snd].
    rewrite lastQuery_snoc.
    set (s := foldl _ _ calls) in *.
    rewrite (advance_short s _ d Hpend Hd).
    destruct (Hcall q (setTimers (timers s) (setClock (clock s + d) s)) Hq)
      as (Hp & Hc & Hf).
    { apply pending_sched_inv in Hpend. exact Hpend. }
    split; [exact Hp|]. rewrite Hc, Hf. split; assumption.
Qed.

Lemma burst_pending q0 calls st :
  sched_inv st ->
  Forall (fun c => c.1 < debounceDelay) calls ->
  pending_one (burst q0 calls st) (lastQuery q0 calls) /\
  fetchCalls (burst q0 calls st) = fetchCalls st /\
  inflight (burst q0 calls st) = inflight st.
Proof.
  intros Hinv Hgap.
  apply (calls_pending debouncedAutocomplete (fun _ => True)); try done.
  - intros q s _ Hs. destruct (debounced_fields q s) as (-> & -> & _).
    split; [apply debounced_pending; exact Hs|split; reflexivity].
  - eapply Forall_impl; [exact Hgap|]. cbn. intros c Hc. split; [exact Hc|exact I].
Qed.

Lemma inputBurst_pending q0 calls st :
  sched_inv st -> q0 <> [] ->
  Forall (fun c => c.1 < debounceDelay /\ c.2 <> []) calls ->
  pending_one (inputBurst q0 calls st) (lastQuery q0 calls) /\
  fetchCalls (inputBurst q0 calls st) = fetchCalls st /\
  inflight (inputBurst q0 calls st) = inflight st.
Proof.
  intros Hinv Hq0 Hgap.
  apply (calls_pending handleAutocompleteChange (fun q => q <> [])); try done.
  intros q s Hq Hs. unfold handleAutocompleteChange.
  destruct q as [|c q]; [contradiction|]. cbn [nonEmpty].
  destruct (debounced_fields (c :: q) (setSearchTerm (c :: q) s)) as (-> & -> & _).
  split; [apply debounced_pending; exact Hs|split; reflexivity].
Qed.

(** C4: after a burst of [debouncedAutocomplete] calls, each less than
    750 time units after the one before, exactly one fetch is scheduled,
    for the last query, a full quiet period after the last call; no
    fetch started during the burst; a further call would replace the
    scheduled fetch by its own; and when time passes, nothing is fetched
    before 750 units and then the last query alone is. The same holds
    when the burst is typed into the input and every value is non-empty,
    which is when [handleAutocompleteChange] calls
    [debouncedAutocomplete]. *)
Theorem debounce_burst_single_fetch :
  forall evs q0 calls,
    Forall (fun c => c.1 < 750) calls ->
    let st := run evs init in
    let st' := burst q0 calls st in
    let q := lastQuery q0 calls in
    (exists id, timers st' = [mkTimer id (clock st' + 750) q] /\
                debounceTimeoutRef st' = Some id) /\
    fetchCalls st' = fetchCalls st /\
    inflight st' = inflight st /\
    (forall q', timers (debouncedAutocomplete q' st') =
                  [mkTimer (nextTimer st') (clock st' + 750) q']) /\
    (forall d, d < 750 -> fetchCalls (advance d st') = fetchCalls st) /\
    (forall d, 750 <= d ->
       fetchCalls (advance d st') = fetchCalls st ++ [q] /\
       timers (advance d st') = []) /\
    (q0 <> [] -> Forall (fun c => c.2 <> []) calls ->
     let st'' := inputBurst q0 calls st in
     (exists id, timers st'' = [mkTimer id (clock st'' + 750) q] /\
                 debounceTimeoutRef st'' = Some id) /\
     fetchCalls st'' = fetchCalls st /\
     (forall d, d < 750 -> fetchCalls (advance d st'') = fetchCalls st) /\
     (forall d, 750 <= d -> fetchCalls (advance d st'') = fetchCalls st ++ [q])).
Proof.
  intros evs q0 calls Hgap st st' q.
  destruct (burst_pending q0 calls st (run_sched_inv evs) Hgap)
    as (Hpend & Hcalls & Hfl).
  fold st' in Hpend, Hcalls, Hfl. fold q in Hpend.
  split; [|split; [exact Hcalls|split; [exact Hfl|split; [|split; [|split]]]]].
  - destruct Hpend as (id & _ & _ & Ht & Href). exists id. split; assumption.
  - intros q'. apply debounced_timers. eapply pending_sched_inv. exact Hpend.
  - intros d Hd. rewrite (advance_short st' q d Hpend Hd). exact Hcalls.
  - intros d Hd. rewrite (advance_long st' q d Hpend Hd).
    rewrite start_fetchCalls.
    destruct (start_sched q (setTimers [] (setClock (clock st' + d) st')))
      as (-> & _).
    fields. rewrite Hcalls. split; reflexivity.
  - intros Hq0 Hne st''.
    assert (Hboth : Forall (fun c => c.1 < debounceDelay /\ c.2 <> []) calls).
    { rewrite Forall_forall in Hgap, Hne. apply Forall_forall. intros c Hc.
      split; [apply Hgap|apply Hne]; exact Hc. }
    destruct (inputBurst_pending q0 calls st (run_sched_inv evs) Hq0 Hboth)
      as (Hpend' & Hcalls' & _).
    fold st'' in Hpend', Hcalls'. fold q in Hpend'.
    split; [|split; [exact Hcalls'|split]].
    + destruct Hpend' as (id & _ & _ & Ht & Href). exists id. split; assumption.
    + intros d Hd. rewrite (advance_short st'' q d Hpend' Hd). exact Hcalls'.
    + intros d Hd. rewrite (advance_long st'' q d Hpend' Hd).
      rewrite start_fetchCalls. fields. rewrite Hcalls'. reflexivity.
Qed.

End SchedulerFacts.

Lemma debounce_burst_single_fetch_witness :
  (Forall (fun c => c.1 < 750) typingBurst /\
   take 1 typedQuery <> [] /\
   Forall (fun c => c.2 <> []) typingBurst) /\
  let q := js "lightning " in
  (let st' := burst (take 1 typedQuery) typingBurst init in
   (exists id, timers st' = [mkTimer id (clock st' + 750) q] /\
               debounceTimeoutRef st' = Some id) /\
   fetchCalls st' = [] /\
   (forall d, d < 750 -> fetchCalls (advance d st') = []) /\
   (forall d, 750 <= d ->
      fetchCalls (advance d st') = [] ++ [q] /\
      timers (advance d st') = [])) /\
  (let st'' := inputBurst (take 1 typedQuery) typingBurst init in
   (exists id, timers st'' = [mkTimer id (clock st'' + 750) q] /\
               debounceTimeoutRef st'' = Some id) /\
   fetchCalls st'' = [] /\
   (forall d, d < 750 -> fetchCalls (advance d st'') = []) /\
   (forall d, 750 <= d -> fetchCalls (advance d st'') = [] ++ [q])).
Proof.
  assert (Hgap : Forall (fun c => c.1 < 750) typingBurst) by compute_done.
  assert (Hq0 : take 1 typedQuery <> []) by discriminate.
  assert (Hne : Forall (fun c => c.2 <> []) typingBurst) by compute_done.
  pose proof (debounce_burst_single_fetch [] (take 1 typedQuery) typingBurst Hgap)
    as (Ha & Hb & _ & _ & Hc & Hd & He).
  exact (conj (conj Hgap (conj Hq0 Hne))
           (conj (conj Ha (conj Hb (conj Hc Hd))) (He Hq0 Hne))).
Defined.

Section ResponseFacts.
Implicit Types (st : State) (q : jsstring).

Lemma map_get_map_set {V} q (v : V) (m : list (jsstring * V)) :
  map_get q (map_set q v m) = Some v.
Proof.
  unfold map_set. destruct (map_has q m) eqn:Hhas.
  - apply map_has_true in Hhas. unfold map_get.
    induction m as [|[k' v'] m IH].
    + apply elem_of_nil in Hhas. contradiction.
    + rewrite fmap_cons, elem_of_cons in Hhas. cbn [fst] in Hhas.
      cbn [map fst]. destruct (decide (k' = q)) as [->|Hne].
      * rewrite bool_decide_eq_true_2 by reflexivity. cbn [List.find fst].
        rewrite bool_decide_eq_true_2 by reflexivity. reflexivity.
      * rewrite bool_decide_eq_false_2 by exact Hne. cbn [List.find fst].
        rewrite bool_decide_eq_false_2 by exact Hne.
        apply IH. destruct Hhas; [congruence|assumption].
  - apply map_get_app_r. apply map_has_false. exact Hhas.
Qed.

(** C5, as stated, fails: the fetch for "abc" is still in flight when the
    input has become "abcd" and the response for "abcd" has been shown;
    the late response for "abc" then replaces the displayed list. *)
Lemma stale_response_counterexample :
  let st := run [ EvInput (js "abc"); EvWait 750;
                  EvInput (js "abcd"); EvWait 750;
                  EvResponse (js "abcd") (Some [js "abcd card"]) ] init in
  let st' := step st (EvResponse (js "abc") (Some [js "abc card"])) in
  searchTerm st = js "abcd" /\
  suggestions st = [js "abcd card"] /\
  js "abc" ∈ inflight st /\
  js "abc" <> searchTerm st /\
  searchTerm st' = js "abcd" /\
  suggestions st' = [js "abc card"] /\
  suggestions st' <> suggestions st /\
  ~ spec_staleDiscarded.
Proof.
  cbv zeta. split; [vm_compute; reflexivity|]. split; [vm_compute; reflexivity|].
  split; [compute_done|]. split; [compute_done|].
  split; [vm_compute; reflexivity|]. split; [vm_compute; reflexivity|].
  split; [vm_compute; discriminate|].
  intros Hspec.
  specialize (Hspec [ EvInput (js "abc"); EvWait 750;
                      EvInput (js "abcd"); EvWait 750;
                      EvResponse (js "abcd") (Some [js "abcd card"]) ]
                    (js "abc") (Some [js "abc card"])).
  cbv zeta in Hspec.
  assert (H1 : js "abc" ∈ inflight (run [ EvInput (js "abc"); EvWait 750;
                      EvInput (js "abcd"); EvWait 750;
                      EvResponse (js "abcd") (Some [js "abcd card"]) ] init))
    by compute_done.
  assert (H2 : js "abc" <> searchTerm (run [ EvInput (js "abc"); EvWait 750;
                      EvInput (js "abcd"); EvWait 750;
                      EvResponse (js "abcd") (Some [js "abcd card"]) ] init))
    by compute_done.
  specialize (Hspec H1 H2). vm_compute in Hspec. discriminate Hspec.
Qed.

(** C5, amended: overlapping fetches are not coordinated. A response for
    any request in flight replaces the displayed suggestions by its
    results (by the empty list when the request failed), whatever the
    current input is; a successful response is cached under its own
    query, a failed one leaves the cache as it is; the input is not
    touched. *)
Theorem response_overwrites_suggestions :
  forall evs q outcome,
    let st := run evs init in
    q ∈ inflight st ->
    let st' := step st (EvResponse q outcome) in
    suggestions st' = default [] outcome /\
    searchTerm st' = searchTerm st /\
    autocompleteLoading st' = false /\
    (forall results, outcome = Some results ->
       map_get q (cacheRef st') = Some results) /\
    (outcome = None -> cacheRef st' = cacheRef st).
Proof.
  intros evs q outcome st Hfl st'. subst st'. cbn [step]. unfold respond.
  rewrite bool_decide_eq_true_2 by exact Hfl.
  destruct outcome as [results|]; unfold fetchAutocomplete_resume; fields.
  - split; [reflexivity|]. split; [|split; [reflexivity|split]].
    + reflexivity.
    + intros results' [= <-]. apply map_get_map_set.
    + discriminate.
  - repeat split. discriminate.
Qed.

(** C9, as stated, fails: after a completed fetch for "bol", the
    two-character input "bo" leaves the displayed suggestions in place
    and schedules a timer of its own. *)
Lemma short_query_counterexample :
  let st := run (fetchCycle (js "bol") [js "Bolt"]) init in
  let st' := step st (EvInput (js "bo")) in
  length (js "bo") = 2 /\
  suggestions st = [js "Bolt"] /\
  suggestions st' = [js "Bolt"] /\
  timers st' = [mkTimer 2 1500 (js "bo")] /\
  ~ spec_shortQueryBypass.
Proof.
  cbv zeta. repeat (split; [vm_compute; reflexivity|]).
  intros Hspec.
  specialize (Hspec (fetchCycle (js "bol") [js "Bolt"]) (js "bo")).
  cbv zeta in Hspec.
  assert (H : length (js "bo") < 3) by (vm_compute; lia).
  destruct (Hspec H) as [Hs _]. vm_compute in Hs. discriminate Hs.
Qed.

(** C9, amended: a query shorter than 3 characters never reaches the
    cache or the network. When [fetchAutocomplete] is called with it, the
    suggestions become empty and neither the cache nor the requests in
    flight change. A non-empty one goes through the scheduler like any
    input: it cancels the pending fetch and schedules its own, and when
    that fires after the quiet period the suggestions become empty with
    the cache and the requests in flight unchanged. The empty input
    empties the suggestions at once. *)
Theorem short_query_never_fetched :
  forall evs q,
    length q < 3 ->
    let st := run evs init in
    (let st' := fetchAutocomplete_start q st in
     suggestions st' = [] /\ cacheRef st' = cacheRef st /\
     inflight st' = inflight st /\ accesses st' = accesses st) /\
    (q <> [] ->
     let st1 := step st (EvInput q) in
     timers st1 = [mkTimer (nextTimer st) (clock st + 750) q] /\
     suggestions st1 = suggestions st /\
     cacheRef st1 = cacheRef st /\ inflight st1 = inflight st /\
     forall d, 750 <= d ->
       let st2 := step st1 (EvWait d) in
       suggestions st2 = [] /\ timers st2 = [] /\
       cacheRef st2 = cacheRef st /\ inflight st2 = inflight st) /\
    (q = [] ->
     let st1 := step st (EvInput q) in
     suggestions st1 = [] /\ cacheRef st1 = cacheRef st /\
     inflight st1 = inflight st).
Proof.
  intros evs q Hlen st.
  assert (Hshort : forall s, fetchAutocomplete_start q s =
                     setSuggestions [] (setFetchCalls (fetchCalls s ++ [q]) s)).
  { intros s. unfold fetchAutocomplete_start.
    rewrite (proj2 (Nat.ltb_lt _ _) Hlen). reflexivity. }
  split; [|split].
  - cbv zeta. rewrite Hshort. fields. repeat split.
  - intros Hne st1.
    assert (Hst1 : st1 = debouncedAutocomplete q (setSearchTerm q st)).
    { subst st1. cbn [step]. unfold handleAutocompleteChange.
      destruct q; [contradiction|]. reflexivity. }
    assert (Hinv : sched_inv (setSearchTerm q st)) by exact (run_sched_inv evs).
    pose proof (debounced_pending q _ Hinv) as Hpend. rewrite <- Hst1 in Hpend.
    destruct (debounced_timers q _ Hinv) as (Ht & _).
    destruct (debounced_fields q (setSearchTerm q st)) as (_ & Hfl & Hsug & Hcache & _).
    rewrite <- Hst1 in Ht, Hfl, Hsug, Hcache. fields.
    split; [exact Ht|]. split; [exact Hsug|]. split; [exact Hcache|].
    split; [exact Hfl|].
    intros d Hd. cbn [step].
    rewrite (advance_long st1 q d Hpend Hd), Hshort. fields.
    repeat split; assumption.
  - intros -> st1. subst st1. cbn [step]. unfold handleAutocompleteChange.
    cbn [nonEmpty]. fields. repeat split.
Qed.

End ResponseFacts.

Lemma response_overwrites_suggestions_witness :
  let st := run [ EvInput (js "abc"); EvWait 750;
                  EvInput (js "abcd"); EvWait 750;
                  EvResponse (js "abcd") (Some [js "abcd card"]) ] init in
  js "abc" ∈ inflight st /\
  let st' := step st (EvResponse (js "abc") (Some [js "abc card"])) in
  suggestions st' = default [] (Some [js "abc card"]) /\
  searchTerm st' = searchTerm st /\
  autocompleteLoading st' = false /\
  (forall results, Some [js "abc card"] = Some results ->
     map_get (js "abc") (cacheRef st') = Some results) /\
  (Some [js "abc card"] = None -> cacheRef st' = cacheRef st).
Proof.
  intros st.
  assert (H : js "abc" ∈ inflight st) by compute_done.
  exact (conj H (response_overwrites_suggestions _ (js "abc") (Some [js "abc card"]) H)).
Defined.

Lemma short_query_never_fetched_witness :
  let q := js "bo" in
  let evs := fetchCycle (js "bol") [js "Bolt"] in
  let st := run evs init in
  (length q < 3 /\ q <> [] /\ length (@nil N) < 3) /\
  (let st' := fetchAutocomplete_start q st in
   suggestions st' = [] /\ cacheRef st' = cacheRef st /\
   inflight st' = inflight st /\ accesses st' = accesses st) /\
  (let st1 := step st (EvInput q) in
   timers st1 = [mkTimer (nextTimer st) (clock st + 750) q] /\
   suggestions st1 = suggestions st /\
   cacheRef st1 = cacheRef st /\ inflight st1 = inflight st /\
   forall d, 750 <= d ->
     let st2 := step st1 (EvWait d) in
     suggestions st2 = [] /\ timers st2 = [] /\
     cacheRef st2 = cacheRef st /\ inflight st2 = inflight st) /\
  (let st1 := step st (EvInput []) in
   suggestions st1 = [] /\ cacheRef st1 = cacheRef st /\
   inflight st1 = inflight st).
Proof.
  intros q evs st.
  assert (H1 : length q < 3) by (vm_compute; lia).
  assert (H2 : q <> []) by discriminate.
  assert (H3 : length (@nil N) < 3) by (cbn; lia).
  pose proof (short_query_never_fetched evs q H1) as (Ha & Hb & _).
  pose proof (short_query_never_fetched evs [] H3) as (_ & _ & Hc).
  exact (conj (conj H1 (conj H2 H3)) (conj Ha (conj (Hb H2) (Hc eq_refl)))).
Defined.

(** ** Printing index and variant selector *)

(** Reading a field of the selection after the setters. *)
Ltac sel_fields :=
  cbn [searchResults uniqueSets selectedSet availableCollectorNumbers
       selectedCollectorNumber selectedCardVersion selectedLanguage
       selectedFinish availableLanguages availableFinishes
       setSearchResults setUniqueSets setSelectedSet
       setAvailableCollectorNumbers setSelectedCollectorNumber
       setSelectedCardVersion setSelectedLanguage setSelectedFinish
       setAvailableLanguages setAvailableFinishes resetSelections] in *.

Section SortFacts.
Context {A : Type} (cmp : A -> A -> Z).

Lemma insertBy_perm x l : insertBy cmp x l ≡ₚ x :: l.
Proof.
  induction l as [|y l IH]; cbn [insertBy]; [reflexivity|].
  destruct (cmp x y <=? 0)%Z; [reflexivity|].
  rewrite IH. apply Permutation_swap.
Qed.

Lemma sortBy_perm l : sortBy cmp l ≡ₚ l.
Proof.
  induction l as [|x l IH]; [reflexivity|].
  cbn [sortBy foldr]. fold (sortBy cmp l).
  rewrite insertBy_perm, IH. reflexivity.
Qed.

Lemma sortBy_elem_of x l : x ∈ sortBy cmp l <-> x ∈ l.
Proof. rewrite sortBy_perm. reflexivity. Qed.

Variable key : A -> Z.

Lemma insertBy_sorted x l :
  (forall y, y ∈ l -> cmp x y = (key x - key y)%Z) ->
  StronglySorted (fun a b => (key a <= key b)%Z) l ->
  StronglySorted (fun a b => (key a <= key b)%Z) (insertBy cmp x l).
Proof.
  induction l as [|y l IH]; intros Hcmp Hs; cbn [insertBy].
  - repeat constructor.
  - apply StronglySorted_cons in Hs as [Hy Hs].
    destruct (Z.leb_spec (cmp x y) 0) as [Hle|Hgt].
    + rewrite (Hcmp y) in Hle by apply list_elem_of_here.
      apply StronglySorted_cons. split.
      * constructor; [lia|].
        eapply Forall_impl; [exact Hy|]. cbn. intros z Hz. lia.
      * apply StronglySorted_cons. split; assumption.
    + rewrite (Hcmp y) in Hgt by apply list_elem_of_here.
      apply StronglySorted_cons. split.
      * apply Forall_forall. intros z Hz.
        rewrite insertBy_perm in Hz. apply elem_of_cons in Hz as [->|Hz]; [lia|].
        rewrite Forall_forall in Hy. apply Hy. exact Hz.
      * apply IH; [|exact Hs].
        intros z Hz. apply Hcmp. apply list_elem_of_further. exact Hz.
Qed.

Lemma sortBy_sorted l :
  (forall a b, a ∈ l -> b ∈ l -> cmp a b = (key a - key b)%Z) ->
  StronglySorted (fun a b => (key a <= key b)%Z) (sortBy cmp l).
Proof.
  induction l as [|x l IH]; intros Hcmp.
  - constructor.
  - cbn [sortBy foldr]. fold (sortBy cmp l). apply insertBy_sorted.
    + intros y Hy. rewrite sortBy_elem_of in Hy.
      apply Hcmp; [apply list_elem_of_here|apply list_elem_of_further; exact Hy].
    + apply IH. intros a b Ha Hb.
      apply Hcmp; apply list_elem_of_further; assumption.
Qed.

End SortFacts.

Section ParseFacts.

Example parseInt_plain : parseInt (js "149") = Some 149%Z.
Proof. reflexivity. Qed.

Example parseInt_prefix : parseInt (js "12a") = Some 12%Z.
Proof. reflexivity. Qed.

Example parseInt_signed : parseInt (js " -5") = Some (-5)%Z.
Proof. reflexivity. Qed.

Example parseInt_letter : parseInt (js "A1") = None.
Proof. reflexivity. Qed.

Example parseInt_empty : parseInt [] = None /\ parseInt (js "+") = None.
Proof. split; reflexivity. Qed.

Example sort_mixed_numbers :
  sortCollectorNumbers lexCompare [js "10"; js "2"; js "1a"; js "1"; js "S1"]
  = [js "1a"; js "1"; js "2"; js "10"; js "S1"].
Proof. vm_compute. reflexivity. Qed.

Example processSearchResults_sample :
  map (fun info => (code info, collectorNumbers info, length (cards info)))
      (processSearchResults lexCompare (fun s => s) sampleCards)
  = [(js "m11", [js "149"; js "150"], 3)].
Proof. vm_compute. reflexivity. Qed.

Example chooseSet_sample :
  let st := ui_run lexCompare (fun s => s)
              [OpSearch (Some sampleCards); OpSet (js "m11")] sel_init in
  availableCollectorNumbers st = [js "149"; js "150"] /\
  selectedCollectorNumber st = js "149" /\
  availableLanguages st = [js "ja"; js "en"] /\
  availableFinishes st = [js "nonfoil"; js "foil"] /\
  selectedLanguage st = Some (js "en") /\
  selectedFinish st = Some (js "nonfoil") /\
  selectedCardVersion st = Some cardJaNonfoil.
Proof. cbv zeta. repeat split; vm_compute; reflexivity. Qed.

Lemma stripGlyphs_idempotent s : stripGlyphs (stripGlyphs s) = stripGlyphs s.
Proof.
  unfold stripGlyphs. induction s as [|c s IH]; [reflexivity|].
  cbn [List.filter]. destruct (negb (isGlyph c)) eqn:Hc; [|exact IH].
  cbn [List.filter]. rewrite Hc, IH. reflexivity.
Qed.

(** C6, as stated, fails: in the group 10, 9, A the value A does not
    parse, yet 10 and 9 are still compared as numbers, so 9 comes before
    10, where the comparison of the raw strings puts 10 before 9. *)
Lemma group_ordering_counterexample :
  let group := [js "10"; js "9"; js "A"] in
  parseInt (js "A") = None /\
  collectorCompare lexCompare (js "10") (js "9") = 1%Z /\
  spec_groupCompare group (js "10") (js "9") = (-1)%Z /\
  sortCollectorNumbers lexCompare group = [js "9"; js "10"; js "A"] /\
  spec_sortGroup group = [js "10"; js "9"; js "A"] /\
  sortCollectorNumbers lexCompare group <> spec_sortGroup group.
Proof.
  cbv zeta. repeat (split; [vm_compute; reflexivity|]).
  vm_compute. discriminate.
Qed.

(** C6, amended: the ordering is decided per pair. Two values that both
    parse are compared as numbers; a pair in which a value does not
    parse is compared by the collation on the raw strings. The sorted
    sequence has the values of the group, and when every value of the
    group parses it is in ascending numeric order, whatever the
    collation. The numeric part is stated for integers up to 2^52 in
    magnitude, which the source's numbers represent exactly. *)
Theorem collector_order_per_pair :
  forall localeCompare,
    (forall a b x y,
       parseInt a = Some x -> parseInt b = Some y ->
       exactInteger a -> exactInteger b ->
       collectorCompare localeCompare a b = (x - y)%Z) /\
    (forall a b,
       parseInt a = None \/ parseInt b = None ->
       collectorCompare localeCompare a b = localeCompare a b) /\
    (forall group, sortCollectorNumbers localeCompare group ≡ₚ group) /\
    (forall group,
       Forall (fun v => is_Some (parseInt v) /\ exactInteger v) group ->
       StronglySorted
         (fun a b => (default 0 (parseInt a) <= default 0 (parseInt b))%Z)
         (sortCollectorNumbers localeCompare group)).
Proof.
  intros lc. split; [|split; [|split]].
  - intros a b x y Ha Hb _ _. unfold collectorCompare. rewrite Ha, Hb. reflexivity.
  - intros a b [H|H]; unfold collectorCompare; rewrite H;
      [|destruct (parseInt a)]; reflexivity.
  - intros group. apply sortBy_perm.
  - intros group Hall. unfold sortCollectorNumbers.
    apply (sortBy_sorted _ (fun v => default 0%Z (parseInt v))).
    intros a b Ha Hb. rewrite Forall_forall in Hall.
    destruct (Hall a Ha) as [[x Hx] _]. destruct (Hall b Hb) as [[y Hy] _].
    unfold collectorCompare. rewrite Hx, Hy. reflexivity.
Qed.

End ParseFacts.

Lemma collector_order_per_pair_witness :
  let group := [js "10"; js "9"; js "2a"] in
  (parseInt (js "10") = Some 10%Z /\ parseInt (js "9") = Some 9%Z /\
   exactInteger (js "10") /\ exactInteger (js "9") /\
   (parseInt (js "A") = None \/ parseInt (js "9") = None) /\
   Forall (fun v => is_Some (parseInt v) /\ exactInteger v) group) /\
  collectorCompare lexCompare (js "10") (js "9") = (10 - 9)%Z /\
  collectorCompare lexCompare (js "A") (js "9") = lexCompare (js "A") (js "9") /\
  StronglySorted
    (fun a b => (default 0 (parseInt a) <= default 0 (parseInt b))%Z)
    (sortCollectorNumbers lexCompare group).
Proof.
  intros group.
  assert (H1 : parseInt (js "10") = Some 10%Z) by reflexivity.
  assert (H2 : parseInt (js "9") = Some 9%Z) by reflexivity.
  assert (E1 : exactInteger (js "10")) by (intros z [= <-]; vm_compute; discriminate).
  assert (E2 : exactInteger (js "9")) by (intros z [= <-]; vm_compute; discriminate).
  assert (H3 : parseInt (js "A") = None \/ parseInt (js "9") = None)
    by (left; reflexivity).
  assert (H4 : Forall (fun v => is_Some (parseInt v) /\ exactInteger v) group)
    by (repeat constructor; try (eexists; reflexivity);
        intros z [= <-]; vm_compute; discriminate).
  pose proof (collector_order_per_pair lexCompare) as (Ha & Hb & _ & Hd).
  exact (conj (conj H1 (conj H2 (conj E1 (conj E2 (conj H3 H4)))))
           (conj (Ha _ _ _ _ H1 H2 E1 E2) (conj (Hb _ _ H3) (Hd group H4)))).
Defined.

Section ResolveFacts.
Implicit Types (st : Selection) (group : list Card).

Lemma find_first {A} (f : A -> bool) (l : list A) x :
  List.find f l = Some x ->
  f x = true /\
  exists l1 l2, l = l1 ++ x :: l2 /\ Forall (fun y => f y = false) l1.
Proof.
  induction l as [|y l IH]; cbn [List.find]; [discriminate|].
  destruct (f y) eqn:Hy.
  - intros [= <-]. split; [exact Hy|]. exists [], l. split; [reflexivity|constructor].
  - intros Hfind. destruct (IH Hfind) as (Hx & l1 & l2 & -> & Hall).
    split; [exact Hx|]. exists (y :: l1), l2. split; [reflexivity|].
    constructor; assumption.
Qed.

Lemma find_none_iff {A} (f : A -> bool) (l : list A) :
  List.find f l = None <-> forall y, y ∈ l -> f y = false.
Proof.
  induction l as [|y l IH]; cbn [List.find].
  - split; [|reflexivity]. intros _ y Hy. apply elem_of_nil in Hy. contradiction.
  - destruct (f y) eqn:Hy.
    + split; [discriminate|]. intros H.
      rewrite (H y) in Hy by apply list_elem_of_here. discriminate.
    + rewrite IH. split.
      * intros H z Hz. apply elem_of_cons in Hz as [->|Hz]; [exact Hy|apply H, Hz].
      * intros H z Hz. apply H. apply list_elem_of_further. exact Hz.
Qed.

(** C7, as stated, fails: in the group of a Japanese non-foil printing
    followed by an English foil one the defaults are "en" and
    "nonfoil", no record matches both, and the resolved card is the
    first record, which matches the finish only, where the stated
    fallback picks the record matching the language. *)
Lemma variant_fallback_counterexample :
  let group := [cardJaNonfoil; cardEnFoil] in
  let st := autoResolve group sel_init in
  selectedLanguage st = Some (js "en") /\
  selectedFinish st = Some (js "nonfoil") /\
  List.find (matchesDefaults (Some (js "en")) (Some (js "nonfoil"))) group = None /\
  langMatch (Some (js "en")) cardEnFoil = true /\
  spec_resolve (Some (js "en")) (Some (js "nonfoil")) group = Some cardEnFoil /\
  selectedCardVersion st = Some cardJaNonfoil /\
  selectedCardVersion st <> spec_resolve (Some (js "en")) (Some (js "nonfoil")) group.
Proof.
  cbv zeta. repeat (split; [vm_compute; reflexivity|]).
  vm_compute. discriminate.
Qed.

(** C7, amended: on a non-empty group the defaults are "en" if a record
    has it (or has no language) else the first language found, and
    "nonfoil" if a record has it else the first finish found; the
    resolved card is the first record of the group that matches both
    defaults, and when no record matches both it is the first record of
    the group. Both handlers resolve this way. *)
Theorem auto_resolution_both_or_first :
  forall group st,
    group <> [] ->
    let st' := autoResolve group st in
    let defaultLang := selectedLanguage st' in
    let defaultFinish := selectedFinish st' in
    defaultLang = defaultOf (js "en") (languagesOf group) /\
    defaultFinish = defaultOf (js "nonfoil") (finishesOf group) /\
    (exists card,
       selectedCardVersion st' = Some card /\ card ∈ group /\
       ((exists c, c ∈ group /\ matchesDefaults defaultLang defaultFinish c = true) ->
        matchesDefaults defaultLang defaultFinish card = true /\
        exists before after,
          group = before ++ card :: after /\
          Forall (fun c => matchesDefaults defaultLang defaultFinish c = false) before) /\
       ((forall c, c ∈ group -> matchesDefaults defaultLang defaultFinish c = false) ->
        head group = Some card)) /\
    (forall st0 set number,
       selectedSet st0 = Some set -> number <> [] ->
       matchingCardsOf st0 (code set) number = group ->
       handleCollectorNumberSelect number st0 =
         autoResolve group (setSelectedCollectorNumber number st0)) /\
    (forall localeCompare st0 setCode info number,
       List.find (fun set => bool_decide (code set = setCode)) (uniqueSets st0) = Some info ->
       head (sortCollectorNumbers localeCompare (collectorNumbers info)) = Some number ->
       number <> [] ->
       matchingCardsOf st0 (code info) number = group ->
       handleSetSelect localeCompare setCode st0 =
         autoResolve group
           (setSelectedCollectorNumber number
              (setAvailableCollectorNumbers
                 (sortCollectorNumbers localeCompare (collectorNumbers info))
                 (setSelectedSet (Some info) st0)))).
Proof.
  intros group st Hne st' defaultLang defaultFinish.
  subst st' defaultLang defaultFinish. unfold autoResolve. sel_fields.
  split; [reflexivity|]. split; [reflexivity|]. split; [|split].
  - destruct (List.find _ group) as [card|] eqn:Hfind.
    + exists card. pose proof (find_first _ _ _ Hfind) as (Hcard & l1 & l2 & Hg & Hall).
      split; [reflexivity|]. split; [|split].
      * rewrite Hg. apply elem_of_app. right. apply list_elem_of_here.
      * intros _. split; [exact Hcard|]. exists l1, l2. split; assumption.
      * intros Hnone. rewrite Hnone in Hcard; [discriminate|].
        rewrite Hg. apply elem_of_app. right. apply list_elem_of_here.
    + destruct group as [|card group']; [contradiction|].
      exists card. split; [reflexivity|]. split; [apply list_elem_of_here|]. split.
      * intros (c & Hc & Hm). rewrite find_none_iff in Hfind.
        rewrite (Hfind c Hc) in Hm. discriminate.
      * intros _. reflexivity.
  - intros st0 set number Hset Hnum Hgroup. unfold handleCollectorNumberSelect.
    rewrite Hset, Hgroup. destruct number; [contradiction|].
    destruct group; [contradiction|]. reflexivity.
  - intros lc st0 setCode info number Hfind Hhead Hnum Hgroup.
    unfold handleSetSelect. rewrite Hfind. cbv zeta. rewrite Hhead.
    destruct number; [contradiction|]. rewrite Hgroup.
    destruct group; [contradiction|]. reflexivity.
Qed.

End ResolveFacts.

Lemma auto_resolution_both_or_first_witness :
  let group := [cardJaNonfoil; cardEnFoil] in
  let info := mkSetInfo (js "m11") (js "Magic 2011") sampleCards [js "149"; js "150"] in
  let searched := ui_run lexCompare (fun s => s) [OpSearch (Some sampleCards)] sel_init in
  let chosen := ui_run lexCompare (fun s => s)
                  [OpSearch (Some sampleCards); OpSet (js "m11"); OpNumber (js "150")]
                  sel_init in
  (group <> [] /\
   selectedSet chosen = Some info /\
   js "149" <> [] /\
   matchingCardsOf chosen (code info) (js "149") = group /\
   List.find (fun set => bool_decide (code set = js "m11")) (uniqueSets searched)
     = Some info /\
   head (sortCollectorNumbers lexCompare (collectorNumbers info)) = Some (js "149") /\
   matchingCardsOf searched (code info) (js "149") = group) /\
  (let st' := autoResolve group sel_init in
   let defaultLang := selectedLanguage st' in
   let defaultFinish := selectedFinish st' in
   defaultLang = defaultOf (js "en") (languagesOf group) /\
   defaultFinish = defaultOf (js "nonfoil") (finishesOf group) /\
   (exists card,
      selectedCardVersion st' = Some card /\ card ∈ group /\
      ((exists c, c ∈ group /\ matchesDefaults defaultLang defaultFinish c = true) ->
       matchesDefaults defaultLang defaultFinish card = true /\
       exists before after,
         group = before ++ card :: after /\
         Forall (fun c => matchesDefaults defaultLang defaultFinish c = false) before) /\
      ((forall c, c ∈ group -> matchesDefaults defaultLang defaultFinish c = false) ->
       head group = Some card))) /\
  handleCollectorNumberSelect (js "149") chosen =
    autoResolve group (setSelectedCollectorNumber (js "149") chosen) /\
  handleSetSelect lexCompare (js "m11") searched =
    autoResolve group
      (setSelectedCollectorNumber (js "149")
         (setAvailableCollectorNumbers
            (sortCollectorNumbers lexCompare (collectorNumbers info))
            (setSelectedSet (Some info) searched))).
Proof.
  intros group info searched chosen.
  assert (H : group <> []) by discriminate.
  assert (H1 : selectedSet chosen = Some info) by (vm_compute; reflexivity).
  assert (H2 : js "149" <> []) by discriminate.
  assert (H3 : matchingCardsOf chosen (code info) (js "149") = group)
    by (vm_compute; reflexivity).
  assert (H4 : List.find (fun set => bool_decide (code set = js "m11"))
                 (uniqueSets searched) = Some info) by (vm_compute; reflexivity).
  assert (H5 : head (sortCollectorNumbers lexCompare (collectorNumbers info))
               = Some (js "149")) by (vm_compute; reflexivity).
  assert (H6 : matchingCardsOf searched (code info) (js "149") = group)
    by (vm_compute; reflexivity).
  pose proof (auto_resolution_both_or_first group sel_init H)
    as (Ha & Hb & Hc & Hd & He).
  exact (conj (conj H (conj H1 (conj H2 (conj H3 (conj H4 (conj H5 H6))))))
           (conj (conj Ha (conj Hb Hc))
              (conj (Hd chosen info (js "149") H1 H2 H3)
                    (He lexCompare searched (js "m11") info (js "149") H4 H5 H2 H6)))).
Defined.

Section PathFacts.
Variable localeCompare : jsstring -> jsstring -> Z.
Variable toLowerCase : jsstring -> jsstring.
Implicit Types (st : Selection) (info : SetInfo).

Lemma wf_selected st :
  is_Some (selectedSet st) -> selectedCollectorNumber st <> [] -> wellFormedPath st.
Proof. intros Hset Hnum. repeat split; intros _; assumption. Qed.

Lemma wf_reset st : laterFieldsReset st -> wellFormedPath st.
Proof.
  intros (Hnum & Hlang & Hfin & Hver & _). repeat split.
  - intros H. contradiction.
  - intros H. contradiction.
  - intros H. contradiction.
  - rewrite Hver. intros [c Hc]. discriminate.
Qed.

Lemma autoResolve_fields group st :
  selectedSet (autoResolve group st) = selectedSet st /\
  selectedCollectorNumber (autoResolve group st) = selectedCollectorNumber st /\
  availableCollectorNumbers (autoResolve group st) = availableCollectorNumbers st /\
  uniqueSets (autoResolve group st) = uniqueSets st /\
  searchResults (autoResolve group st) = searchResults st.
Proof. repeat split. Qed.

Lemma autoResolve_inv group st :
  is_Some (selectedSet st) -> selectedCollectorNumber st <> [] ->
  [] ∉ availableCollectorNumbers st ->
  Forall (fun info => [] ∉ collectorNumbers info) (uniqueSets st) ->
  sel_inv (autoResolve group st).
Proof.
  intros Hset Hnum Hav Hsets. split; [|split; assumption].
  apply wf_selected; assumption.
Qed.

(** The collector numbers gathered by [processSearchResults] are not
    empty. *)
Lemma setAdd_nonempty (s : list jsstring) x : [] ∉ s -> x <> [] -> [] ∉ setAdd s x.
Proof.
  intros Hs Hx. unfold setAdd. case_bool_decide; [exact Hs|].
  rewrite elem_of_app, list_elem_of_singleton. intros [H'|H']; [contradiction|congruence].
Qed.

Lemma map_set_values {V} (P : V -> Prop) k (v : V) (m : list (jsstring * V)) :
  P v -> Forall P (m.*2) -> Forall P ((map_set k v m).*2).
Proof.
  intros Hv Hm. unfold map_set. destruct (map_has k m).
  - induction m as [|[k' v'] m IH]; [constructor|].
    rewrite fmap_cons in Hm. apply Forall_cons in Hm as [Hv' Hm].
    cbn [map]. rewrite fmap_cons. constructor; [|apply IH; exact Hm].
    cbn [fst]. case_bool_decide; assumption.
  - rewrite fmap_app. apply Forall_app. split; [exact Hm|].
    repeat constructor. exact Hv.
Qed.

Lemma map_get_values {V} (P : V -> Prop) k (v : V) (m : list (jsstring * V)) :
  Forall P (m.*2) -> map_get k m = Some v -> P v.
Proof.
  unfold map_get. induction m as [|[k' v'] m IH]; cbn [List.find fst]; [discriminate|].
  rewrite fmap_cons. intros Hm. apply Forall_cons in Hm as [Hv' Hm].
  case_bool_decide; [intros [= <-]; exact Hv'|apply IH; exact Hm].
Qed.

Lemma addCard_numbers setMap card :
  Forall (fun info => [] ∉ collectorNumbers info) (setMap.*2) ->
  Forall (fun info => [] ∉ collectorNumbers info) ((addCard setMap card).*2).
Proof.
  intros Hm. unfold addCard.
  set (setCode := orElse (set_code card) []).
  set (setMap1 := if map_has setCode setMap then setMap else _).
  assert (H1 : Forall (fun info => [] ∉ collectorNumbers info) (setMap1.*2)).
  { subst setMap1. destruct (map_has setCode setMap); [exact Hm|].
    apply map_set_values; [|exact Hm]. cbn. apply not_elem_of_nil. }
  destruct (map_get setCode setMap1) as [setInfo|] eqn:Hget; [|exact H1].
  apply map_set_values; [|exact H1].
  pose proof (map_get_values _ _ _ _ H1 Hget) as Hinfo. cbn [collectorNumbers].
  destruct (cleanCollectorNumber card) as [|c num] eqn:Hnum; cbn [nonEmpty].
  - exact Hinfo.
  - apply setAdd_nonempty; [exact Hinfo|discriminate].
Qed.

Lemma foldl_addCard_numbers cards setMap :
  Forall (fun info => [] ∉ collectorNumbers info) (setMap.*2) ->
  Forall (fun info => [] ∉ collectorNumbers info) ((foldl addCard setMap cards).*2).
Proof.
  revert setMap. induction cards as [|card cards IH]; intros setMap Hm; cbn [foldl].
  - exact Hm.
  - apply IH. apply addCard_numbers. exact Hm.
Qed.

Lemma processSearchResults_numbers cards :
  Forall (fun info => [] ∉ collectorNumbers info)
         (processSearchResults localeCompare toLowerCase cards).
Proof.
  unfold processSearchResults. rewrite sortBy_perm.
  apply foldl_addCard_numbers. constructor.
Qed.

Lemma reset_inv st :
  Forall (fun info => [] ∉ collectorNumbers info) (uniqueSets st) ->
  sel_inv (resetSelections st).
Proof.
  intros Hsets. split; [|split].
  - apply wf_reset. repeat split.
  - sel_fields. apply not_elem_of_nil.
  - exact Hsets.
Qed.

Lemma find_code_offered setCode (sets : list SetInfo) :
  setCode ∈ code <$> sets ->
  exists info, List.find (fun set => bool_decide (code set = setCode)) sets = Some info /\
               info ∈ sets.
Proof.
  induction sets as [|info sets IH]; intros Hin.
  - apply elem_of_nil in Hin. contradiction.
  - cbn [List.find]. case_bool_decide as Hc.
    + exists info. split; [reflexivity|apply list_elem_of_here].
    + rewrite fmap_cons, elem_of_cons in Hin. destruct Hin as [Heq|Hin]; [congruence|].
      destruct (IH Hin) as (info' & Hf & Hi). exists info'.
      split; [exact Hf|apply list_elem_of_further; exact Hi].
Qed.

Lemma handleSetSelect_inv setCode st :
  sel_inv st -> offered st (OpSet setCode) = true ->
  sel_inv (handleSetSelect localeCompare setCode st).
Proof.
  intros (Hwf & Hav & Hsets) Hoff. cbn [offered] in Hoff.
  apply andb_true_iff in Hoff as [_ Hin]. apply bool_decide_eq_true in Hin.
  destruct (find_code_offered _ _ Hin) as (info & Hfind & Hinfo).
  unfold handleSetSelect. rewrite Hfind. cbv zeta.
  assert (Hnum : [] ∉ sortCollectorNumbers localeCompare (collectorNumbers info)).
  { unfold sortCollectorNumbers. rewrite sortBy_elem_of.
    rewrite Forall_forall in Hsets. apply Hsets. exact Hinfo. }
  destruct (head _) as [[|c lowest]|] eqn:Hhead.
  - exfalso. apply Hnum. apply head_Some_elem_of. exact Hhead.
  - destruct (matchingCardsOf st (code info) (c :: lowest)) as [|card group].
    + split; [|split; assumption].
      apply wf_selected; sel_fields; [eexists; reflexivity|discriminate].
    + apply autoResolve_inv; sel_fields;
        [eexists; reflexivity|discriminate|assumption|assumption].
  - split; [|split; assumption]. apply wf_reset. repeat split.
Qed.

Lemma handleCollectorNumberSelect_inv number st :
  sel_inv st -> offered st (OpNumber number) = true ->
  sel_inv (handleCollectorNumberSelect number st).
Proof.
  intros (Hwf & Hav & Hsets) Hoff. cbn [offered] in Hoff.
  apply andb_true_iff in Hoff as [Hoff Hin]. apply andb_true_iff in Hoff as [_ Hset].
  apply bool_decide_eq_true in Hin, Hset.
  assert (Hne : number <> []) by (intros ->; contradiction).
  unfold handleCollectorNumberSelect. destruct Hset as [set Hset]. rewrite Hset.
  destruct number as [|c number]; [contradiction|].
  destruct (matchingCardsOf st (code set) (c :: number)) as [|card group].
  - split; [|split; assumption].
    apply wf_selected; sel_fields; [rewrite Hset; eexists; reflexivity|discriminate].
  - apply autoResolve_inv; sel_fields;
      [rewrite Hset; eexists; reflexivity|discriminate|assumption|assumption].
Qed.

Lemma languageOrFinish_inv rendered st :
  selectedCollectorNumber st <> [] ->
  is_Some (selectedSet st) ->
  [] ∉ availableCollectorNumbers st ->
  Forall (fun info => [] ∉ collectorNumbers info) (uniqueSets st) ->
  sel_inv (handleLanguageOrFinishChange rendered st).
Proof.
  intros Hnum Hset Hav Hsets. unfold handleLanguageOrFinishChange.
  destruct (selectedSet rendered), (selectedCollectorNumber rendered);
    try destruct (getCurrentCardVariant rendered);
    (split; [apply wf_selected; assumption|split; assumption]).
Qed.

Lemma nonEmpty_ne {A} (l : list A) : nonEmpty l = true -> l <> [].
Proof. destruct l; [discriminate|]. intros _. discriminate. Qed.

Lemma ui_step_inv st op :
  sel_inv st -> sel_inv (ui_step localeCompare toLowerCase st op).
Proof.
  intros Hinv. unfold ui_step. destruct (offered st op) eqn:Hoff; [|exact Hinv].
  destruct op as [response| |newValue|setCode|number|v|v]; cbn [handle].
  - destruct Hinv as (Hwf & Hav & Hsets).
    unfold performSearch. destruct response as [[|card cards]|].
    + split; [|split; assumption].
      destruct Hwf as (H1 & H2 & H3 & _). repeat split; try assumption.
      sel_fields. intros [c Hc]. discriminate.
    + apply reset_inv. sel_fields. apply processSearchResults_numbers.
    + split; [|split; assumption].
      destruct Hwf as (H1 & H2 & H3 & _). repeat split; try assumption.
      sel_fields. intros [c Hc]. discriminate.
  - unfold Selector.handleClear. apply reset_inv. sel_fields. constructor.
  - unfold clearOnTyping. case_bool_decide; [|exact Hinv].
    destruct (searchResults st) eqn:Hres; [exact Hinv|].
    apply reset_inv. sel_fields. constructor.
  - apply handleSetSelect_inv; assumption.
  - apply handleCollectorNumberSelect_inv; assumption.
  - destruct Hinv as (Hwf & Hav & Hsets). cbn [offered] in Hoff.
    apply andb_true_iff in Hoff as [Hoff _]. apply andb_true_iff in Hoff as [_ Hnum].
    apply nonEmpty_ne in Hnum. unfold changeLanguage.
    apply languageOrFinish_inv; sel_fields; try assumption.
    apply Hwf. exact Hnum.
  - destruct Hinv as (Hwf & Hav & Hsets). cbn [offered] in Hoff.
    apply andb_true_iff in Hoff as [Hoff _]. apply andb_true_iff in Hoff as [_ Hnum].
    apply nonEmpty_ne in Hnum. unfold changeFinish.
    apply languageOrFinish_inv; sel_fields; try assumption.
    apply Hwf. exact Hnum.
Qed.

Lemma sel_init_inv : sel_inv sel_init.
Proof.
  split; [|split].
  - apply wf_reset. repeat split.
  - apply not_elem_of_nil.
  - constructor.
Qed.

Lemma ui_run_inv ops : sel_inv (ui_run localeCompare toLowerCase ops sel_init).
Proof.
  unfold ui_run. induction ops as [|op ops IH] using rev_ind.
  - exact sel_init_inv.
  - rewrite foldl_app. cbn [foldl]. apply ui_step_inv, IH.
Qed.

End PathFacts.

(** C8, as stated, fails: called before any set is chosen,
    [handleCollectorNumberSelect] stores the collector number while the
    set is empty; and called with the empty string after a set was
    chosen, it empties the collector number and leaves the resolved card
    in place. *)
Lemma path_invariant_counterexample :
  let st := handlers_run lexCompare (fun s => s) [OpNumber (js "5")] sel_init in
  let st2 := handlers_run lexCompare (fun s => s)
               [OpSearch (Some sampleCards); OpSet (js "m11"); OpNumber []] sel_init in
  selectedCollectorNumber st = js "5" /\
  selectedSet st = None /\
  ~ wellFormedPath st /\
  selectedCollectorNumber st2 = [] /\
  selectedCardVersion st2 = Some cardJaNonfoil /\
  ~ wellFormedPath st2 /\
  ~ spec_pathInvariant.
Proof.
  cbv zeta.
  assert (H1 : ~ wellFormedPath
                 (handlers_run lexCompare (fun s => s) [OpNumber (js "5")] sel_init)).
  { intros (H & _). cbn in H.
    destruct H as [x Hx]; [discriminate|discriminate]. }
  split; [reflexivity|]. split; [reflexivity|]. split; [exact H1|].
  split; [vm_compute; reflexivity|]. split; [vm_compute; reflexivity|]. split.
  - intros (_ & _ & _ & H).
    assert (Hv : selectedCardVersion
                   (handlers_run lexCompare (fun s => s)
                      [OpSearch (Some sampleCards); OpSet (js "m11"); OpNumber []]
                      sel_init) = Some cardJaNonfoil) by (vm_compute; reflexivity).
    rewrite Hv in H. apply H; [eexists; reflexivity|]. vm_compute. reflexivity.
  - intros Hspec. apply H1. apply Hspec. reflexivity.
Qed.

(** C8, amended: under every sequence of the operations the view offers
    (a listed set; a listed collector number once a set is selected; a
    listed language or finish once a collector number is selected;
    search, clear and typing at any time) the selection path never has a
    collector number without a set, nor a language, finish or resolved
    card off its reset value without a collector number. Clearing and a
    successful search put every field back to its reset value, and
    choosing a set without collector numbers does so for every field
    after the set. *)
Theorem selection_path_wellformed :
  forall localeCompare toLowerCase ops,
    let st := ui_run localeCompare toLowerCase ops sel_init in
    wellFormedPath st /\
    ([] ∉ availableCollectorNumbers st) /\
    (let st' := ui_step localeCompare toLowerCase st OpClear in
     selectedSet st' = None /\ laterFieldsReset st') /\
    (forall card cards,
       let st' := ui_step localeCompare toLowerCase st (OpSearch (Some (card :: cards))) in
       selectedSet st' = None /\ laterFieldsReset st') /\
    (forall setCode info,
       offered st (OpSet setCode) = true ->
       List.find (fun set => bool_decide (code set = setCode)) (uniqueSets st) = Some info ->
       collectorNumbers info = [] ->
       let st' := ui_step localeCompare toLowerCase st (OpSet setCode) in
       selectedSet st' = Some info /\ laterFieldsReset st').
Proof.
  intros lc lower ops st.
  destruct (ui_run_inv lc lower ops) as (Hwf & Hav & _). fold st in Hwf, Hav.
  split; [exact Hwf|]. split; [exact Hav|]. split; [|split].
  - cbv zeta. unfold ui_step. cbn [offered handle].
    unfold Selector.handleClear. repeat split.
  - intros card cards. cbv zeta. unfold ui_step. cbn [offered handle performSearch].
    repeat split.
  - intros setCode info Hoff Hfind Hnone. cbv zeta. unfold ui_step. rewrite Hoff.
    cbn [handle]. unfold handleSetSelect. rewrite Hfind. cbv zeta.
    rewrite Hnone. cbn [sortCollectorNumbers sortBy foldr head]. repeat split.
Qed.

Lemma selection_path_wellformed_witness :
  let ops := [OpSearch (Some [cardNoNumber; cardEnBoth]); OpSet (js "m11")] in
  let st := ui_run lexCompare (fun s => s) ops sel_init in
  let info := mkSetInfo (js "plist") (js "The List") [cardNoNumber] [] in
  (offered st (OpSet (js "plist")) = true /\
   List.find (fun set => bool_decide (code set = js "plist")) (uniqueSets st) = Some info /\
   collectorNumbers info = []) /\
  selectedCollectorNumber st = js "150" /\
  wellFormedPath st /\
  let st' := ui_step lexCompare (fun s => s) st (OpSet (js "plist")) in
  selectedSet st' = Some info /\ laterFieldsReset st'.
Proof.
  intros ops st info.
  assert (H1 : offered st (OpSet (js "plist")) = true) by (vm_compute; reflexivity).
  assert (H2 : List.find (fun set => bool_decide (code set = js "plist")) (uniqueSets st)
               = Some info) by (vm_compute; reflexivity).
  assert (H3 : collectorNumbers info = []) by reflexivity.
  assert (H4 : selectedCollectorNumber st = js "150") by (vm_compute; reflexivity).
  pose proof (selection_path_wellformed lexCompare (fun s => s) ops)
    as (Hwf & _ & _ & _ & Hset).
  exact (conj (conj H1 (conj H2 H3)) (conj H4 (conj Hwf (Hset _ info H1 H2 H3)))).
Defined.

(** * Further properties *)

Import Index.

(** ** Printing index *)

Section IndexFacts.
Variable localeCompare : jsstring -> jsstring -> Z.
Variable toLowerCase : jsstring -> jsstring.
Implicit Types (card : Card) (info : SetInfo) (cs : list Card).

Lemma map_get_map_set_ne {V} k k' (v : V) (m : list (jsstring * V)) :
  k' <> k -> map_get k' (map_set k v m) = map_get k' m.
Proof.
  intros Hne. unfold map_set. destruct (map_has k m).
  - unfold map_get. induction m as [|[k1 v1] m IH]; [reflexivity|].
    cbn [map fst]. destruct (decide (k1 = k)) as [->|H1].
    + rewrite bool_decide_eq_true_2 by reflexivity. cbn [List.find fst].
      rewrite !bool_decide_eq_false_2 by congruence. exact IH.
    + rewrite bool_decide_eq_false_2 by exact H1. cbn [List.find fst].
      case_bool_decide; [reflexivity|exact IH].
  - apply map_get_snoc_ne. exact Hne.
Qed.

Lemma map_set_keys {V} k (v : V) (m : list (jsstring * V)) :
  (map_set k v m).*1 = if map_has k m then m.*1 else m.*1 ++ [k].
Proof.
  destruct (map_has k m) eqn:Hhas.
  - apply map_set_keys_present. apply map_has_true. exact Hhas.
  - rewrite map_set_absent by (apply map_has_false; exact Hhas).
    rewrite fmap_app. reflexivity.
Qed.

Lemma map_set_NoDup {V} k (v : V) (m : list (jsstring * V)) :
  NoDup (m.*1) -> NoDup ((map_set k v m).*1).
Proof.
  intros Hnd. rewrite map_set_keys. destruct (map_has k m) eqn:Hhas; [exact Hnd|].
  apply NoDup_app. split; [exact Hnd|]. split; [|apply NoDup_singleton].
  intros x Hx Hk. apply list_elem_of_singleton in Hk. subst x.
  apply map_has_false in Hhas. contradiction.
Qed.

Lemma map_get_in {V} k (v : V) (m : list (jsstring * V)) :
  map_get k m = Some v -> (k, v) ∈ m.
Proof.
  unfold map_get. induction m as [|[k1 v1] m IH]; cbn [List.find fst]; [discriminate|].
  case_bool_decide as Hk.
  - intros [= <-]. subst k1. apply list_elem_of_here.
  - intros H. apply list_elem_of_further, IH, H.
Qed.

Lemma numbersOf_snoc cs card :
  numbersOf (cs ++ [card]) =
    if nonEmpty (cleanCollectorNumber card)
    then setAdd (numbersOf cs) (cleanCollectorNumber card)
    else numbersOf cs.
Proof. unfold numbersOf. rewrite foldl_app. reflexivity. Qed.

Lemma setAdd_elem_of (s : list jsstring) x y : y ∈ setAdd s x <-> y ∈ s \/ y = x.
Proof.
  unfold setAdd. case_bool_decide as Hx.
  - split; [intros H; left; exact H|]. intros [H| ->]; assumption.
  - rewrite elem_of_app, list_elem_of_singleton. reflexivity.
Qed.

Lemma setAdd_NoDup (s : list jsstring) x : NoDup s -> NoDup (setAdd s x).
Proof.
  intros Hnd. unfold setAdd. case_bool_decide as Hx; [exact Hnd|].
  apply NoDup_app. split; [exact Hnd|]. split; [|apply NoDup_singleton].
  intros y Hy Hyx. apply list_elem_of_singleton in Hyx. subst y. contradiction.
Qed.

Lemma numbersOf_NoDup cs : NoDup (numbersOf cs).
Proof.
  induction cs as [|card cs IH] using rev_ind; [apply NoDup_nil_2|].
  rewrite numbersOf_snoc. destruct (nonEmpty _); [apply setAdd_NoDup|]; exact IH.
Qed.

Lemma numbersOf_elem_of cs n :
  n ∈ numbersOf cs <->
  n <> [] /\ exists card, card ∈ cs /\ cleanCollectorNumber card = n.
Proof.
  induction cs as [|card cs IH] using rev_ind.
  - split; [intros H; apply elem_of_nil in H; contradiction|].
    intros (_ & c & Hc & _). apply elem_of_nil in Hc. contradiction.
  - rewrite numbersOf_snoc.
    destruct (cleanCollectorNumber card) as [|d num] eqn:Hnum; cbn [nonEmpty].
    + rewrite IH. split.
      * intros (Hn & c & Hc & Hcn). split; [exact Hn|]. exists c.
        split; [apply elem_of_app; left; exact Hc|exact Hcn].
      * intros (Hn & c & Hc & Hcn). split; [exact Hn|].
        apply elem_of_app in Hc as [Hc|Hc]; [exists c; split; assumption|].
        apply list_elem_of_singleton in Hc. subst c. congruence.
    + rewrite setAdd_elem_of, IH. split.
      * intros [(Hn & c & Hc & Hcn)| ->].
        -- split; [exact Hn|]. exists c.
           split; [apply elem_of_app; left; exact Hc|exact Hcn].
        -- split; [discriminate|]. exists card.
           split; [apply elem_of_app; right; apply list_elem_of_here|exact Hnum].
      * intros (Hn & c & Hc & Hcn).
        apply elem_of_app in Hc as [Hc|Hc]; [left; split; [exact Hn|exists c; split; assumption]|].
        apply list_elem_of_singleton in Hc. subst c. right. congruence.
Qed.

Lemma filter_none {A} (P : A -> Prop) `{forall x, Decision (P x)} (l : list A) :
  (forall x, x ∈ l -> ~ P x) -> filter P l = [].
Proof.
  induction l as [|x l IH]; intros Hl; [reflexivity|].
  rewrite filter_cons_False by (apply Hl, list_elem_of_here).
  apply IH. intros y Hy. apply Hl, list_elem_of_further, Hy.
Qed.

Lemma grouped_nil : grouped [] [].
Proof.
  split; [apply NoDup_nil_2|]. split.
  - intros k. split; [intros H; apply elem_of_nil in H; contradiction|].
    intros (c & Hc & _). apply elem_of_nil in Hc. contradiction.
  - intros k info H. discriminate H.
Qed.

Lemma head_snoc_bind {B} (f : Card -> option B) cs card :
  head (cs ++ [card]) ≫= f = match cs with [] => f card | _ => head cs ≫= f end.
Proof. destruct cs; reflexivity. Qed.

Lemma grouped_addCard setMap done card :
  grouped setMap done -> grouped (addCard setMap card) (done ++ [card]).
Proof.
  intros (Hnd & Hkeys & Hget). unfold addCard. fold (setKey card).
  set (k0 := setKey card).
  set (fresh := mkSetInfo k0 (orElse (set_name card) []) [] []).
  set (setMap1 := if map_has k0 setMap then setMap else map_set k0 fresh setMap).
  assert (Hnd1 : NoDup (setMap1.*1)).
  { subst setMap1. destruct (map_has k0 setMap); [exact Hnd|].
    apply map_set_NoDup. exact Hnd. }
  assert (Hkeys1 : forall k, k ∈ setMap1.*1 <-> k ∈ setMap.*1 \/ k = k0).
  { intros k. subst setMap1. destruct (map_has k0 setMap) eqn:Hhas.
    - apply map_has_true in Hhas. split; [intros H; left; exact H|].
      intros [H| ->]; assumption.
    - rewrite map_set_keys, Hhas, elem_of_app, list_elem_of_singleton. reflexivity. }
  assert (Hget1 : forall k info, map_get k setMap1 = Some info ->
            (k <> k0 /\ map_get k setMap = Some info) \/
            (k = k0 /\ map_has k0 setMap = true /\ map_get k0 setMap = Some info) \/
            (k = k0 /\ map_has k0 setMap = false /\ info = fresh)).
  { intros k info. subst setMap1. destruct (map_has k0 setMap) eqn:Hhas.
    - intros H. destruct (decide (k = k0)) as [->|Hne]; [right; left|left]; auto.
    - destruct (decide (k = k0)) as [->|Hne].
      + rewrite map_get_map_set. intros [= <-]. right; right. auto.
      + rewrite map_get_map_set_ne by exact Hne. intros H. left. auto. }
  assert (Hsome : exists info0, map_get k0 setMap1 = Some info0).
  { apply map_get_has. apply map_has_true. apply Hkeys1. right. reflexivity. }
  destruct Hsome as [info0 Hinfo0]. rewrite Hinfo0.
  set (info1 := mkSetInfo _ _ _ _).
  assert (Hhas1 : map_has k0 setMap1 = true).
  { apply map_has_true. apply Hkeys1. right. reflexivity. }
  split; [apply map_set_NoDup; exact Hnd1|]. split.
  - intros k. rewrite map_set_keys, Hhas1, Hkeys1, Hkeys. split.
    + intros [(c & Hc & Hk)| ->].
      * exists c. split; [apply elem_of_app; left; exact Hc|exact Hk].
      * exists card. split; [apply elem_of_app; right; apply list_elem_of_here|reflexivity].
    + intros (c & Hc & Hk). apply elem_of_app in Hc as [Hc|Hc].
      * left. exists c. split; assumption.
      * apply list_elem_of_singleton in Hc. subst c. right. symmetry. exact Hk.
  - intros k info. destruct (decide (k = k0)) as [->|Hne].
    + rewrite map_get_map_set. intros [= <-]. subst info1. cbn [code cards collectorNumbers setName].
      assert (Hold : code info0 = k0 /\
                cards info0 = filter (fun c => setKey c = k0) done /\
                collectorNumbers info0 = numbersOf (cards info0) /\
                setName info0 =
                  orElse (head (cards info0 ++ [card]) ≫= set_name) []).
      { destruct (Hget1 k0 info0 Hinfo0) as [[Hne _]|[(_ & _ & Hg)|(_ & Hhas & ->)]].
        - contradiction.
        - destruct (Hget k0 info0 Hg) as (H1 & H2 & H3 & H4).
          repeat split; try assumption.
          rewrite H4, head_snoc_bind. destruct (cards info0) eqn:Hc; [|reflexivity].
          exfalso. apply map_get_some_key, Hkeys in Hg as (c & Hc1 & Hc2).
          assert (Hin : c ∈ filter (fun c => setKey c = k0) done)
            by (apply list_elem_of_filter; split; assumption).
          rewrite <- H2 in Hin. apply elem_of_nil in Hin. exact Hin.
        - subst fresh. cbn [code cards collectorNumbers setName]. repeat split.
          symmetry. apply filter_none.
          intros c Hc Hk. apply map_has_false in Hhas. apply Hhas, Hkeys.
          exists c. split; assumption. }
      destruct Hold as (H1 & H2 & H3 & H4).
      split; [exact H1|]. split; [|split].
      * rewrite filter_app, H2, filter_cons_True by reflexivity. reflexivity.
      * rewrite numbersOf_snoc, H3. reflexivity.
      * exact H4.
    + rewrite map_get_map_set_ne by exact Hne. intros Hg.
      destruct (Hget1 k info Hg) as [[_ Hg0]|[(Hk & _)|(Hk & _)]]; try contradiction.
      destruct (Hget k info Hg0) as (H1 & H2 & H3 & H4).
      split; [exact H1|]. split; [|split; assumption].
      rewrite filter_app, H2.
      rewrite filter_cons_False by (intros H; apply Hne; symmetry; exact H).
      rewrite app_nil_r. reflexivity.
Qed.

Lemma grouped_foldl cs setMap done :
  grouped setMap done -> grouped (foldl addCard setMap cs) (done ++ cs).
Proof.
  revert setMap done. induction cs as [|card cs IH]; intros setMap done Hg.
  - rewrite app_nil_r. exact Hg.
  - cbn [foldl]. replace (done ++ card :: cs) with ((done ++ [card]) ++ cs)
      by (rewrite <- app_assoc; reflexivity).
    apply IH, grouped_addCard, Hg.
Qed.

(** What an entry of the result of [processSearchResults] is. *)
Lemma processSearchResults_entry cs info :
  info ∈ processSearchResults localeCompare toLowerCase cs ->
  exists setMap, grouped setMap cs /\ map_get (code info) setMap = Some info.
Proof.
  unfold processSearchResults. rewrite sortBy_elem_of.
  pose proof (grouped_foldl cs [] [] grouped_nil) as Hg. cbn [app] in Hg.
  intros Hin. exists (foldl addCard [] cs). split; [exact Hg|].
  apply list_elem_of_fmap in Hin as ([k info'] & -> & Hin). cbn [snd].
  destruct Hg as (Hnd & _ & Hget).
  pose proof (map_get_elem k info' _ Hnd Hin) as Hk.
  destruct (Hget k info' Hk) as (-> & _). exact Hk.
Qed.

End IndexFacts.

Section IndexTheorems.
Implicit Types (card : Card) (info : SetInfo) (cs : list Card).

Lemma grouped_codes setMap done : grouped setMap done -> code <$> setMap.*2 = setMap.*1.
Proof.
  intros (Hnd & _ & Hget).
  assert (Hall : Forall (fun kv : jsstring * SetInfo => code kv.2 = kv.1) setMap).
  { apply Forall_forall. intros [k info] Hin. cbn.
    apply (Hget k info). apply map_get_elem; assumption. }
  clear Hnd Hget. induction Hall as [|[k info] m Hk _ IH]; [reflexivity|].
  rewrite !fmap_cons. cbn in *. rewrite Hk, IH. reflexivity.
Qed.

Lemma stripGlyphs_glyphFree s : glyphFree (stripGlyphs s).
Proof.
  unfold glyphFree, stripGlyphs. induction s as [|c s IH]; [constructor|].
  cbn [List.filter]. destruct (isGlyph c) eqn:Hc; cbn [negb]; [exact IH|].
  constructor; assumption.
Qed.

Lemma stripGlyphs_fixed s : stripGlyphs s = s <-> glyphFree s.
Proof.
  split.
  - intros <-. apply stripGlyphs_glyphFree.
  - unfold glyphFree, stripGlyphs. induction 1 as [|c s Hc _ IH]; [reflexivity|].
    cbn [List.filter]. rewrite Hc. cbn [negb]. rewrite IH. reflexivity.
Qed.

(** X1: [processSearchResults] puts every card in the group of its set
    code and nowhere else: the groups have distinct codes, every card is
    in the group of its code, and a group holds, in the order of the
    input, exactly the cards with its code (so it is never empty) and is
    named after its first card. *)
Theorem index_groups_by_set_code :
  forall localeCompare toLowerCase cs,
    let groups := processSearchResults localeCompare toLowerCase cs in
    NoDup (code <$> groups) /\
    (forall card, card ∈ cs ->
       exists info, info ∈ groups /\ code info = setKey card /\ card ∈ cards info) /\
    (forall info, info ∈ groups ->
       cards info <> [] /\
       cards info = filter (fun card => setKey card = code info) cs /\
       setName info = orElse (head (cards info) ≫= set_name) []).
Proof.
  intros lc lower cs groups.
  pose proof (grouped_foldl cs [] [] grouped_nil) as Hg.
  cbn [app] in Hg. set (setMap := foldl addCard [] cs) in *.
  assert (Hgroups : groups ≡ₚ setMap.*2) by apply sortBy_perm.
  split; [|split].
  - rewrite Hgroups, (grouped_codes _ _ Hg). apply Hg.
  - intros card Hcard. destruct Hg as (Hnd & Hkeys & Hget).
    assert (Hk : setKey card ∈ setMap.*1) by (apply Hkeys; exists card; auto).
    apply map_has_true, map_get_has in Hk as [info Hinfo].
    exists info. destruct (Hget _ _ Hinfo) as (Hcode & Hcards & _).
    split; [|split; [exact Hcode|]].
    + rewrite Hgroups. apply list_elem_of_fmap. exists (setKey card, info).
      split; [reflexivity|]. apply map_get_in. exact Hinfo.
    + rewrite Hcards. apply list_elem_of_filter. split; [reflexivity|exact Hcard].
  - intros info Hin.
    destruct (processSearchResults_entry lc lower cs info Hin) as (m & Hm & Hinfo).
    destruct Hm as (_ & Hkeys & Hget).
    destruct (Hget _ _ Hinfo) as (_ & Hcards & _ & Hname).
    split; [|split; assumption].
    apply map_get_some_key, Hkeys in Hinfo as (c & Hc & Hk).
    intros Hnil. assert (Hcin : c ∈ cards info).
    { rewrite Hcards. apply list_elem_of_filter. split; assumption. }
    rewrite Hnil in Hcin. apply elem_of_nil in Hcin. exact Hcin.
Qed.

(** X2: the collector numbers of a group are pairwise distinct, and a
    string is one of them exactly when it is not empty and is the
    cleaned collector number of a card with the group's set code; none
    contains a glyph. *)
Theorem index_collector_numbers :
  forall localeCompare toLowerCase cs info,
    info ∈ processSearchResults localeCompare toLowerCase cs ->
    NoDup (collectorNumbers info) /\
    (forall n, n ∈ collectorNumbers info <->
       n <> [] /\
       exists card, card ∈ cs /\ setKey card = code info /\
                    cleanCollectorNumber card = n) /\
    Forall glyphFree (collectorNumbers info).
Proof.
  intros lc lower cs info Hin.
  destruct (processSearchResults_entry lc lower cs info Hin) as (m & Hm & Hinfo).
  destruct Hm as (_ & _ & Hget).
  destruct (Hget _ _ Hinfo) as (_ & Hcards & Hnums & _).
  assert (Hmem : forall n, n ∈ collectorNumbers info <->
            n <> [] /\ exists card, card ∈ cs /\ setKey card = code info /\
                                    cleanCollectorNumber card = n).
  { intros n. rewrite Hnums, numbersOf_elem_of, Hcards. split.
    - intros (Hn & c & Hc & Hcn). apply list_elem_of_filter in Hc as [Hk Hc].
      split; [exact Hn|]. exists c. auto.
    - intros (Hn & c & Hc & Hk & Hcn). split; [exact Hn|]. exists c.
      split; [|exact Hcn]. apply list_elem_of_filter. auto. }
  split; [rewrite Hnums; apply numbersOf_NoDup|]. split; [exact Hmem|].
  apply Forall_forall. intros n Hn. apply Hmem in Hn as (_ & c & _ & _ & <-).
  apply stripGlyphs_glyphFree.
Qed.

(** X3: removing the glyphs from a collector number is idempotent, leaves
    no glyph, keeps the other code units in their order, and changes
    nothing exactly when there was no glyph. *)
Theorem stripGlyphs_normal_form :
  forall s,
    stripGlyphs (stripGlyphs s) = stripGlyphs s /\
    glyphFree (stripGlyphs s) /\
    stripGlyphs s `sublist_of` s /\
    (forall c, c ∈ s -> isGlyph c = false -> c ∈ stripGlyphs s) /\
    (stripGlyphs s = s <-> glyphFree s).
Proof.
  intros s. split; [|split; [|split; [|split]]].
  - apply stripGlyphs_fixed, stripGlyphs_glyphFree.
  - apply stripGlyphs_glyphFree.
  - unfold stripGlyphs. induction s as [|c s IH]; [constructor|].
    cbn [List.filter]. destruct (negb (isGlyph c)); constructor; exact IH.
  - intros c Hc Hg. unfold stripGlyphs. apply list_elem_of_In, filter_In.
    split; [apply list_elem_of_In; exact Hc|rewrite Hg; reflexivity].
  - apply stripGlyphs_fixed.
Qed.

End IndexTheorems.

Lemma index_groups_by_set_code_witness :
  let cs := [cardOther "m11" "7"; cardOther "LEA" "161"; cardOther "m11" "12"] in
  let groups := processSearchResults lexCompare (fun s => s) cs in
  let info := mkSetInfo (js "m11") (js "Some Set")
                [cardOther "m11" "7"; cardOther "m11" "12"] [js "7"; js "12"] in
  (cardOther "m11" "12" ∈ cs /\ info ∈ groups) /\
  (exists info', info' ∈ groups /\ code info' = setKey (cardOther "m11" "12") /\
                 cardOther "m11" "12" ∈ cards info') /\
  (cards info <> [] /\
   cards info = filter (fun card => setKey card = code info) cs /\
   setName info = orElse (head (cards info) ≫= set_name) []).
Proof.
  intros cs groups info.
  assert (H1 : cardOther "m11" "12" ∈ cs)
    by (do 2 apply list_elem_of_further; apply list_elem_of_here).
  assert (Hg : groups = [mkSetInfo (js "LEA") (js "Some Set")
                           [cardOther "LEA" "161"] [js "161"]; info])
    by (vm_compute; reflexivity).
  assert (H2 : info ∈ groups)
    by (rewrite Hg; apply list_elem_of_further, list_elem_of_here).
  pose proof (index_groups_by_set_code lexCompare (fun s => s) cs) as (_ & Ha & Hb).
  exact (conj (conj H1 H2) (conj (Ha _ H1) (Hb _ H2))).
Defined.

Lemma index_collector_numbers_witness :
  let cs := [cardOther "m11" "7"; cardOther "LEA" "161"; cardOther "m11" "12"] in
  let info := mkSetInfo (js "m11") (js "Some Set")
                [cardOther "m11" "7"; cardOther "m11" "12"] [js "7"; js "12"] in
  info ∈ processSearchResults lexCompare (fun s => s) cs /\
  NoDup (collectorNumbers info) /\
  (forall n, n ∈ collectorNumbers info <->
     n <> [] /\
     exists card, card ∈ cs /\ setKey card = code info /\
                  cleanCollectorNumber card = n) /\
  Forall glyphFree (collectorNumbers info).
Proof.
  intros cs info.
  assert (Hg : processSearchResults lexCompare (fun s => s) cs =
               [mkSetInfo (js "LEA") (js "Some Set")
                  [cardOther "LEA" "161"] [js "161"]; info])
    by (vm_compute; reflexivity).
  assert (H : info ∈ processSearchResults lexCompare (fun s => s) cs)
    by (rewrite Hg; apply list_elem_of_further, list_elem_of_here).
  exact (conj H (index_collector_numbers lexCompare (fun s => s) cs info H)).
Defined.

Lemma stripGlyphs_normal_form_witness :
  let s := js "149" ++ [0x2605%N] in
  (0x31%N ∈ s /\ isGlyph 0x31%N = false) /\
  stripGlyphs s = js "149" /\
  0x31%N ∈ stripGlyphs s.
Proof.
  intros s.
  assert (H1 : 0x31%N ∈ s) by apply list_elem_of_here.
  assert (H2 : isGlyph 0x31%N = false) by reflexivity.
  pose proof (stripGlyphs_normal_form s) as (_ & _ & _ & Ha & _).
  exact (conj (conj H1 H2) (conj eq_refl (Ha _ H1 H2))).
Defined.

(** ** Variant selector *)

Section ConsistencyFacts.
Variable localeCompare : jsstring -> jsstring -> Z.
Variable toLowerCase : jsstring -> jsstring.
Implicit Types (st : Selection) (card : Card) (info : SetInfo).

Lemma matchingCardsOf_elem_of st setCode n card :
  card ∈ matchingCardsOf st setCode n <->
  card ∈ searchResults st /\ setKey card = setCode /\ cleanCollectorNumber card = n.
Proof.
  unfold matchingCardsOf. rewrite list_elem_of_In, filter_In, <- list_elem_of_In.
  rewrite andb_true_iff, !bool_decide_eq_true. reflexivity.
Qed.

Lemma process_number_has_card cs info n :
  info ∈ processSearchResults localeCompare toLowerCase cs ->
  n ∈ collectorNumbers info ->
  exists card, card ∈ cs /\ setKey card = code info /\ cleanCollectorNumber card = n.
Proof.
  intros Hin Hn.
  destruct (processSearchResults_entry _ _ cs info Hin) as (m & (_ & _ & Hget) & Hinfo).
  destruct (Hget _ _ Hinfo) as (_ & Hcards & Hnums & _).
  rewrite Hnums, numbersOf_elem_of, Hcards in Hn. destruct Hn as (_ & c & Hc & Hcn).
  apply list_elem_of_filter in Hc as [Hk Hc]. exists c. auto.
Qed.

Lemma languagesOf_elem_of cs l :
  l ∈ languagesOf cs <-> exists card, card ∈ cs /\ orElse (lang card) (js "en") = l.
Proof.
  unfold languagesOf. induction cs as [|card cs IH] using rev_ind.
  - split; [intros H; apply elem_of_nil in H; contradiction|].
    intros (c & Hc & _). apply elem_of_nil in Hc. contradiction.
  - rewrite foldl_app. cbn [foldl]. rewrite setAdd_elem_of, IH. split.
    + intros [(c & Hc & Hl)| ->].
      * exists c. split; [apply elem_of_app; left; exact Hc|exact Hl].
      * exists card. split; [apply elem_of_app; right; apply list_elem_of_here|reflexivity].
    + intros (c & Hc & Hl). apply elem_of_app in Hc as [Hc|Hc].
      * left. exists c. split; assumption.
      * apply list_elem_of_singleton in Hc. subst c. right. symmetry. exact Hl.
Qed.

Lemma languagesOf_NoDup cs : NoDup (languagesOf cs).
Proof.
  unfold languagesOf. induction cs as [|card cs IH] using rev_ind; [apply NoDup_nil_2|].
  rewrite foldl_app. cbn [foldl]. apply setAdd_NoDup, IH.
Qed.

Lemma foldl_setAdd_elem_of (fs s : list jsstring) f :
  f ∈ foldl setAdd s fs <-> f ∈ s \/ f ∈ fs.
Proof.
  revert s. induction fs as [|x fs IH]; intros s; cbn [foldl].
  - rewrite elem_of_nil. tauto.
  - rewrite IH, setAdd_elem_of, elem_of_cons. tauto.
Qed.

Lemma foldl_setAdd_NoDup (fs s : list jsstring) : NoDup s -> NoDup (foldl setAdd s fs).
Proof.
  revert s. induction fs as [|x fs IH]; intros s Hs; cbn [foldl]; [exact Hs|].
  apply IH, setAdd_NoDup, Hs.
Qed.

Lemma finishesOf_elem_of cs f :
  f ∈ finishesOf cs <->
  exists card fs, card ∈ cs /\ finishes card = Some fs /\ f ∈ fs.
Proof.
  unfold finishesOf. induction cs as [|card cs IH] using rev_ind.
  - split; [intros H; apply elem_of_nil in H; contradiction|].
    intros (c & fs & Hc & _). apply elem_of_nil in Hc. contradiction.
  - rewrite foldl_app. cbn [foldl]. rewrite foldl_setAdd_elem_of, IH. split.
    + intros [(c & fs & Hc & Hfs & Hf)|Hf].
      * exists c, fs. split; [apply elem_of_app; left; exact Hc|auto].
      * destruct (finishes card) as [fs|] eqn:Hfs; cbn [default] in Hf;
          [|apply elem_of_nil in Hf; contradiction].
        exists card, fs. split; [apply elem_of_app; right; apply list_elem_of_here|auto].
    + intros (c & fs & Hc & Hfs & Hf). apply elem_of_app in Hc as [Hc|Hc].
      * left. exists c, fs. auto.
      * apply list_elem_of_singleton in Hc. subst c. right. rewrite Hfs. exact Hf.
Qed.

Lemma finishesOf_NoDup cs : NoDup (finishesOf cs).
Proof.
  unfold finishesOf. induction cs as [|card cs IH] using rev_ind; [apply NoDup_nil_2|].
  rewrite foldl_app. cbn [foldl]. apply foldl_setAdd_NoDup, IH.
Qed.

Lemma defaultOf_elem_of preferred available x :
  defaultOf preferred available = Some x -> x ∈ available.
Proof.
  unfold defaultOf. case_bool_decide as Hp.
  - intros [= <-]. exact Hp.
  - apply head_Some_elem_of.
Qed.

Lemma defaultOf_is_Some preferred available :
  available <> [] -> is_Some (defaultOf preferred available).
Proof.
  intros Hne. unfold defaultOf. case_bool_decide; [eexists; reflexivity|].
  destruct available; [contradiction|]. eexists; reflexivity.
Qed.

Lemma languagesOf_nonempty card cs : languagesOf (card :: cs) <> [].
Proof.
  intros Hnil.
  assert (H : orElse (lang card) (js "en") ∈ languagesOf (card :: cs)).
  { apply languagesOf_elem_of. exists card. split; [apply list_elem_of_here|reflexivity]. }
  rewrite Hnil in H. apply elem_of_nil in H. exact H.
Qed.

Lemma autoResolve_version group st card :
  selectedCardVersion (autoResolve group st) = Some card -> card ∈ group.
Proof.
  unfold autoResolve. sel_fields. destruct (List.find _ group) as [c|] eqn:Hfind.
  - intros [= <-]. apply find_some in Hfind as [Hin _].
    apply list_elem_of_In. exact Hin.
  - apply head_Some_elem_of.
Qed.

Lemma autoResolve_consistent group st info :
  group <> [] ->
  selectedSet st = Some info ->
  selectedCollectorNumber st <> [] ->
  selectedCollectorNumber st ∈ availableCollectorNumbers st ->
  (forall card, card ∈ group -> belongs st card) ->
  (searchResults st <> [] ->
   uniqueSets st = processSearchResults localeCompare toLowerCase (searchResults st)) ->
  info ∈ uniqueSets st ->
  (forall n, n ∈ availableCollectorNumbers st -> n ∈ collectorNumbers info) ->
  consistent localeCompare toLowerCase (autoResolve group st).
Proof.
  intros Hne Hset Hnum Hav Hgroup H1 H2 H3.
  split; [exact H1|]. split; [|split; [|split]].
  - intros info' Hs _. change (selectedSet st = Some info') in Hs.
    replace info' with info by congruence. exact H2.
  - intros info' Hs. change (selectedSet st = Some info') in Hs.
    replace info' with info by congruence. exact H3.
  - intros card Hv. apply autoResolve_version in Hv.
    destruct (Hgroup card Hv) as (Hin & info' & Hs & Hk & Hn).
    split; [exact Hin|]. exists info'. auto.
  - intros _. split; [exact Hav|]. unfold autoResolve. sel_fields. split.
    + destruct group as [|card group]; [contradiction|].
      destruct (defaultOf_is_Some (js "en") (languagesOf (card :: group))
                  (languagesOf_nonempty card group)) as [l Hl].
      exists l. split; [exact Hl|]. eapply defaultOf_elem_of. exact Hl.
    + intros f Hf. eapply defaultOf_elem_of. exact Hf.
Qed.

Lemma gcv_cases st card :
  getCurrentCardVariant st = Some card ->
  (exists info, selectedSet st = Some info /\ card ∈ searchResults st /\
                exactMatch st info card = true) \/
  selectedCardVersion st = Some card.
Proof.
  unfold getCurrentCardVariant. destruct (selectedSet st) as [info|]; [|auto].
  destruct (_ && _ && _); [|auto].
  destruct (List.find _ (searchResults st)) as [c|] eqn:Hfind; [|auto].
  intros [= <-]. left. exists info. apply find_some in Hfind as [Hin Hm].
  split; [reflexivity|]. split; [apply list_elem_of_In; exact Hin|exact Hm].
Qed.

Lemma exactMatch_belongs st info card :
  selectedSet st = Some info -> card ∈ searchResults st ->
  exactMatch st info card = true -> belongs st card.
Proof.
  intros Hs Hin Hm. unfold exactMatch in Hm.
  rewrite !andb_true_iff, !bool_decide_eq_true in Hm.
  destruct Hm as [[[Hk Hn] _] _]. split; [exact Hin|]. exists info. auto.
Qed.

Lemma gcv_belongs st card :
  (forall c, selectedCardVersion st = Some c -> belongs st c) ->
  getCurrentCardVariant st = Some card -> belongs st card.
Proof.
  intros Hv Hg. destruct (gcv_cases st card Hg) as [(info & Hs & Hin & Hm)|H].
  - eapply exactMatch_belongs; eassumption.
  - apply Hv, H.
Qed.

Lemma languageOrFinish_version rendered st card :
  selectedCardVersion (handleLanguageOrFinishChange rendered st) = Some card ->
  getCurrentCardVariant rendered = Some card \/ selectedCardVersion st = Some card.
Proof.
  unfold handleLanguageOrFinishChange.
  destruct (selectedSet rendered), (selectedCollectorNumber rendered);
    try destruct (getCurrentCardVariant rendered); sel_fields; auto.
Qed.

Lemma languageOrFinish_fields rendered st :
  searchResults (handleLanguageOrFinishChange rendered st) = searchResults st /\
  uniqueSets (handleLanguageOrFinishChange rendered st) = uniqueSets st /\
  selectedSet (handleLanguageOrFinishChange rendered st) = selectedSet st /\
  availableCollectorNumbers (handleLanguageOrFinishChange rendered st)
    = availableCollectorNumbers st /\
  selectedCollectorNumber (handleLanguageOrFinishChange rendered st)
    = selectedCollectorNumber st /\
  selectedLanguage (handleLanguageOrFinishChange rendered st) = selectedLanguage st /\
  selectedFinish (handleLanguageOrFinishChange rendered st) = selectedFinish st /\
  availableLanguages (handleLanguageOrFinishChange rendered st) = availableLanguages st /\
  availableFinishes (handleLanguageOrFinishChange rendered st) = availableFinishes st.
Proof.
  unfold handleLanguageOrFinishChange.
  destruct (selectedSet rendered), (selectedCollectorNumber rendered);
    try destruct (getCurrentCardVariant rendered); repeat split.
Qed.

Lemma reset_consistent st :
  (searchResults st <> [] ->
   uniqueSets st = processSearchResults localeCompare toLowerCase (searchResults st)) ->
  consistent localeCompare toLowerCase (resetSelections st).
Proof.
  intros H1. split; [exact H1|]. split; [|split; [|split]].
  - intros info Hs. discriminate Hs.
  - intros info Hs. discriminate Hs.
  - intros card Hv. discriminate Hv.
  - intros Hn. contradiction.
Qed.

Lemma offered_number_card st info n :
  consistent localeCompare toLowerCase st ->
  searchResults st <> [] -> selectedSet st = Some info ->
  n ∈ collectorNumbers info -> info ∈ uniqueSets st ->
  matchingCardsOf st (code info) n <> [].
Proof.
  intros (H1 & _) Hres Hs Hn Hin Hnil.
  rewrite (H1 Hres) in Hin.
  destruct (process_number_has_card _ _ _ Hin Hn) as (c & Hc & Hk & Hcn).
  assert (Hm : c ∈ matchingCardsOf st (code info) n)
    by (apply matchingCardsOf_elem_of; auto).
  rewrite Hnil in Hm. apply elem_of_nil in Hm. exact Hm.
Qed.

Lemma ui_step_consistent st op :
  sel_inv st -> consistent localeCompare toLowerCase st ->
  consistent localeCompare toLowerCase (ui_step localeCompare toLowerCase st op).
Proof.
  intros (Hwf & Hav & Hsets) Hc. pose proof Hc as (H1 & H2 & H3 & H4 & H5).
  unfold ui_step. destruct (offered st op) eqn:Hoff; [|exact Hc].
  destruct op as [response| |newValue|setCode|number|v|v]; cbn [handle].
  - unfold performSearch. destruct response as [[|card cs]|].
    + split; [intros Hx; contradiction|]. split; [intros info _ Hx; contradiction|].
      split; [exact H3|]. split; [intros c Hx; discriminate Hx|exact H5].
    + apply reset_consistent. sel_fields. intros _. reflexivity.
    + split; [intros Hx; contradiction|]. split; [intros info _ Hx; contradiction|].
      split; [exact H3|]. split; [intros c Hx; discriminate Hx|exact H5].
  - unfold Selector.handleClear. apply reset_consistent. sel_fields.
    intros Hx; contradiction.
  - unfold clearOnTyping. case_bool_decide; [|exact Hc].
    destruct (searchResults st) eqn:Hres; [exact Hc|].
    apply reset_consistent. sel_fields. intros Hx; contradiction.
  - cbn [offered] in Hoff. apply andb_true_iff in Hoff as [Hres Hin].
    apply nonEmpty_ne in Hres. apply bool_decide_eq_true in Hin.
    destruct (find_code_offered _ _ Hin) as (info & Hfind & Hinfo).
    unfold handleSetSelect. rewrite Hfind. cbv zeta.
    assert (Hperm : forall n, n ∈ sortCollectorNumbers localeCompare (collectorNumbers info)
                              <-> n ∈ collectorNumbers info)
      by (intros n; apply sortBy_elem_of).
    destruct (head _) as [[|c lowest]|] eqn:Hhead.
    + split; [exact H1|]. split; [|split; [|split]].
      * intros info' [= <-] _. exact Hinfo.
      * intros info' [= <-] n Hn. apply Hperm, Hn.
      * intros card Hv. discriminate Hv.
      * intros Hn. contradiction.
    + pose proof (head_Some_elem_of _ _ Hhead) as Hlow.
      assert (Hmatch : matchingCardsOf st (code info) (c :: lowest) <> []).
      { intros Hnil. rewrite (H1 Hres) in Hinfo.
        destruct (process_number_has_card _ _ _ Hinfo (proj1 (Hperm _) Hlow))
          as (card & Hcard & Hk & Hcn).
        assert (Hm : card ∈ matchingCardsOf st (code info) (c :: lowest))
          by (apply matchingCardsOf_elem_of; auto).
        rewrite Hnil in Hm. apply elem_of_nil in Hm. exact Hm. }
      destruct (matchingCardsOf st (code info) (c :: lowest)) as [|card group] eqn:Hg;
        [contradiction|].
      apply (autoResolve_consistent _ _ info); sel_fields;
        try assumption; try reflexivity; try discriminate.
      * intros card' Hin'. rewrite <- Hg in Hin'.
        apply matchingCardsOf_elem_of in Hin' as (Hr & Hk & Hn).
        split; [exact Hr|]. exists info. auto.
      * intros n Hn. apply Hperm, Hn.
    + split; [exact H1|]. split; [|split; [|split]].
      * intros info' [= <-] _. exact Hinfo.
      * intros info' [= <-] n Hn. apply Hperm, Hn.
      * intros card Hv. discriminate Hv.
      * intros Hn. contradiction.
  - cbn [offered] in Hoff. apply andb_true_iff in Hoff as [Hoff Hin].
    apply andb_true_iff in Hoff as [Hres Hset].
    apply nonEmpty_ne in Hres. apply bool_decide_eq_true in Hin, Hset.
    destruct Hset as [info Hset].
    assert (Hne : number <> []) by (intros ->; contradiction).
    unfold handleCollectorNumberSelect. rewrite Hset.
    destruct number as [|c number]; [contradiction|].
    pose proof (offered_number_card st info (c :: number) Hc Hres Hset
                  (H3 _ Hset _ Hin) (H2 _ Hset Hres)) as Hmatch.
    destruct (matchingCardsOf st (code info) (c :: number)) as [|card group] eqn:Hg;
      [contradiction|].
    apply (autoResolve_consistent _ _ info); sel_fields;
      try assumption; try discriminate.
    + intros card' Hin'. rewrite <- Hg in Hin'.
      apply matchingCardsOf_elem_of in Hin' as (Hr & Hk & Hn).
      split; [exact Hr|]. exists info. auto.
    + apply H2; assumption.
    + apply H3. exact Hset.
  - cbn [offered] in Hoff. apply andb_true_iff in Hoff as [Hoff Hin].
    apply andb_true_iff in Hoff as [_ Hnum].
    apply nonEmpty_ne in Hnum. apply bool_decide_eq_true in Hin.
    unfold changeLanguage.
    destruct (languageOrFinish_fields st (setSelectedLanguage (Some v) st))
      as (E1 & E2 & E3 & E4 & E5 & E6 & E7 & E8 & E9).
    unfold consistent, belongs. rewrite E1, E2, E3, E4, E5, E6, E7, E8, E9. sel_fields.
    split; [exact H1|]. split; [exact H2|]. split; [exact H3|]. split.
    + intros card Hv. apply languageOrFinish_version in Hv as [Hv|Hv].
      * apply (gcv_belongs st card H4 Hv).
      * apply H4. exact Hv.
    + intros _. destruct (H5 Hnum) as (Ha & _ & Hf).
      split; [exact Ha|]. split; [exists v; auto|exact Hf].
  - cbn [offered] in Hoff. apply andb_true_iff in Hoff as [Hoff Hin].
    apply andb_true_iff in Hoff as [_ Hnum].
    apply nonEmpty_ne in Hnum. apply bool_decide_eq_true in Hin.
    unfold changeFinish.
    destruct (languageOrFinish_fields st (setSelectedFinish (Some v) st))
      as (E1 & E2 & E3 & E4 & E5 & E6 & E7 & E8 & E9).
    unfold consistent, belongs. rewrite E1, E2, E3, E4, E5, E6, E7, E8, E9. sel_fields.
    split; [exact H1|]. split; [exact H2|]. split; [exact H3|]. split.
    + intros card Hv. apply languageOrFinish_version in Hv as [Hv|Hv].
      * apply (gcv_belongs st card H4 Hv).
      * apply H4. exact Hv.
    + intros _. destruct (H5 Hnum) as (Ha & Hl & _).
      split; [exact Ha|]. split; [exact Hl|]. intros f [= <-]. exact Hin.
Qed.

Lemma ui_run_consistent ops :
  consistent localeCompare toLowerCase
    (ui_run localeCompare toLowerCase ops sel_init).
Proof.
  unfold ui_run. induction ops as [|op ops IH] using rev_ind.
  - split; [intros H; contradiction|]. split; [intros info H; discriminate H|].
    split; [intros info H; discriminate H|].
    split; [intros c H; discriminate H|intros H; contradiction].
  - rewrite foldl_app. cbn [foldl]. apply ui_step_consistent; [|exact IH].
    apply ui_run_inv.
Qed.

End ConsistencyFacts.

Section SelectorTheorems.
Variable localeCompare : jsstring -> jsstring -> Z.
Variable toLowerCase : jsstring -> jsstring.
Implicit Types (st : Selection) (card : Card) (info : SetInfo).

Lemma autoResolve_resolves card group st :
  exists c, selectedCardVersion (autoResolve (card :: group) st) = Some c /\
            c ∈ card :: group.
Proof.
  assert (H : is_Some (selectedCardVersion (autoResolve (card :: group) st))).
  { unfold autoResolve. sel_fields. destruct (List.find _ _); eexists; reflexivity. }
  destruct H as [c Hc]. exists c. split; [exact Hc|].
  eapply autoResolve_version. exact Hc.
Qed.

(** What [handleSetSelect] does with a set the view offers. *)
Lemma handleSetSelect_offered st setCode :
  sel_inv st -> consistent localeCompare toLowerCase st ->
  offered st (OpSet setCode) = true ->
  exists info,
    List.find (fun set => bool_decide (code set = setCode)) (uniqueSets st) = Some info /\
    info ∈ uniqueSets st /\ code info = setCode /\
    let numbers := sortCollectorNumbers localeCompare (collectorNumbers info) in
    match numbers with
    | [] =>
        handleSetSelect localeCompare setCode st =
          setAvailableFinishes []
            (setAvailableLanguages []
               (setSelectedFinish (Some (js "nonfoil"))
                  (setSelectedLanguage (Some (js "en"))
                     (setSelectedCardVersion None
                        (setSelectedCollectorNumber []
                           (setAvailableCollectorNumbers []
                              (setSelectedSet (Some info) st)))))))
    | lowest :: _ =>
        lowest <> [] /\
        exists card group,
          matchingCardsOf st (code info) lowest = card :: group /\
          handleSetSelect localeCompare setCode st =
            autoResolve (card :: group)
              (setSelectedCollectorNumber lowest
                 (setAvailableCollectorNumbers numbers
                    (setSelectedSet (Some info) st)))
    end.
Proof.
  intros (Hwf & Hav & Hsets) Hc Hoff. pose proof Hc as (H1 & _).
  cbn [offered] in Hoff. apply andb_true_iff in Hoff as [Hres Hin].
  apply nonEmpty_ne in Hres. apply bool_decide_eq_true in Hin.
  destruct (find_code_offered _ _ Hin) as (info & Hfind & Hinfo).
  exists info. split; [exact Hfind|]. split; [exact Hinfo|]. split.
  { apply find_some in Hfind as [_ Hk]. apply bool_decide_eq_true in Hk. exact Hk. }
  cbv zeta. unfold handleSetSelect. rewrite Hfind. cbv zeta.
  assert (Hperm : forall n, n ∈ sortCollectorNumbers localeCompare (collectorNumbers info)
                            <-> n ∈ collectorNumbers info)
    by (intros n; apply sortBy_elem_of).
  destruct (sortCollectorNumbers localeCompare (collectorNumbers info))
    as [|lowest rest] eqn:Hsorted; cbn [head].
  - reflexivity.
  - assert (Hlow : lowest ∈ collectorNumbers info)
      by (apply Hperm; apply list_elem_of_here).
    assert (Hne : lowest <> []).
    { intros ->. rewrite Forall_forall in Hsets. apply (Hsets info Hinfo). exact Hlow. }
    split; [exact Hne|].
    destruct lowest as [|c lowest]; [contradiction|].
    assert (Hmatch : matchingCardsOf st (code info) (c :: lowest) <> []).
    { intros Hnil. rewrite (H1 Hres) in Hinfo.
      destruct (process_number_has_card _ _ _ _ _ Hinfo Hlow) as (card & Hcard & Hk & Hcn).
      assert (Hm : card ∈ matchingCardsOf st (code info) (c :: lowest))
        by (apply matchingCardsOf_elem_of; auto).
      rewrite Hnil in Hm. apply elem_of_nil in Hm. exact Hm. }
    destruct (matchingCardsOf st (code info) (c :: lowest)) as [|card group] eqn:Hg;
      [contradiction|].
    exists card, group. split; reflexivity.
Qed.

(** What [handleCollectorNumberSelect] does with a number the view
    offers. *)
Lemma handleCollectorNumberSelect_offered st number :
  sel_inv st -> consistent localeCompare toLowerCase st ->
  offered st (OpNumber number) = true ->
  exists info card group,
    selectedSet st = Some info /\ number <> [] /\
    matchingCardsOf st (code info) number = card :: group /\
    handleCollectorNumberSelect number st =
      autoResolve (card :: group) (setSelectedCollectorNumber number st).
Proof.
  intros (Hwf & Hav & Hsets) Hc Hoff. pose proof Hc as (H1 & H2 & H3 & _).
  cbn [offered] in Hoff. apply andb_true_iff in Hoff as [Hoff Hin].
  apply andb_true_iff in Hoff as [Hres Hset].
  apply nonEmpty_ne in Hres. apply bool_decide_eq_true in Hin, Hset.
  destruct Hset as [info Hset].
  assert (Hne : number <> []) by (intros ->; contradiction).
  pose proof (offered_number_card _ _ st info number Hc Hres Hset
                (H3 _ Hset _ Hin) (H2 _ Hset Hres)) as Hmatch.
  destruct (matchingCardsOf st (code info) number) as [|card group] eqn:Hg;
    [contradiction|].
  exists info, card, group. split; [exact Hset|]. split; [exact Hne|].
  split; [exact Hg|].
  unfold handleCollectorNumberSelect. rewrite Hset, Hg.
  destruct number; [contradiction|]. reflexivity.
Qed.

(** X4: while the view drives the selection, the resolved card that is
    stored and the variant that is displayed are cards of the search
    results with the selected set's code and the selected collector
    number. *)
Theorem resolved_card_belongs :
  forall ops card,
    let st := ui_run localeCompare toLowerCase ops sel_init in
    selectedCardVersion st = Some card \/ getCurrentCardVariant st = Some card ->
    card ∈ searchResults st /\
    exists info, selectedSet st = Some info /\ setKey card = code info /\
                 cleanCollectorNumber card = selectedCollectorNumber st.
Proof.
  intros ops card st Hcard.
  destruct (ui_run_consistent localeCompare toLowerCase ops) as (_ & _ & _ & H4 & _).
  fold st in H4. destruct Hcard as [Hv|Hg].
  - apply H4, Hv.
  - apply (gcv_belongs st card H4 Hg).
Qed.

(** X5: while the view drives the selection, what is selected is among
    what is offered: the selected set is one of the groups of the
    results shown, and once a collector number is selected it is one of
    the offered numbers, the selected language is one of the offered
    languages, and the selected finish, if there is one, is one of the
    offered finishes. *)
Theorem selection_among_options :
  forall ops,
    let st := ui_run localeCompare toLowerCase ops sel_init in
    (forall info, selectedSet st = Some info -> searchResults st <> [] ->
       info ∈ uniqueSets st) /\
    (selectedCollectorNumber st <> [] ->
       selectedCollectorNumber st ∈ availableCollectorNumbers st /\
       (exists l, selectedLanguage st = Some l /\ l ∈ availableLanguages st) /\
       (forall f, selectedFinish st = Some f -> f ∈ availableFinishes st)).
Proof.
  intros ops st.
  destruct (ui_run_consistent localeCompare toLowerCase ops) as (_ & H2 & _ & _ & H5).
  split; assumption.
Qed.

(** X6: choosing an offered set selects that set, offers its collector
    numbers, and, when it has any, selects the first of them and
    resolves a card of that set and number; choosing an offered
    collector number selects it and resolves a card with that number.
    The resolution never comes back empty. *)
Theorem choosing_offered_resolves :
  forall ops,
    let st := ui_run localeCompare toLowerCase ops sel_init in
    (forall setCode,
       offered st (OpSet setCode) = true ->
       let st' := ui_step localeCompare toLowerCase st (OpSet setCode) in
       exists info,
         selectedSet st' = Some info /\ code info = setCode /\ info ∈ uniqueSets st /\
         availableCollectorNumbers st' ≡ₚ collectorNumbers info /\
         (collectorNumbers info = [] -> selectedCollectorNumber st' = [] /\
                                        selectedCardVersion st' = None) /\
         (collectorNumbers info <> [] ->
          head (availableCollectorNumbers st') = Some (selectedCollectorNumber st') /\
          exists card, selectedCardVersion st' = Some card /\
                       card ∈ searchResults st /\ setKey card = setCode /\
                       cleanCollectorNumber card = selectedCollectorNumber st')) /\
    (forall number,
       offered st (OpNumber number) = true ->
       let st' := ui_step localeCompare toLowerCase st (OpNumber number) in
       selectedCollectorNumber st' = number /\
       selectedSet st' = selectedSet st /\
       exists card, selectedCardVersion st' = Some card /\
                    card ∈ searchResults st /\
                    cleanCollectorNumber card = number).
Proof.
  intros ops st.
  pose proof (ui_run_inv localeCompare toLowerCase ops) as Hinv.
  pose proof (ui_run_consistent localeCompare toLowerCase ops) as Hc.
  fold st in Hinv, Hc. split.
  - intros setCode Hoff st'. subst st'. unfold ui_step. rewrite Hoff. cbn [handle].
    destruct (handleSetSelect_offered st setCode Hinv Hc Hoff)
      as (info & Hfind & Hinfo & Hcode & Hcase).
    exists info. cbv zeta in Hcase.
    assert (Hperm : sortCollectorNumbers localeCompare (collectorNumbers info)
                    ≡ₚ collectorNumbers info) by apply sortBy_perm.
    destruct (sortCollectorNumbers localeCompare (collectorNumbers info))
      as [|lowest rest] eqn:Hsorted.
    + rewrite Hcase. sel_fields.
      split; [reflexivity|]. split; [exact Hcode|]. split; [exact Hinfo|].
      split; [exact Hperm|]. split; [intros _; split; reflexivity|].
      intros Hne. exfalso. apply Hne. symmetry in Hperm.
      apply Permutation_nil_r in Hperm. exact Hperm.
    + destruct Hcase as (Hlow & card & group & Hg & ->).
      destruct (autoResolve_resolves card group
                  (setSelectedCollectorNumber lowest
                     (setAvailableCollectorNumbers (lowest :: rest)
                        (setSelectedSet (Some info) st)))) as (c & Hv & Hin).
      split; [reflexivity|]. split; [exact Hcode|]. split; [exact Hinfo|].
      split; [exact Hperm|]. split.
      * intros Hnil. rewrite Hnil in Hperm. apply Permutation_nil_r in Hperm.
        discriminate Hperm.
      * intros _. split; [reflexivity|]. exists c. split; [exact Hv|].
        rewrite <- Hg in Hin. apply matchingCardsOf_elem_of in Hin as (Hr & Hk & Hn).
        split; [exact Hr|]. split; [congruence|exact Hn].
  - intros number Hoff st'. subst st'. unfold ui_step. rewrite Hoff. cbn [handle].
    destruct (handleCollectorNumberSelect_offered st number Hinv Hc Hoff)
      as (info & card & group & Hset & Hne & Hg & ->).
    destruct (autoResolve_resolves card group (setSelectedCollectorNumber number st))
      as (c & Hv & Hin).
    split; [reflexivity|]. split; [reflexivity|].
    exists c. split; [exact Hv|].
    rewrite <- Hg in Hin. apply matchingCardsOf_elem_of in Hin as (Hr & _ & Hn).
    split; assumption.
Qed.

(** X7: choosing an offered set whose collector numbers all parse as
    integers, of at most 2^52 in magnitude, selects a number that is
    numerically the smallest of them. *)
Theorem chosen_number_is_lowest :
  forall ops setCode info,
    let st := ui_run localeCompare toLowerCase ops sel_init in
    offered st (OpSet setCode) = true ->
    List.find (fun set => bool_decide (code set = setCode)) (uniqueSets st) = Some info ->
    collectorNumbers info <> [] ->
    Forall (fun n => is_Some (parseInt n) /\ exactInteger n) (collectorNumbers info) ->
    let chosen := selectedCollectorNumber
                    (ui_step localeCompare toLowerCase st (OpSet setCode)) in
    chosen ∈ collectorNumbers info /\
    forall n, n ∈ collectorNumbers info ->
      (default 0 (parseInt chosen) <= default 0 (parseInt n))%Z.
Proof.
  intros ops setCode info st Hoff Hfind Hne Hall chosen.
  pose proof (ui_run_inv localeCompare toLowerCase ops) as Hinv.
  pose proof (ui_run_consistent localeCompare toLowerCase ops) as Hc.
  fold st in Hinv, Hc.
  destruct (handleSetSelect_offered st setCode Hinv Hc Hoff)
    as (info' & Hfind' & _ & _ & Hcase).
  rewrite Hfind in Hfind'. injection Hfind' as <-. cbv zeta in Hcase.
  assert (Hsorted : StronglySorted
            (fun a b => (default 0 (parseInt a) <= default 0 (parseInt b))%Z)
            (sortCollectorNumbers localeCompare (collectorNumbers info))).
  { unfold sortCollectorNumbers.
    apply (sortBy_sorted _ (fun v => default 0%Z (parseInt v))).
    intros a b Ha Hb. rewrite Forall_forall in Hall.
    destruct (Hall a Ha) as [[x Hx] _]. destruct (Hall b Hb) as [[y Hy] _].
    unfold collectorCompare. rewrite Hx, Hy. reflexivity. }
  assert (Hperm : sortCollectorNumbers localeCompare (collectorNumbers info)
                  ≡ₚ collectorNumbers info) by apply sortBy_perm.
  destruct (sortCollectorNumbers localeCompare (collectorNumbers info))
    as [|lowest rest] eqn:Hs.
  - symmetry in Hperm. apply Permutation_nil_r in Hperm. contradiction.
  - destruct Hcase as (_ & card & group & _ & Heq).
    assert (Hchosen : chosen = lowest).
    { subst chosen. unfold ui_step. rewrite Hoff. cbn [handle]. rewrite Heq. reflexivity. }
    rewrite Hchosen. split.
    + rewrite <- Hperm. apply list_elem_of_here.
    + intros n Hn. rewrite <- Hperm in Hn.
      apply StronglySorted_cons in Hsorted as [Hle _].
      apply elem_of_cons in Hn as [->|Hn]; [lia|].
      rewrite Forall_forall in Hle. apply Hle, Hn.
Qed.

(** X8: changing the language through the view stores the new language
    and leaves set, collector number and finish alone; the card it
    stores is the variant that was displayed before the change (the
    callback reads the language of the render it was created in), and a
    stored card is never cleared. The variant displayed afterwards is a
    card in the new language and the selected finish whenever the
    results hold one for the selected set and number. *)
Theorem language_change_stores_previous_variant :
  forall ops v,
    let st := ui_run localeCompare toLowerCase ops sel_init in
    offered st (OpLanguage v) = true ->
    let st' := ui_step localeCompare toLowerCase st (OpLanguage v) in
    selectedLanguage st' = Some v /\
    selectedSet st' = selectedSet st /\
    selectedCollectorNumber st' = selectedCollectorNumber st /\
    selectedFinish st' = selectedFinish st /\
    selectedCardVersion st' = getCurrentCardVariant st /\
    (is_Some (selectedCardVersion st) -> is_Some (selectedCardVersion st')) /\
    (forall info card,
       selectedSet st = Some info -> card ∈ searchResults st ->
       exactMatch st' info card = true -> v <> [] ->
       (exists f, selectedFinish st = Some f /\ f <> []) ->
       exists shown, getCurrentCardVariant st' = Some shown /\
                     lang shown = Some v /\
                     finishMatch (selectedFinish st) shown = true).
Proof.
  intros ops v st Hoff st'.
  pose proof (ui_run_inv localeCompare toLowerCase ops) as (Hwf & _).
  fold st in Hwf.
  pose proof Hoff as Hoff'. cbn [offered] in Hoff'.
  apply andb_true_iff in Hoff' as [Hoff' _]. apply andb_true_iff in Hoff' as [_ Hnum].
  apply nonEmpty_ne in Hnum. destruct Hwf as (Hset & _).
  destruct (Hset Hnum) as [info0 Hinfo0].
  assert (Hst' : st' = handleLanguageOrFinishChange st (setSelectedLanguage (Some v) st)).
  { subst st'. unfold ui_step. rewrite Hoff. reflexivity. }
  destruct (languageOrFinish_fields st (setSelectedLanguage (Some v) st))
    as (E1 & _ & E3 & _ & E5 & E6 & E7 & _).
  rewrite <- Hst' in E1, E3, E5, E6, E7. sel_fields.
  assert (Hver : selectedCardVersion st' = getCurrentCardVariant st).
  { rewrite Hst'. unfold handleLanguageOrFinishChange. rewrite Hinfo0.
    destruct (selectedCollectorNumber st) as [|c cn] eqn:Hcn; [contradiction|].
    destruct (getCurrentCardVariant st) as [cur|] eqn:Hcur; [reflexivity|].
    sel_fields. unfold getCurrentCardVariant in Hcur. rewrite Hinfo0 in Hcur.
    destruct (_ && _ && _); [|exact Hcur].
    destruct (List.find _ (searchResults st)); [discriminate|exact Hcur]. }
  split; [exact E6|]. split; [exact E3|]. split; [exact E5|]. split; [exact E7|].
  split; [exact Hver|]. split.
  - rewrite Hver. intros [c Hc]. unfold getCurrentCardVariant. rewrite Hinfo0.
    destruct (_ && _ && _); [|rewrite Hc; eexists; reflexivity].
    destruct (List.find _ (searchResults st)); [|rewrite Hc]; eexists; reflexivity.
  - intros info card Hinfo Hcard Hmatch Hv (f & Hf & Hfne).
    unfold getCurrentCardVariant. rewrite E3, Hinfo, E5, E6, E7, E1, Hf.
    destruct (selectedCollectorNumber st) as [|c cn] eqn:Hcn; [contradiction|].
    destruct v as [|cv v]; [contradiction|]. destruct f as [|cf f]; [contradiction|].
    cbn [nonEmpty Selector.truthy andb].
    unfold exactMatch in Hmatch. rewrite E5, E6, E7, Hf in Hmatch.
    unfold setKey in Hmatch.
    destruct (List.find _ (searchResults st)) as [shown|] eqn:Hfind.
    + exists shown. split; [reflexivity|].
      apply find_some in Hfind as [_ Hm]. rewrite !andb_true_iff in Hm.
      destruct Hm as [[_ Hl] Hfm]. unfold langMatch in Hl.
      apply bool_decide_eq_true in Hl. split; [exact Hl|exact Hfm].
    + exfalso. rewrite find_none_iff in Hfind.
      rewrite (Hfind card Hcard) in Hmatch. discriminate Hmatch.
Qed.

End SelectorTheorems.

Lemma resolved_card_belongs_witness :
  let st := ui_run lexCompare (fun s => s) chosenOps sel_init in
  (selectedCardVersion st = Some cardJaNonfoil \/
   getCurrentCardVariant st = Some cardJaNonfoil) /\
  cardJaNonfoil ∈ searchResults st /\
  exists info, selectedSet st = Some info /\ setKey cardJaNonfoil = code info /\
               cleanCollectorNumber cardJaNonfoil = selectedCollectorNumber st.
Proof.
  intros st.
  assert (H : selectedCardVersion st = Some cardJaNonfoil) by (vm_compute; reflexivity).
  exact (conj (or_introl H)
           (resolved_card_belongs lexCompare (fun s => s) chosenOps cardJaNonfoil
              (or_introl H))).
Defined.

Lemma selection_among_options_witness :
  let st := ui_run lexCompare (fun s => s) chosenOps sel_init in
  (selectedSet st = Some sampleGroup /\ searchResults st <> [] /\
   selectedCollectorNumber st <> []) /\
  sampleGroup ∈ uniqueSets st /\
  selectedCollectorNumber st ∈ availableCollectorNumbers st /\
  (exists l, selectedLanguage st = Some l /\ l ∈ availableLanguages st) /\
  (forall f, selectedFinish st = Some f -> f ∈ availableFinishes st).
Proof.
  intros st.
  assert (H1 : selectedSet st = Some sampleGroup) by (vm_compute; reflexivity).
  assert (H2 : searchResults st <> []) by (vm_compute; discriminate).
  assert (H3 : selectedCollectorNumber st <> []) by (vm_compute; discriminate).
  pose proof (selection_among_options lexCompare (fun s => s) chosenOps) as (Ha & Hb).
  exact (conj (conj H1 (conj H2 H3)) (conj (Ha _ H1 H2) (Hb H3))).
Defined.

Lemma choosing_offered_resolves_witness :
  let searched := ui_run lexCompare (fun s => s) searchedOps sel_init in
  let chosen := ui_run lexCompare (fun s => s) chosenOps sel_init in
  (offered searched (OpSet (js "m11")) = true /\
   offered chosen (OpNumber (js "150")) = true) /\
  (let st' := ui_step lexCompare (fun s => s) searched (OpSet (js "m11")) in
   exists info,
     selectedSet st' = Some info /\ code info = js "m11" /\ info ∈ uniqueSets searched /\
     availableCollectorNumbers st' ≡ₚ collectorNumbers info /\
     (collectorNumbers info = [] -> selectedCollectorNumber st' = [] /\
                                    selectedCardVersion st' = None) /\
     (collectorNumbers info <> [] ->
      head (availableCollectorNumbers st') = Some (selectedCollectorNumber st') /\
      exists card, selectedCardVersion st' = Some card /\
                   card ∈ searchResults searched /\ setKey card = js "m11" /\
                   cleanCollectorNumber card = selectedCollectorNumber st')) /\
  (let st' := ui_step lexCompare (fun s => s) chosen (OpNumber (js "150")) in
   selectedCollectorNumber st' = js "150" /\
   selectedSet st' = selectedSet chosen /\
   exists card, selectedCardVersion st' = Some card /\
                card ∈ searchResults chosen /\
                cleanCollectorNumber card = js "150").
Proof.
  intros searched chosen.
  assert (H1 : offered searched (OpSet (js "m11")) = true) by (vm_compute; reflexivity).
  assert (H2 : offered chosen (OpNumber (js "150")) = true) by (vm_compute; reflexivity).
  exact (conj (conj H1 H2)
           (conj (proj1 (choosing_offered_resolves lexCompare (fun s => s) searchedOps)
                    (js "m11") H1)
                 (proj2 (choosing_offered_resolves lexCompare (fun s => s) chosenOps)
                    (js "150") H2))).
Defined.

Lemma chosen_number_is_lowest_witness :
  let st := ui_run lexCompare (fun s => s) searchedOps sel_init in
  (offered st (OpSet (js "m11")) = true /\
   List.find (fun set => bool_decide (code set = js "m11")) (uniqueSets st)
     = Some sampleGroup /\
   collectorNumbers sampleGroup <> [] /\
   Forall (fun n => is_Some (parseInt n) /\ exactInteger n)
          (collectorNumbers sampleGroup)) /\
  let chosen := selectedCollectorNumber
                  (ui_step lexCompare (fun s => s) st (OpSet (js "m11"))) in
  chosen ∈ collectorNumbers sampleGroup /\
  forall n, n ∈ collectorNumbers sampleGroup ->
    (default 0 (parseInt chosen) <= default 0 (parseInt n))%Z.
Proof.
  intros st.
  assert (H1 : offered st (OpSet (js "m11")) = true) by (vm_compute; reflexivity).
  assert (H2 : List.find (fun set => bool_decide (code set = js "m11")) (uniqueSets st)
               = Some sampleGroup) by (vm_compute; reflexivity).
  assert (H3 : collectorNumbers sampleGroup <> []) by discriminate.
  assert (H4 : Forall (fun n => is_Some (parseInt n) /\ exactInteger n)
                      (collectorNumbers sampleGroup))
    by (repeat constructor; try (eexists; reflexivity);
        intros z [= <-]; vm_compute; discriminate).
  exact (conj (conj H1 (conj H2 (conj H3 H4)))
           (chosen_number_is_lowest lexCompare (fun s => s) searchedOps (js "m11")
              sampleGroup H1 H2 H3 H4)).
Defined.

Lemma language_change_stores_previous_variant_witness :
  let st := ui_run lexCompare (fun s => s) chosenOps sel_init in
  let st' := ui_step lexCompare (fun s => s) st (OpLanguage (js "ja")) in
  (offered st (OpLanguage (js "ja")) = true /\
   is_Some (selectedCardVersion st) /\
   selectedSet st = Some sampleGroup /\ cardJaNonfoil ∈ searchResults st /\
   exactMatch st' sampleGroup cardJaNonfoil = true /\ js "ja" <> [] /\
   (exists f, selectedFinish st = Some f /\ f <> [])) /\
  selectedLanguage st' = Some (js "ja") /\
  selectedCardVersion st' = getCurrentCardVariant st /\
  is_Some (selectedCardVersion st') /\
  exists shown, getCurrentCardVariant st' = Some shown /\
                lang shown = Some (js "ja") /\
                finishMatch (selectedFinish st) shown = true.
Proof.
  intros st st'.
  assert (H1 : offered st (OpLanguage (js "ja")) = true) by (vm_compute; reflexivity).
  assert (H2 : is_Some (selectedCardVersion st))
    by (exists cardJaNonfoil; vm_compute; reflexivity).
  assert (H3 : selectedSet st = Some sampleGroup) by (vm_compute; reflexivity).
  assert (H4 : cardJaNonfoil ∈ searchResults st) by apply list_elem_of_here.
  assert (H5 : exactMatch st' sampleGroup cardJaNonfoil = true)
    by (vm_compute; reflexivity).
  assert (H6 : js "ja" <> []) by discriminate.
  assert (H7 : exists f, selectedFinish st = Some f /\ f <> [])
    by (exists (js "nonfoil"); split; [vm_compute; reflexivity|discriminate]).
  pose proof (language_change_stores_previous_variant lexCompare (fun s => s)
                chosenOps (js "ja") H1) as (Ha & _ & _ & _ & Hb & Hc & Hd).
  exact (conj (conj H1 (conj H2 (conj H3 (conj H4 (conj H5 (conj H6 H7))))))
           (conj Ha (conj Hb (conj (Hc H2) (Hd _ _ H3 H4 H5 H6 H7))))).
Defined.

(** ** Suggestion cache and scheduler *)

Import Traffic.

Section TrafficFacts.
Implicit Types (st : State) (q : jsstring).

Lemma remove_first_Forall (P : jsstring -> Prop) q l :
  Forall P l -> Forall P (remove_first q l).
Proof.
  induction 1 as [|x l Hx Hl IH]; cbn [remove_first]; [constructor|].
  case_bool_decide; [exact Hl|]. constructor; assumption.
Qed.

Lemma start_longQueries q st : longQueries st -> longQueries (fetchAutocomplete_start q st).
Proof.
  intros [Hfl Hkeys]. unfold fetchAutocomplete_start, longQueries. fields.
  destruct (Nat.ltb_spec (length q) 3) as [Hlt|Hge]; fields; [split; assumption|].
  destruct (map_has q (cacheRef st)) eqn:Hhas; fields.
  - split; [exact Hfl|]. rewrite hit_cache, fmap_app, map_delete_keys.
    apply Forall_app. split; [|repeat constructor; exact Hge].
    apply Forall_forall. intros k Hk. apply list_elem_of_filter in Hk as [_ Hk].
    rewrite Forall_forall in Hkeys. apply Hkeys, Hk.
  - split; [|exact Hkeys]. apply Forall_app. split; [exact Hfl|].
    repeat constructor. exact Hge.
Qed.

Lemma resume_longQueries q outcome st :
  3 <= length q -> longQueries st -> longQueries (fetchAutocomplete_resume q outcome st).
Proof.
  intros Hq [Hfl Hkeys]. destruct outcome as [results|]; [|split; assumption].
  unfold fetchAutocomplete_resume, longQueries. fields.
  set (cache1 := if maxCacheSize <=? length (cacheRef st) then _ else _).
  assert (H1 : Forall (fun k => 3 <= length k) (cache1.*1)).
  { subst cache1. destruct (maxCacheSize <=? length (cacheRef st)); [|exact Hkeys].
    destruct (map_firstKey (cacheRef st)); [|exact Hkeys].
    rewrite map_delete_keys. apply Forall_forall. intros k Hk.
    apply list_elem_of_filter in Hk as [_ Hk].
    rewrite Forall_forall in Hkeys. apply Hkeys, Hk. }
  split.
  - destruct (map_has q cache1); exact Hfl.
  - destruct (map_has q cache1) eqn:Hhas; fields.
    + rewrite map_set_keys_present by (apply map_has_true; exact Hhas). exact H1.
    + rewrite map_set_absent by (apply map_has_false; exact Hhas).
      rewrite fmap_app. apply Forall_app. split; [exact H1|].
      repeat constructor. exact Hq.
Qed.

Lemma step_longQueries st e : longQueries st -> longQueries (step st e).
Proof.
  intros Hl. destruct e as [v| |d|q outcome]; cbn [step].
  - unfold handleAutocompleteChange. destruct (nonEmpty v); [|exact Hl].
    unfold longQueries.
    destruct (debounced_fields v (setSearchTerm v st)) as (_ & -> & _ & -> & _).
    exact Hl.
  - unfold Suggest.handleClear, longQueries.
    destruct (clearPending_fields (setSuggestions [] (setSearchTerm [] st)))
      as (_ & _ & _ & -> & _).
    destruct (clearPending_cache (setSuggestions [] (setSearchTerm [] st))) as [-> _].
    exact Hl.
  - unfold advance, fire. apply foldl_start_inv; [apply start_longQueries|exact Hl].
  - unfold respond. case_bool_decide as Hin; [|exact Hl].
    destruct Hl as [Hfl Hkeys]. apply resume_longQueries.
    + rewrite Forall_forall in Hfl. apply Hfl, Hin.
    + split; [apply remove_first_Forall; exact Hfl|exact Hkeys].
Qed.

Lemma run_longQueries evs : longQueries (run evs init).
Proof.
  unfold run. induction evs as [|e evs IH] using rev_ind.
  - split; constructor.
  - rewrite foldl_app. cbn [foldl]. apply step_longQueries, IH.
Qed.

Lemma typed_snoc evs e : typed (evs ++ [e]) = typed evs ++ typed [e].
Proof. unfold typed. rewrite flat_map_app. reflexivity. Qed.

Lemma resume_fetchCalls q outcome st :
  fetchCalls (fetchAutocomplete_resume q outcome st) = fetchCalls st.
Proof.
  unfold fetchAutocomplete_resume. destruct outcome; [|reflexivity].
  fields. reflexivity.
Qed.

(** Time passing with one timer in the queue. *)
Lemma advance_one t d st :
  timers st = [t] ->
  advance d st =
    if decide (due t <= clock st + d)
    then fetchAutocomplete_start (timerQuery t) (setTimers [] (setClock (clock st + d) st))
    else setTimers [t] (setClock (clock st + d) st).
Proof.
  intros Ht. unfold advance, fire. fields. rewrite Ht.
  destruct (decide (due t <= clock st + d)) as [Hdue|Hdue].
  - rewrite (filter_cons_True (fun t => due t <= clock st + d)) by exact Hdue.
    rewrite (filter_cons_False (fun t => ~ due t <= clock st + d)) by tauto.
    reflexivity.
  - rewrite (filter_cons_False (fun t => due t <= clock st + d)) by exact Hdue.
    rewrite (filter_cons_True (fun t => ~ due t <= clock st + d)) by exact Hdue.
    reflexivity.
Qed.

Lemma advance_none d st :
  timers st = [] -> advance d st = setTimers [] (setClock (clock st + d) st).
Proof. intros Ht. unfold advance, fire. fields. rewrite Ht. reflexivity. Qed.

Lemma step_scheduled st e (typedBefore : list jsstring) :
  sched_inv st ->
  scheduled st `sublist_of` typedBefore ->
  scheduled (step st e) `sublist_of` typedBefore ++ typed [e].
Proof.
  intros Hinv Hsub. unfold scheduled in *.
  destruct e as [v| |d|q outcome]; cbn [step typed flat_map].
  - unfold handleAutocompleteChange. destruct v as [|c v]; cbn [nonEmpty].
    + rewrite !app_nil_r. exact Hsub.
    + assert (Hinv' : sched_inv (setSearchTerm (c :: v) st)) by exact Hinv.
      destruct (debounced_timers (c :: v) _ Hinv') as (-> & _).
      destruct (debounced_fields (c :: v) (setSearchTerm (c :: v) st)) as (-> & _).
      fields. cbn [fmap list_fmap timerQuery app].
      apply sublist_app; [|reflexivity].
      etransitivity; [|exact Hsub]. apply sublist_inserts_r. reflexivity.
  - rewrite !app_nil_r. unfold Suggest.handleClear.
    assert (Hinv' : sched_inv (setSuggestions [] (setSearchTerm [] st))) by exact Hinv.
    rewrite (clearPending_timers _ Hinv').
    destruct (clearPending_fields (setSuggestions [] (setSearchTerm [] st)))
      as (_ & _ & -> & _).
    fields. cbn [fmap list_fmap]. rewrite app_nil_r.
    etransitivity; [|exact Hsub]. apply sublist_inserts_r. reflexivity.
  - rewrite !app_nil_r. destruct Hinv as [_ [Hnil|(t & Ht & _)]].
    + rewrite (advance_none d st Hnil). fields. rewrite Hnil in Hsub. exact Hsub.
    + rewrite (advance_one t d st Ht). rewrite Ht in Hsub.
      destruct (decide (due t <= clock st + d)).
      * rewrite start_fetchCalls.
        destruct (start_sched (timerQuery t) (setTimers [] (setClock (clock st + d) st)))
          as (-> & _).
        fields. cbn [fmap list_fmap] in *. rewrite app_nil_r. exact Hsub.
      * fields. exact Hsub.
  - rewrite !app_nil_r. unfold respond. case_bool_decide; [|exact Hsub].
    rewrite resume_fetchCalls.
    destruct (resume_sched q outcome (setInflight (remove_first q (inflight st)) st))
      as (-> & _).
    exact Hsub.
Qed.

Lemma run_scheduled evs : scheduled (run evs init) `sublist_of` typed evs.
Proof.
  unfold run. induction evs as [|e evs IH] using rev_ind.
  - reflexivity.
  - rewrite foldl_app, typed_snoc. cbn [foldl].
    apply step_scheduled; [apply run_sched_inv|exact IH].
Qed.

Lemma remove_first_length q (l : list jsstring) :
  length (remove_first q l) <= length l.
Proof.
  induction l as [|x l IH]; cbn [remove_first length]; [lia|].
  case_bool_decide; cbn [length]; lia.
Qed.

Lemma run_inflight_bound evs :
  length (inflight (run evs init)) <= length (fetchCalls (run evs init)).
Proof.
  unfold run. induction evs as [|e evs IH] using rev_ind; [cbn; lia|].
  rewrite foldl_app. cbn [foldl]. set (s := foldl step init evs) in *.
  destruct e as [v| |d|q outcome]; cbn [step].
  - unfold handleAutocompleteChange. destruct (nonEmpty v); [|exact IH].
    destruct (debounced_fields v (setSearchTerm v s)) as (-> & -> & _). exact IH.
  - unfold Suggest.handleClear.
    destruct (clearPending_fields (setSuggestions [] (setSearchTerm [] s)))
      as (_ & _ & -> & -> & _). exact IH.
  - unfold advance, fire.
    apply (foldl_start_inv (fun x => length (inflight x) <= length (fetchCalls x)));
      [|exact IH].
    intros q x Hx. rewrite start_fetchCalls, length_app. cbn [length].
    unfold fetchAutocomplete_start. fields.
    destruct (length q <? 3); fields; [lia|].
    destruct (map_has q (cacheRef x)); fields; [lia|].
    rewrite length_app. cbn [length]. lia.
  - unfold respond. case_bool_decide as Hin; [|exact IH].
    rewrite resume_fetchCalls. fields.
    pose proof (remove_first_length q (inflight s)) as Hlen.
    unfold fetchAutocomplete_resume. destruct outcome; fields; [|lia].
    lia.
Qed.

(** X9: no query shorter than three code units ever reaches the network
    or the cache: in every reachable state each request in flight and
    each cache key has length 3 or more. *)
Theorem short_queries_never_sent_or_cached :
  forall evs,
    let st := run evs init in
    (forall q, q ∈ inflight st -> 3 <= length q) /\
    (forall q results, map_get q (cacheRef st) = Some results -> 3 <= length q).
Proof.
  intros evs st. assert (Hl : longQueries st) by apply run_longQueries.
  destruct Hl as [Hfl Hkeys].
  rewrite Forall_forall in Hfl, Hkeys. split; [exact Hfl|].
  intros q results Hget. apply Hkeys. eapply map_get_some_key. exact Hget.
Qed.

(** X10: [fetchAutocomplete] is called only with values that were typed,
    in the order they were typed, and at most once for each time a value
    was typed: the queries fetched so far followed by the one still
    waiting for its timer form a subsequence of the non-empty inputs. So
    there are never more fetches than inputs, and at most one fetch is
    waiting. *)
Theorem fetches_follow_inputs :
  forall evs,
    let st := run evs init in
    (fetchCalls st ++ (timerQuery <$> timers st)) `sublist_of` typed evs /\
    length (fetchCalls st) + length (timers st) <= length (typed evs) /\
    length (timers st) <= 1 /\
    length (inflight st) <= length (fetchCalls st).
Proof.
  intros evs st. assert (Hsub : scheduled st `sublist_of` typed evs)
    by apply run_scheduled.
  unfold scheduled in Hsub. split; [exact Hsub|]. split; [|split].
  - apply sublist_length in Hsub. rewrite length_app, length_fmap in Hsub. exact Hsub.
  - assert (Hinv : sched_inv st) by apply run_sched_inv.
    destruct Hinv as [_ [Hnil|(t & Ht & _)]].
    + rewrite Hnil. cbn. lia.
    + rewrite Ht. cbn. lia.
  - apply run_inflight_bound.
Qed.

(** X11: clearing the form cancels the scheduled fetch: afterwards the
    input and the suggestions are empty, no timer is pending, and
    however long one waits no fetch starts. *)
Theorem clear_cancels_pending_fetch :
  forall evs d,
    let st := run evs init in
    let st' := step st EvClear in
    searchTerm st' = [] /\ suggestions st' = [] /\ timers st' = [] /\
    fetchCalls (step st' (EvWait d)) = fetchCalls st /\
    inflight (step st' (EvWait d)) = inflight st /\
    cacheRef (step st' (EvWait d)) = cacheRef st.
Proof.
  intros evs d st st'. subst st'. cbn [step]. unfold Suggest.handleClear.
  assert (Hinv : sched_inv st) by apply run_sched_inv.
  assert (Hinv' : sched_inv (setSuggestions [] (setSearchTerm [] st))) by exact Hinv.
  pose proof (clearPending_timers _ Hinv') as Ht.
  destruct (clearPending_fields (setSuggestions [] (setSearchTerm [] st)))
    as (_ & _ & Hf & Hi & Hs & Hq).
  destruct (clearPending_cache (setSuggestions [] (setSearchTerm [] st))) as [Hc _].
  rewrite Hs, Hq, Ht, (advance_none d _ Ht). fields. rewrite Hf, Hi, Hc.
  repeat split.
Qed.

(** X12: emptying the input does not cancel the scheduled fetch. When a
    non-empty value is typed and the input is then emptied, the
    suggestions are emptied at once but the timer stays, and the value
    typed before is fetched once the quiet period is over. *)
Theorem empty_input_keeps_scheduled_fetch :
  forall evs q d d',
    q <> [] -> d < 750 -> 750 <= d + d' ->
    let st := run evs init in
    let st' := run [EvInput q; EvWait d; EvInput []] st in
    searchTerm st' = [] /\ suggestions st' = [] /\
    timers st' = [mkTimer (nextTimer st) (clock st + 750) q] /\
    fetchCalls st' = fetchCalls st /\
    fetchCalls (step st' (EvWait d')) = fetchCalls st ++ [q].
Proof.
  intros evs q d d' Hq Hd Hd' st st'.
  assert (Hinv : sched_inv st) by apply run_sched_inv.
  assert (H1 : step st (EvInput q) = debouncedAutocomplete q (setSearchTerm q st)).
  { cbn [step]. unfold handleAutocompleteChange. destruct q; [contradiction|]. reflexivity. }
  assert (Hinv' : sched_inv (setSearchTerm q st)) by exact Hinv.
  pose proof (debounced_pending q _ Hinv') as Hpend.
  destruct (debounced_timers q _ Hinv') as (Ht & _ & _ & Hclock).
  destruct (debounced_fields q (setSearchTerm q st)) as (Hf & _).
  rewrite <- H1 in Hpend, Ht, Hclock, Hf. fields.
  set (s1 := step st (EvInput q)) in *.
  assert (Hst' : st' = setSuggestions []
                   (setSearchTerm [] (setTimers (timers s1) (setClock (clock s1 + d) s1)))).
  { subst st'. unfold run. cbn [foldl]. fold s1. cbn [step].
    rewrite (advance_short s1 q d Hpend Hd). reflexivity. }
  rewrite Hst'. fields. rewrite Ht, Hf.
  split; [reflexivity|]. split; [reflexivity|]. split; [reflexivity|].
  split; [reflexivity|].
  cbn [step]. erewrite advance_one by (fields; reflexivity). fields. rewrite Hclock.
  cbn [due timerQuery]. destruct (decide _) as [_|Hn]; [|exfalso; apply Hn; unfold debounceDelay; lia].
  rewrite start_fetchCalls. fields. rewrite Hf. reflexivity.
Qed.

(** X13: a response that was ok is served from the cache afterwards: once
    the response for a request in flight has arrived, calling
    [fetchAutocomplete] with the same query shows the same results and
    sends no request. A failed response is not cached: if the query was
    not cached before, the next call sends a request again. *)
Theorem cache_round_trip :
  forall evs q,
    let st := run evs init in
    q ∈ inflight st ->
    (forall results,
       let st1 := step st (EvResponse q (Some results)) in
       let st2 := fetchAutocomplete_start q st1 in
       map_get q (cacheRef st1) = Some results /\
       suggestions st2 = results /\ inflight st2 = inflight st1 /\
       map_get q (cacheRef st2) = Some results) /\
    (map_get q (cacheRef st) = None ->
     let st1 := step st (EvResponse q None) in
     let st2 := fetchAutocomplete_start q st1 in
     suggestions st1 = [] /\ cacheRef st1 = cacheRef st /\
     inflight st2 = inflight st1 ++ [q]).
Proof.
  intros evs q st Hin.
  assert (Hl : longQueries st) by apply run_longQueries.
  destruct Hl as [Hlong _].
  rewrite Forall_forall in Hlong. pose proof (Hlong q Hin) as Hq.
  assert (Hnlt : (length q <? 3) = false) by (apply Nat.ltb_ge; exact Hq).
  split.
  - intros results st1 st2.
    assert (Hget : map_get q (cacheRef st1) = Some results).
    { subst st1. cbn [step]. unfold respond. rewrite bool_decide_eq_true_2 by exact Hin.
      unfold fetchAutocomplete_resume. fields. apply map_get_map_set. }
    pose proof (map_get_some_key _ _ _ Hget) as Hkey.
    assert (Hst2 : st2 = setSuggestions results
                     (setAccesses (accesses st1 ++ [q])
                        (setCache (map_delete q (cacheRef st1) ++ [(q, results)])
                           (setFetchCalls (fetchCalls st1 ++ [q]) st1)))).
    { subst st2. unfold fetchAutocomplete_start. fields. rewrite Hnlt.
      rewrite (proj2 (map_has_true _ _) Hkey), Hget. cbn [default].
      rewrite hit_cache. reflexivity. }
    split; [exact Hget|]. rewrite Hst2. fields.
    split; [reflexivity|]. split; [reflexivity|].
    apply map_get_app_r. rewrite map_delete_keys. intros H.
    apply list_elem_of_filter in H as [Hne _]. congruence.
  - intros Hnone st1 st2.
    assert (Hst1 : st1 = setAutocompleteLoading false
                     (setSuggestions [] (setInflight (remove_first q (inflight st)) st))).
    { subst st1. cbn [step]. unfold respond. rewrite bool_decide_eq_true_2 by exact Hin.
      reflexivity. }
    subst st2. rewrite Hst1. fields.
    split; [reflexivity|]. split; [reflexivity|].
    unfold fetchAutocomplete_start. fields. rewrite Hnlt.
    assert (Hhas : map_has q (cacheRef st) = false).
    { apply map_has_false. intros Hk. apply map_has_true, map_get_has in Hk as [v Hv].
      congruence. }
    rewrite Hhas. reflexivity.
Qed.

End TrafficFacts.

Lemma short_queries_never_sent_or_cached_witness :
  js "abc" ∈ inflight (run requested init) /\ 3 <= length (js "abc").
Proof.
  assert (H : js "abc" ∈ inflight (run requested init)) by compute_done.
  exact (conj H (proj1 (short_queries_never_sent_or_cached requested) (js "abc") H)).
Defined.

Lemma empty_input_keeps_scheduled_fetch_witness :
  js "abc" <> [] /\ 100 < 750 /\ 750 <= 100 + 650 /\
  let st := run [] init in
  let st' := run [EvInput (js "abc"); EvWait 100; EvInput []] st in
  searchTerm st' = [] /\ suggestions st' = [] /\
  timers st' = [mkTimer (nextTimer st) (clock st + 750) (js "abc")] /\
  fetchCalls st' = fetchCalls st /\
  fetchCalls (step st' (EvWait 650)) = fetchCalls st ++ [js "abc"].
Proof.
  assert (H1 : js "abc" <> []) by discriminate.
  assert (H2 : 100 < 750) by lia.
  assert (H3 : 750 <= 100 + 650) by lia.
  exact (conj H1 (conj H2 (conj H3
    (empty_input_keeps_scheduled_fetch [] (js "abc") 100 650 H1 H2 H3)))).
Defined.

Lemma cache_round_trip_witness :
  let st := run requested init in
  js "abc" ∈ inflight st /\
  (forall results,
     let st1 := step st (EvResponse (js "abc") (Some results)) in
     let st2 := fetchAutocomplete_start (js "abc") st1 in
     map_get (js "abc") (cacheRef st1) = Some results /\
     suggestions st2 = results /\ inflight st2 = inflight st1 /\
     map_get (js "abc") (cacheRef st2) = Some results) /\
  (map_get (js "abc") (cacheRef st) = None ->
   let st1 := step st (EvResponse (js "abc") None) in
   let st2 := fetchAutocomplete_start (js "abc") st1 in
   suggestions st1 = [] /\ cacheRef st1 = cacheRef st /\
   inflight st2 = inflight st1 ++ [js "abc"]).
Proof.
  intros st.
  assert (H : js "abc" ∈ inflight st) by compute_done.
  exact (conj H (cache_round_trip requested (js "abc") H)).
Defined.

(** ** Market price lookup *)

Import Tcg.

Section TcgFacts.
Variable decodeURIComponent : jsstring -> option jsstring.

Lemma stripPrefix_Some p s rest : stripPrefix p s = Some rest <-> s = p ++ rest.
Proof.
  revert s. induction p as [|a p IH]; intros s; cbn [stripPrefix app].
  - split; [intros [= ->]; reflexivity|intros ->; reflexivity].
  - destruct s as [|b s]; [split; discriminate|].
    case_bool_decide as Hab.
    + subst b. rewrite IH. split; [intros ->; reflexivity|intros [= ->]; reflexivity].
    + split; [discriminate|]. intros [= -> _]. contradiction.
Qed.

Lemma leadingDigits_split s :
  Forall (fun c => isDigit c = true) (leadingDigits s) /\
  exists rest, s = leadingDigits s ++ rest /\
               forall c, head rest = Some c -> isDigit c = false.
Proof.
  induction s as [|c s [IHd (rest & IHs & IHr)]]; cbn [leadingDigits].
  - split; [constructor|]. exists []. split; [reflexivity|]. intros c [=].
  - destruct (isDigit c) eqn:Hc.
    + split; [constructor; assumption|]. exists rest. split; [|exact IHr].
      cbn [app]. f_equal. exact IHs.
    + split; [constructor|]. exists (c :: s). split; [reflexivity|].
      intros c' [= <-]. exact Hc.
Qed.

Lemma noMatchHere_digit s d rest :
  noMatchHere s -> s = js "product/" ++ d :: rest -> isDigit d = false.
Proof.
  unfold noMatchHere. intros Hno Hs.
  apply stripPrefix_Some in Hs. rewrite Hs in Hno. cbn [leadingDigits] in Hno.
  destruct (isDigit d); [discriminate|reflexivity].
Qed.

Lemma matchProduct_cons c s :
  (noMatchHere (c :: s) /\ matchProduct (c :: s) = matchProduct s) \/
  (exists rest, stripPrefix (js "product/") (c :: s) = Some rest /\
                leadingDigits rest <> [] /\
                matchProduct (c :: s) = Some (leadingDigits rest)).
Proof.
  unfold noMatchHere. cbn [matchProduct].
  destruct (stripPrefix (js "product/") (c :: s)) as [rest|]; [|left; split; reflexivity].
  destruct (leadingDigits rest) as [|d ds] eqn:Hd; [left; split; reflexivity|].
  right. exists rest. rewrite Hd. repeat split. discriminate.
Qed.

Lemma matchProduct_sound s id :
  matchProduct s = Some id ->
  id <> [] /\ Forall (fun c => isDigit c = true) id /\
  exists pre rest,
    s = pre ++ js "product/" ++ id ++ rest /\
    (forall c, head rest = Some c -> isDigit c = false) /\
    (forall pre' d rest', s = pre' ++ js "product/" ++ d :: rest' ->
       isDigit d = true -> length pre <= length pre').
Proof.
  revert id. induction s as [|c s IH]; intros id; [discriminate|].
  destruct (matchProduct_cons c s) as [[Hno ->]|(rest & Hp & Hne & ->)].
  - intros Hm. destruct (IH id Hm) as (Hid & Hdig & pre & rest & Hs & Hrest & Hleft).
    split; [exact Hid|]. split; [exact Hdig|].
    exists (c :: pre), rest. split; [cbn [app]; f_equal; exact Hs|].
    split; [exact Hrest|]. intros pre' d rest' Hs' Hd.
    destruct pre' as [|x pre'].
    + rewrite (noMatchHere_digit _ d rest' Hno Hs') in Hd. discriminate.
    + assert (Hs'' : s = pre' ++ js "product/" ++ d :: rest')
        by (cbn [app] in Hs'; congruence).
      cbn [length]. apply le_n_S. eapply Hleft; eassumption.
  - intros [= <-]. split; [exact Hne|].
    destruct (leadingDigits_split rest) as (Hdig & rest' & Hsplit & Hrest').
    split; [exact Hdig|]. exists [], rest'. split; [|split].
    + apply stripPrefix_Some in Hp. cbn [app]. rewrite Hp. f_equal. exact Hsplit.
    + exact Hrest'.
    + intros. cbn [length]. apply Nat.le_0_l.
Qed.

Lemma matchProduct_None s :
  matchProduct s = None <->
  forall pre d rest, s = pre ++ js "product/" ++ d :: rest -> isDigit d = false.
Proof.
  split.
  - induction s as [|c s IH]; intros Hm pre d rest Hs.
    + destruct pre; discriminate.
    + destruct (matchProduct_cons c s) as [[Hno Heq]|(r & _ & _ & Heq)];
        rewrite Heq in Hm; [|discriminate].
      destruct pre as [|x pre].
      * exact (noMatchHere_digit _ d rest Hno Hs).
      * assert (Hs' : s = pre ++ js "product/" ++ d :: rest)
          by (cbn [app] in Hs; congruence).
        exact (IH Hm pre d rest Hs').
  - intros Hall. destruct (matchProduct s) as [id|] eqn:Hm; [|reflexivity].
    destruct (matchProduct_sound s id Hm) as (Hid & Hdig & pre & rest & Hs & _).
    destruct id as [|d id]; [contradiction|].
    apply Forall_cons in Hdig as [Hd _].
    rewrite (Hall pre d (id ++ rest) Hs) in Hd. discriminate.
Qed.

Example matchProduct_sampleLink : matchProduct sampleLink = Some (js "36165").
Proof. vm_compute. reflexivity. Qed.

Example matchProduct_needs_digit : matchProduct (js "/product/abc/product/7x") = Some (js "7").
Proof. vm_compute. reflexivity. Qed.

Lemma start_pricing_inv link finish st :
  pricing_inv st -> pricing_inv (fetchTCGPlayerPricing_start decodeURIComponent link finish st).
Proof.
  intros Hinv. unfold fetchTCGPlayerPricing_start.
  destruct (negb (truthy link)).
  { split; [left; reflexivity|discriminate]. }
  destruct (extractTCGPlayerProductId decodeURIComponent link) as [id|]; [|exact Hinv].
  destruct (negb (truthy id)).
  { split; [left; reflexivity|discriminate]. }
  destruct Hinv as [Hprice _]. split; [exact Hprice|].
  intros _. split; [reflexivity|]. cbn. intros H. apply app_eq_nil in H as [_ H]. discriminate.
Qed.

Lemma orNull_cases v : orNull v = JNull \/ (falsy v = false /\ orNull v = v).
Proof. unfold orNull. destruct (falsy v); [left|right; split]; reflexivity. Qed.

Lemma resume_pricing_inv id finish outcome st :
  pricing_inv (fetchTCGPlayerPricing_resume id finish outcome st).
Proof.
  unfold fetchTCGPlayerPricing_resume.
  destruct outcome as [message|results]; (split; [|discriminate]); [left; reflexivity|].
  cbn [pricing setPricing lpMarketPrice].
  destruct (results ≫= _) as [r|]; [|left; reflexivity].
  destruct (orNull_cases (marketPrice r)) as [-> | [Hf ->]]; [left; reflexivity|right; exact Hf].
Qed.

Lemma pstep_inv st e : pricing_inv st -> pricing_inv (pstep decodeURIComponent st e).
Proof.
  intros Hinv. destruct e as [sel link|id finish outcome]; cbn [pstep].
  - unfold pricingEffect. destruct (complete sel); [apply start_pricing_inv, Hinv|].
    split; [left; reflexivity|discriminate].
  - case_bool_decide; [apply resume_pricing_inv|exact Hinv].
Qed.

Lemma prun_inv evs : pricing_inv (prun decodeURIComponent evs pinit).
Proof.
  unfold prun. induction evs as [|e evs IH] using rev_ind.
  - split; [left; reflexivity|discriminate].
  - rewrite foldl_app. cbn [foldl]. apply pstep_inv, IH.
Qed.

Lemma rowFor_conditions (f : jsstring -> Row) c :
  (forall c', condition (f c') = c') -> c ∈ conditions ->
  rowFor (map f conditions) c = Some (f c).
Proof.
  intros Hf Hc. unfold rowFor, conditions. cbn [map List.find]. rewrite !Hf.
  apply in_conditions in Hc as [-> | [-> | [-> | ->]]];
    repeat first
      [ rewrite bool_decide_eq_true_2 by reflexivity; reflexivity
      | rewrite bool_decide_eq_false_2 by (vm_compute; discriminate) ].
Qed.

Lemma find_before {A} (f : A -> bool) (before after : list A) x :
  Forall (fun y => f y = false) before -> f x = true ->
  List.find f (before ++ x :: after) = Some x.
Proof.
  intros Hb Hx. induction Hb as [|y l1 Hy _ IH]; cbn [app List.find].
  - rewrite Hx. reflexivity.
  - rewrite Hy. exact IH.
Qed.

(** X14: the product id read from a partner link is the run of digits
    after the leftmost [product/] that a digit follows: it is not empty,
    made of digits only, stands in the decoded link right after
    [product/], is not followed by a further digit, and no earlier
    position matches. No id is found exactly when no [product/] in the
    link is followed by a digit. *)
Theorem product_id_is_first_digit_run :
  forall link decoded,
    link <> [] -> decodeURIComponent link = Some decoded ->
    exists found,
      extractTCGPlayerProductId decodeURIComponent (Some link) = Normal found /\
      (forall id, found = Some id ->
         id <> [] /\ Forall (fun c => isDigit c = true) id /\
         exists pre rest,
           decoded = pre ++ js "product/" ++ id ++ rest /\
           (forall c, head rest = Some c -> isDigit c = false) /\
           (forall pre' d rest', decoded = pre' ++ js "product/" ++ d :: rest' ->
              isDigit d = true -> length pre <= length pre')) /\
      (found = None <->
         forall pre d rest, decoded = pre ++ js "product/" ++ d :: rest ->
                            isDigit d = false).
Proof.
  intros link decoded Hlink Hdec. exists (matchProduct decoded). split; [|split].
  - unfold extractTCGPlayerProductId. destruct link; [contradiction|].
    rewrite Hdec. reflexivity.
  - apply matchProduct_sound.
  - apply matchProduct_None.
Qed.

(** X15: whenever the pricing table has data, it has a row for every
    condition: in every reachable pricing state where the view finds
    [hasData], the price is a truthy number, the grid is not [null], and
    for each of the four conditions the row is found and carries the
    prices computed from that market price. *)
Theorem pricing_table_has_every_row :
  forall settings evs c,
    let p := pricing (prun decodeURIComponent evs pinit) in
    hasData p = true -> c ∈ conditions ->
    falsy (lpMarketPrice p) = false /\
    exists row,
      rowData settings p c = Some row /\ condition row = c /\
      price row = (toNumber (lpMarketPrice p) * prop (conditionMultipliers settings) c)%float /\
      buyCash row = (price row * prop (buyCashMultipliers settings) c)%float /\
      buyCredit row = (buyCash row * creditMultiplier settings)%float.
Proof.
  intros settings evs c p Hdata Hc.
  assert (Hinv : pricing_inv (prun decodeURIComponent evs pinit)) by apply prun_inv.
  destruct Hinv as [Hprice _]. fold p in Hprice.
  assert (Hf : falsy (lpMarketPrice p) = false).
  { destruct Hprice as [Hnull|Hf]; [|exact Hf].
    unfold hasData in Hdata. rewrite Hnull in Hdata. discriminate. }
  split; [exact Hf|].
  unfold rowData, pricingGrid, calculatePricingGrid. rewrite Hdata, Hf. cbn [mbind option_bind].
  eexists. split; [apply rowFor_conditions; [reflexivity|exact Hc]|].
  repeat split.
Qed.

(** X16: the answer to a pricing request decides the pricing state on
    its own: loading ends and the product id is that of the answered
    request, whatever was selected since. With data, the price is the
    market price of the first result whose subtype is [Foil] for the
    finish [foil] and [Normal] for every other finish, provided that
    price is a truthy number; otherwise the price is [null] and the
    error says that market pricing is not available. With a failure the
    price is [null] and the error is the message of the exception. *)
Theorem answer_sets_price_of_first_matching_result :
  forall st id finish,
    (id, finish) ∈ requests st ->
    (getTCGPlayerCondition finish = js "Foil" <-> finish = Some (js "foil")) /\
    (getTCGPlayerCondition finish = js "Normal" <-> finish <> Some (js "foil")) /\
    (forall results,
       let p := pricing (pstep decodeURIComponent st (EvAnswer id finish (Data results))) in
       loading p = false /\ productId p = Some id /\
       (lpMarketPrice p <> JNull <-> error p = None) /\
       (lpMarketPrice p = JNull <-> error p = Some (js "Market pricing not available")) /\
       (lpMarketPrice p <> JNull <->
        exists before r after,
          results = Some (before ++ r :: after) /\
          Forall (fun x => subTypeName x <> getTCGPlayerCondition finish) before /\
          subTypeName r = getTCGPlayerCondition finish /\
          falsy (marketPrice r) = false /\
          lpMarketPrice p = marketPrice r)) /\
    (forall message,
       let p := pricing (pstep decodeURIComponent st (EvAnswer id finish (Failed message))) in
       loading p = false /\ productId p = Some id /\
       lpMarketPrice p = JNull /\ error p = Some message).
Proof.
  intros st id finish Hin. split; [|split; [|split]].
  - unfold getTCGPlayerCondition. case_bool_decide as Hf.
    + split; [intros _; exact Hf|reflexivity].
    + split; [intros H; vm_compute in H; discriminate|contradiction].
  - unfold getTCGPlayerCondition. case_bool_decide as Hf.
    + split; [intros H; vm_compute in H; discriminate|contradiction].
    + split; [intros _; exact Hf|reflexivity].
  - intros results p. subst p. cbn [pstep]. rewrite bool_decide_eq_true_2 by exact Hin.
    unfold fetchTCGPlayerPricing_resume.
    cbn [pricing setPricing lpMarketPrice loading error productId].
    set (target := getTCGPlayerCondition finish).
    set (f := fun r => bool_decide (subTypeName r = target)).
    assert (Hcases :
      (results ≫= List.find f = None /\
       forall before r after, results = Some (before ++ r :: after) ->
         Forall (fun x => subTypeName x <> target) before -> subTypeName r = target -> False) \/
      (exists before r after, results ≫= List.find f = Some r /\
         results = Some (before ++ r :: after) /\
         Forall (fun x => subTypeName x <> target) before /\ subTypeName r = target)).
    { destruct results as [l|]; cbn [mbind option_bind].
      - destruct (List.find f l) as [r|] eqn:Hfind.
        + right. destruct (find_first f l r Hfind) as (Hr & l1 & l2 & -> & Hb).
          exists l1, r, l2. split; [reflexivity|]. split; [reflexivity|].
          split; [|apply bool_decide_eq_true in Hr; exact Hr].
          eapply Forall_impl; [exact Hb|]. intros x Hx. apply bool_decide_eq_false in Hx.
          exact Hx.
        + left. split; [reflexivity|]. intros l1 r l2 [= ->] _ Hr.
          rewrite find_none_iff in Hfind.
          specialize (Hfind r). unfold f in Hfind.
          rewrite bool_decide_eq_true_2 in Hfind by exact Hr.
          assert (Hel : r ∈ l1 ++ r :: l2)
            by (apply elem_of_app; right; apply list_elem_of_here).
          specialize (Hfind Hel). discriminate.
      - left. split; [reflexivity|]. intros l1 r l2 [=]. }
    split; [reflexivity|]. split; [reflexivity|].
    destruct Hcases as [[-> Hnone]|(l1 & r & l2 & -> & Hres & Hb & Hr)].
    + cbn [notNull]. split; [split; [congruence|discriminate]|].
      split; [split; reflexivity|]. split; [congruence|].
      intros (l1 & r & l2 & Hres & Hb & Hr & _). exfalso. eauto.
    + destruct (orNull_cases (marketPrice r)) as [Hnull|[Hf Hval]].
      * rewrite Hnull. cbn [notNull]. split; [split; [congruence|discriminate]|].
        split; [split; reflexivity|]. split; [congruence|].
        intros (l1' & r' & l2' & Hres' & Hb' & Hr' & Hf' & _). exfalso.
        assert (Hfind : List.find f (l1' ++ r' :: l2') = Some r').
        { apply find_before; [|apply bool_decide_eq_true_2; exact Hr'].
          eapply Forall_impl; [exact Hb'|]. intros x Hx. apply bool_decide_eq_false_2, Hx. }
        assert (Hfind2 : List.find f (l1 ++ r :: l2) = Some r).
        { apply find_before; [|apply bool_decide_eq_true_2; exact Hr].
          eapply Forall_impl; [exact Hb|]. intros x Hx. apply bool_decide_eq_false_2, Hx. }
        rewrite Hres in Hres'. injection Hres' as Hres'. rewrite Hres' in Hfind2.
        rewrite Hfind in Hfind2. injection Hfind2 as ->.
        unfold orNull in Hnull. rewrite Hf' in Hnull. rewrite Hnull in Hf'. discriminate.
      * rewrite Hval.
        assert (Hnn : marketPrice r <> JNull) by (intros H; rewrite H in Hf; discriminate).
        assert (Hnot : notNull (marketPrice r) = true)
          by (destruct (marketPrice r); [contradiction|reflexivity|reflexivity]).
        rewrite Hnot. split; [split; [reflexivity|intros _; exact Hnn]|].
        split; [split; [contradiction|discriminate]|].
        split; [|intros _; exact Hnn]. intros _.
        exists l1, r, l2. repeat split; assumption.
  - intros message p. subst p. cbn [pstep]. rewrite bool_decide_eq_true_2 by exact Hin.
    repeat split.
Qed.

(** X17: the effect sends a pricing request exactly when the selection
    is complete and the decoded partner link of the resolved card holds
    a product id; the request is for that id and the selected finish,
    and while it is in flight the state is loading, without error, with
    the price shown before. An incomplete selection resets the pricing
    state. In no case is more than one request sent. *)
Theorem pricing_request_sent_iff :
  forall sel link st,
    let st' := pricingEffect decodeURIComponent sel link st in
    (complete sel = false -> pricing st' = noPricing /\ requests st' = requests st) /\
    (forall uri decoded id,
       complete sel = true -> link = Some uri -> uri <> [] ->
       decodeURIComponent uri = Some decoded -> matchProduct decoded = Some id ->
       requests st' = requests st ++ [(id, selectedFinish sel)] /\
       loading (pricing st') = true /\ error (pricing st') = None /\
       lpMarketPrice (pricing st') = lpMarketPrice (pricing st)) /\
    (requests st' <> requests st ->
       complete sel = true /\
       exists uri decoded id,
         link = Some uri /\ decodeURIComponent uri = Some decoded /\
         matchProduct decoded = Some id /\
         requests st' = requests st ++ [(id, selectedFinish sel)]).
Proof.
  intros sel link st st'. subst st'. unfold pricingEffect. split; [|split].
  - intros ->. split; reflexivity.
  - intros uri decoded id -> -> Huri Hdec Hm.
    unfold fetchTCGPlayerPricing_start, extractTCGPlayerProductId.
    destruct uri as [|c uri]; [contradiction|]. cbn [truthy negb]. rewrite Hdec, Hm.
    destruct (matchProduct_sound decoded id Hm) as (Hid & _).
    destruct id as [|d id]; [contradiction|]. repeat split.
  - destruct (complete sel); [|intros H; contradiction H; reflexivity].
    intros Hne. split; [reflexivity|].
    unfold fetchTCGPlayerPricing_start, extractTCGPlayerProductId in *.
    destruct link as [[|c uri]|]; cbn [truthy negb] in *;
      try (contradiction Hne; reflexivity).
    destruct (decodeURIComponent (c :: uri)) as [decoded|] eqn:Hdec;
      [|contradiction Hne; reflexivity].
    destruct (matchProduct decoded) as [[|d id]|] eqn:Hm; cbn [truthy negb] in *;
      try (contradiction Hne; reflexivity).
    exists (c :: uri), decoded, (d :: id). repeat split; assumption.
Qed.

End TcgFacts.

Lemma product_id_is_first_digit_run_witness :
  sampleLink <> [] /\ plainDecode sampleLink = Some sampleLink /\
  exists found,
    extractTCGPlayerProductId plainDecode (Some sampleLink) = Normal found /\
    (forall id, found = Some id ->
       id <> [] /\ Forall (fun c => isDigit c = true) id /\
       exists pre rest,
         sampleLink = pre ++ js "product/" ++ id ++ rest /\
         (forall c, head rest = Some c -> isDigit c = false) /\
         (forall pre' d rest', sampleLink = pre' ++ js "product/" ++ d :: rest' ->
            isDigit d = true -> length pre <= length pre')) /\
    (found = None <->
       forall pre d rest, sampleLink = pre ++ js "product/" ++ d :: rest ->
                          isDigit d = false).
Proof.
  assert (H1 : sampleLink <> []) by (vm_compute; discriminate).
  assert (H2 : plainDecode sampleLink = Some sampleLink) by reflexivity.
  exact (conj H1 (conj H2
    (product_id_is_first_digit_run plainDecode sampleLink sampleLink H1 H2))).
Defined.

Lemma pricing_table_has_every_row_witness :
  let p := pricing (prun plainDecode answeredPricing pinit) in
  hasData p = true /\ js "NM" ∈ conditions /\
  falsy (lpMarketPrice p) = false /\
  exists row,
    rowData defaultSettings p (js "NM") = Some row /\ condition row = js "NM" /\
    price row = (toNumber (lpMarketPrice p) *
                 prop (conditionMultipliers defaultSettings) (js "NM"))%float /\
    buyCash row = (price row * prop (buyCashMultipliers defaultSettings) (js "NM"))%float /\
    buyCredit row = (buyCash row * creditMultiplier defaultSettings)%float.
Proof.
  intros p.
  assert (H1 : hasData p = true) by (vm_compute; reflexivity).
  assert (H2 : js "NM" ∈ conditions) by apply list_elem_of_here.
  exact (conj H1 (conj H2
    (pricing_table_has_every_row plainDecode defaultSettings answeredPricing (js "NM") H1 H2))).
Defined.

Lemma answer_sets_price_of_first_matching_result_witness :
  let st := prun plainDecode requestedPricing pinit in
  let id := js "36165" in
  let finish := Some (js "foil") in
  (id, finish) ∈ requests st /\
  (getTCGPlayerCondition finish = js "Foil" <-> finish = Some (js "foil")) /\
  (getTCGPlayerCondition finish = js "Normal" <-> finish <> Some (js "foil")) /\
  (forall results,
     let p := pricing (pstep plainDecode st (EvAnswer id finish (Data results))) in
     loading p = false /\ productId p = Some id /\
     (lpMarketPrice p <> JNull <-> error p = None) /\
     (lpMarketPrice p = JNull <-> error p = Some (js "Market pricing not available")) /\
     (lpMarketPrice p <> JNull <->
      exists before r after,
        results = Some (before ++ r :: after) /\
        Forall (fun x => subTypeName x <> getTCGPlayerCondition finish) before /\
        subTypeName r = getTCGPlayerCondition finish /\
        falsy (marketPrice r) = false /\
        lpMarketPrice p = marketPrice r)) /\
  (forall message,
     let p := pricing (pstep plainDecode st (EvAnswer id finish (Failed message))) in
     loading p = false /\ productId p = Some id /\
     lpMarketPrice p = JNull /\ error p = Some message).
Proof.
  intros st id finish.
  assert (H : (id, finish) ∈ requests st) by (vm_compute; apply list_elem_of_here).
  exact (conj H (answer_sets_price_of_first_matching_result plainDecode st id finish H)).
Defined.

(** ** The settings editor *)

Import Editor.

Ltac efields :=
  cbn [Editor.settings Editor.errors Editor.setSettings Editor.setErrors
       Editor.withConditionMultipliers Editor.withBuyCashMultipliers
       Editor.withCreditMultiplier Editor.withBasePriceModifier
       Editor.withBulkThreshold Editor.withHighEndThreshold
       Editor.withPricingTiers Editor.withDarkMode
       Pricing.basePriceModifier Pricing.conditionMultipliers
       Pricing.buyCashMultipliers Pricing.creditMultiplier Pricing.bulkThreshold
       Pricing.highEndThreshold Pricing.pricingTiers Pricing.darkMode] in *.

Section EditorFacts.
Variable parseFloat : jsstring -> float.
Implicit Types (st : EState) (e : Edit) (s : Settings).

Lemma validateInput_within value min max :
  validateInput parseFloat value min max = true -> within min max (parseFloat value).
Proof.
  unfold validateInput, within. intros H.
  apply andb_prop in H as [H Hmax]. apply andb_prop in H as [_ Hmin].
  split; assumption.
Qed.

Lemma object_Forall (P : float -> Prop) (l : list (jsstring * float)) :
  Forall (fun kv => P kv.2) l -> map_Forall (fun _ v => P v) (object l).
Proof.
  unfold object. induction 1 as [|[k v] l Hv _ IH].
  - apply map_Forall_empty.
  - rewrite list_to_map_cons. apply map_Forall_insert_2; assumption.
Qed.

Lemma editorSettings_inRange : inRange editorSettings.
Proof.
  unfold inRange, editorSettings. efields.
  split; [|split; [|split; [|split; [|split; [|split]]]]].
  - apply object_Forall. repeat constructor; vm_compute; reflexivity.
  - apply object_Forall. repeat constructor; vm_compute; reflexivity.
  - split; vm_compute; reflexivity.
  - intros v [= <-]. split; vm_compute; reflexivity.
  - intros v [= <-]. split; vm_compute; reflexivity.
  - intros v [= <-]. split; vm_compute; reflexivity.
  - repeat constructor; vm_compute; reflexivity.
Qed.

Lemma edit_inRange st e : inRange (settings st) -> inRange (settings (edit parseFloat st e)).
Proof.
  intros Hr. pose proof Hr as (Hc & Hb & Hcredit & Hbase & Hbulk & Hhigh & Htiers).
  destruct e as [c v|c v|v|b|v|v|v|i f v|]; cbn [edit].
  - unfold handleConditionMultiplierChange.
    destruct (validateInput parseFloat v 0 2) eqn:Hv; [|exact Hr].
    apply validateInput_within in Hv. unfold inRange. efields.
    split; [|split; [|split; [|split; [|split; [|split]]]]]; try assumption.
    apply map_Forall_insert_2; assumption.
  - unfold handleBuyCashMultiplierChange.
    destruct (validateInput parseFloat v 0 1) eqn:Hv; [|exact Hr].
    apply validateInput_within in Hv. unfold inRange. efields.
    split; [|split; [|split; [|split; [|split; [|split]]]]]; try assumption.
    apply map_Forall_insert_2; assumption.
  - unfold handleCreditMultiplierChange.
    destruct (validateInput parseFloat v 0.5 3) eqn:Hv; [|exact Hr].
    apply validateInput_within in Hv. unfold inRange. efields.
    split; [|split; [|split; [|split; [|split; [|split]]]]]; assumption.
  - exact Hr.
  - unfold handleBasePriceModifierChange.
    destruct (validateInput parseFloat v 0.5 3) eqn:Hv; [|exact Hr].
    apply validateInput_within in Hv. unfold inRange. efields.
    split; [|split; [|split; [|split; [|split; [|split]]]]]; try assumption.
    intros v' [= <-]; exact Hv.
  - unfold handleBulkThresholdChange.
    destruct (validateInput parseFloat v 0.01 50) eqn:Hv; [|exact Hr].
    apply validateInput_within in Hv. unfold inRange. efields.
    split; [|split; [|split; [|split; [|split; [|split]]]]]; try assumption.
    intros v' [= <-]; exact Hv.
  - unfold handleHighEndThresholdChange.
    destruct (validateInput parseFloat v 50 10000) eqn:Hv; [|exact Hr].
    apply validateInput_within in Hv. unfold inRange. efields.
    split; [|split; [|split; [|split; [|split; [|split]]]]]; try assumption.
    intros v' [= <-]; exact Hv.
  - unfold handlePricingTierChange.
    destruct (pricingTiers (settings st)) as [|t0 ts] eqn:Ht; [exact Hr|].
    cbv zeta iota. rewrite <- Ht in *. case_bool_decide as Hf1.
    + destruct (validateInput parseFloat v 0.01 1000) eqn:Hv; [|exact Hr].
      apply validateInput_within in Hv.
      destruct (pricingTiers (settings st) !! i) as [tier|] eqn:Hi; [|exact Hr].
      unfold inRange. efields.
      split; [|split; [|split; [|split; [|split; [|split]]]]]; try assumption.
      apply Forall_insert; [exact Htiers|]. cbn [lowerBound multiplier].
      split; [exact Hv|]. rewrite Forall_lookup in Htiers. apply (Htiers i tier Hi).
    + case_bool_decide as Hf2.
      * destruct (validateInput parseFloat v 0.01 1) eqn:Hv; [|exact Hr].
        apply validateInput_within in Hv.
        destruct (pricingTiers (settings st) !! i) as [tier|] eqn:Hi; [|exact Hr].
        unfold inRange. efields.
        split; [|split; [|split; [|split; [|split; [|split]]]]]; try assumption.
        apply Forall_insert; [exact Htiers|]. cbn [lowerBound multiplier].
        split; [|exact Hv]. rewrite Forall_lookup in Htiers. apply (Htiers i tier Hi).
      * exact Hr.
  - apply editorSettings_inRange.
Qed.

Lemma erun_inRange es st : inRange (settings st) -> inRange (settings (erun parseFloat es st)).
Proof.
  unfold erun. revert st. induction es as [|e es IH]; intros st Hr; [exact Hr|].
  cbn [foldl]. apply IH, edit_inRange, Hr.
Qed.

(** The handlers against the layout of the form: an edit of a validated
    field changes nothing (the handler throws), or writes under the key
    of the field: [null] for a text within the bounds, a message and no
    change of the settings otherwise. Any other edit leaves the messages
    alone or, as the reset, empties them. *)
Lemma edit_errors st e :
  match fieldOf e with
  | Some (key, value, (min, max)) =>
      edit parseFloat st e = st \/
      if validateInput parseFloat value min max then
        errors (edit parseFloat st e) = map_set key None (errors st)
      else
        settings (edit parseFloat st e) = settings st /\
        exists message,
          errors (edit parseFloat st e) = map_set key (Some message) (errors st)
  | None => e = EdReset \/ errors (edit parseFloat st e) = errors st
  end.
Proof.
  destruct e as [c v|c v|v|b|v|v|v|i f v|]; cbn [edit fieldOf].
  - right. unfold handleConditionMultiplierChange. destruct (validateInput _ v _ _);
      [reflexivity|split; [reflexivity|eauto]].
  - right. unfold handleBuyCashMultiplierChange. destruct (validateInput _ v _ _);
      [reflexivity|split; [reflexivity|eauto]].
  - right. unfold handleCreditMultiplierChange. destruct (validateInput _ v _ _);
      [reflexivity|split; [reflexivity|eauto]].
  - right. reflexivity.
  - right. unfold handleBasePriceModifierChange. destruct (validateInput _ v _ _);
      [reflexivity|split; [reflexivity|eauto]].
  - right. unfold handleBulkThresholdChange. destruct (validateInput _ v _ _);
      [reflexivity|split; [reflexivity|eauto]].
  - right. unfold handleHighEndThresholdChange. destruct (validateInput _ v _ _);
      [reflexivity|split; [reflexivity|eauto]].
  - unfold handlePricingTierChange.
    destruct (pricingTiers (settings st)) as [|t0 ts] eqn:Ht.
    + repeat case_bool_decide; [left; reflexivity..|right; reflexivity].
    + cbv zeta iota. case_bool_decide as Hf1.
      * destruct (validateInput parseFloat v 0.01 1000) eqn:Hv.
        -- destruct ((t0 :: ts) !! i); [right|left]; reflexivity.
        -- right. split; [reflexivity|eauto].
      * case_bool_decide as Hf2; [|right; reflexivity].
        destruct (validateInput parseFloat v 0.01 1) eqn:Hv.
        -- destruct ((t0 :: ts) !! i); [right|left]; reflexivity.
        -- right. split; [reflexivity|eauto].
  - left. reflexivity.
Qed.



Lemma handleSave_None st : handleSave st = None <-> exists key, flagged key st.
Proof.
  unfold handleSave, flagged.
  destruct (existsb _ (errors st)) eqn:Hex.
  - split; [intros _|reflexivity].
    apply existsb_exists in Hex as ([k [message|]] & Hin & Hv); cbn [snd] in Hv.
    + exists k, message. apply list_elem_of_In. exact Hin.
    + rewrite bool_decide_eq_false_2 in Hv by (intros H; apply H; reflexivity).
      discriminate.
  - split; [discriminate|]. intros (k & message & Hin). exfalso.
    assert (Hex' : existsb (fun kv : jsstring * option jsstring => bool_decide (kv.2 <> None))
                     (errors st) = true).
    { apply existsb_exists. exists (k, Some message).
      split; [apply list_elem_of_In; exact Hin|]. apply bool_decide_eq_true_2. discriminate. }
    rewrite Hex' in Hex. discriminate.
Qed.

Lemma handleSave_Some st :
  Forall (fun v => v = None) ((errors st).*2) -> handleSave st = Some (settings st).
Proof.
  intros Hall. destruct (handleSave st) as [saved|] eqn:Hs.
  - unfold handleSave in Hs. destruct (existsb _ _); [discriminate|symmetry; exact Hs].
  - apply handleSave_None in Hs as (k & message & Hin). exfalso.
    rewrite Forall_forall in Hall.
    assert (Hv : Some message ∈ (errors st).*2).
    { apply list_elem_of_fmap. exists (k, Some message). split; [reflexivity|exact Hin]. }
    specialize (Hall _ Hv). discriminate.
Qed.





Lemma edit_clean st e :
  ~ rejected parseFloat e ->
  Forall (fun v => v = None) ((errors st).*2) ->
  Forall (fun v => v = None) ((errors (edit parseFloat st e)).*2).
Proof.
  intros Hrej Hall. pose proof (edit_errors st e) as He. unfold rejected in Hrej.
  destruct (fieldOf e) as [[[k v] [lo hi]]|].
  - destruct He as [-> |He]; [exact Hall|].
    destruct (validateInput parseFloat v lo hi) eqn:Hv.
    + rewrite He. apply map_set_values; [reflexivity|exact Hall].
    + exfalso. apply Hrej. exists k, v, lo, hi. split; [reflexivity|exact Hv].
  - destruct He as [-> | ->]; [constructor|exact Hall].
Qed.

Lemma erun_clean es st :
  Forall (fun e => ~ rejected parseFloat e) es ->
  Forall (fun v => v = None) ((errors st).*2) ->
  Forall (fun v => v = None) ((errors (erun parseFloat es st)).*2).
Proof.
  unfold erun. intros Hes. revert st.
  induction Hes as [|e es Hrej _ IH]; intros st Hall; [exact Hall|].
  cbn [foldl]. apply IH, edit_clean; assumption.
Qed.

(** X18: what the editor hands to [onSave] is within the bounds of the
    form: starting from the built-in settings, or from current settings
    that are within bounds, after any edits every multiplier, threshold
    and tier field of the saved settings lies within the bounds stated
    for it, so none is [NaN]. *)
Theorem saved_settings_in_range :
  forall current es saved,
    (forall s, current = Some s -> inRange s) ->
    handleSave (erun parseFloat es (einit current)) = Some saved ->
    inRange saved.
Proof.
  intros current es saved Hcur Hsave.
  assert (Hr : inRange (settings (erun parseFloat es (einit current)))).
  { apply erun_inRange. unfold einit. efields.
    destruct current as [s|]; [apply Hcur; reflexivity|apply editorSettings_inRange]. }
  unfold handleSave in Hsave. destruct (existsb _ _); [discriminate|].
  injection Hsave as <-. exact Hr.
Qed.


(** X20: when no text entered since the form was opened or last reset
    was rejected, Save hands over the settings as they stand; what was
    rejected before a reset does not count. *)
Theorem valid_edits_can_be_saved :
  forall es,
    Forall (fun e => ~ rejected parseFloat e) es ->
    (forall current,
       let st := erun parseFloat es (einit current) in
       handleSave st = Some (settings st)) /\
    (forall st0 before,
       let st := erun parseFloat (before ++ EdReset :: es) st0 in
       handleSave st = Some (settings st)).
Proof.
  intros es Hes. split.
  - intros current st. apply handleSave_Some. apply erun_clean; [exact Hes|constructor].
  - intros st0 earlier st. apply handleSave_Some. subst st. unfold erun.
    rewrite foldl_app. cbn [foldl edit]. apply erun_clean; [exact Hes|constructor].
Qed.

End EditorFacts.

Lemma saved_settings_in_range_witness :
  (forall s, (None : option Settings) = Some s -> inRange s) /\
  handleSave (erun sampleParse validEdits (einit None)) =
    Some (withBulkThreshold 7 (withCreditMultiplier 1.5 editorSettings)) /\
  inRange (withBulkThreshold 7 (withCreditMultiplier 1.5 editorSettings)).
Proof.
  assert (H1 : forall s, (None : option Settings) = Some s -> inRange s)
    by (intros s H; discriminate H).
  assert (H2 : handleSave (erun sampleParse validEdits (einit None)) =
               Some (withBulkThreshold 7 (withCreditMultiplier 1.5 editorSettings)))
    by reflexivity.
  exact (conj H1 (conj H2 (saved_settings_in_range sampleParse None validEdits _ H1 H2))).
Defined.


Lemma valid_edits_can_be_saved_witness :
  Forall (fun e => ~ rejected sampleParse e) validEdits /\
  (forall current,
     let st := erun sampleParse validEdits (einit current) in
     handleSave st = Some (settings st)) /\
  (forall st0 before,
     let st := erun sampleParse (before ++ EdReset :: validEdits) st0 in
     handleSave st = Some (settings st)).
Proof.
  assert (H : Forall (fun e => ~ rejected sampleParse e) validEdits).
  { repeat constructor; intros (k & v & lo & hi & Hf & Hv);
      cbn [fieldOf] in Hf; injection Hf as <- <- <- <-; vm_compute in Hv; discriminate Hv. }
  exact (conj H (valid_edits_can_be_saved sampleParse validEdits H)).
Defined.
